(** * simpleTrigger: the screen colour monitor of [main.py]

    A shallow embedding of class [ScreenColorMonitor] (configuration
    loading, colour matching, debounced key press, the monitoring loop and
    its controls) and of the parts of the window [MonitorGUI] that act on
    it (the buttons, the hot keys, the entries), with the proofs of its
    specification and of further properties of the code.

    Numbers are modelled as the interpreter has them: Python [int] as [Z],
    Python and numpy [float] as IEEE 754 binary64, through the reference
    operations of [SpecFloat] at precision 53 and exponent bound 1024. *)

From Stdlib Require Import ZArith QArith Qpower Lqa Lia List Ascii String.
From Stdlib Require Import Strings.Byte.
From Stdlib Require Import Floats.SpecFloat.
From Stdlib Require Import HexadecimalString HexadecimalN.
From stdpp Require Import gmap strings.

Set Warnings "-register-all".
Local Open Scope Z_scope.

(** ** binary64 arithmetic *)

Module F64.

Abbreviation f64 := spec_float.

Definition prec : Z := 53.
Definition emax : Z := 1024.

Definition add : f64 -> f64 -> f64 := SFadd prec emax.
Definition sub : f64 -> f64 -> f64 := SFsub prec emax.
Definition mul : f64 -> f64 -> f64 := SFmul prec emax.
Definition div : f64 -> f64 -> f64 := SFdiv prec emax.
Definition ltb : f64 -> f64 -> bool := SFltb.
Definition leb : f64 -> f64 -> bool := SFleb.

(** Conversion of an integer, rounding to nearest, ties to even (the C
    cast numpy uses for [int64], and Python's [float(int)] below the
    overflow threshold). *)
Definition of_int (n : Z) : f64 := binary_normalize prec emax n 0 false.

Definition is_finite (x : f64) : bool :=
  match x with
  | S754_zero _ | S754_finite _ _ _ => true
  | S754_infinity _ | S754_nan => false
  end.

Definition is_nan (x : f64) : bool :=
  match x with S754_nan => true | _ => false end.

(** The values a binary64 variable can hold. *)
Definition valid (x : f64) : bool := valid_binary prec emax x.

(** The literals of the source. *)
Definition zero : f64 := S754_zero false.
Definition one : f64 := S754_finite false 4503599627370496 (-52).
Definition hundred : f64 := S754_finite false 7036874417766400 (-46).
Definition thousand : f64 := S754_finite false 8796093022208000 (-43).
(** [0.1]: the double nearest to one tenth. *)
Definition tenth : f64 := S754_finite false 7205759403792794 (-56).

(** Python compares a [float] with an [int] exactly, without converting
    the integer: [m * 2^e ? n] is decided over the integers. *)
Definition compare_int (x : f64) (n : Z) : option comparison :=
  match x with
  | S754_nan => None
  | S754_infinity s => Some (if s then Lt else Gt)
  | S754_zero _ => Some (0 ?= n)
  | S754_finite s m e =>
      let sm := if s then Z.neg m else Z.pos m in
      Some (if 0 <=? e then (sm * 2 ^ e ?= n) else (sm ?= n * 2 ^ (- e)))
  end.

Definition ltb_int (x : f64) (n : Z) : bool :=
  match compare_int x n with Some Lt => true | _ => false end.

Definition gtb_int (x : f64) (n : Z) : bool :=
  match compare_int x n with Some Gt => true | _ => false end.

End F64.

Import F64.

(** ** Exceptions *)

Inductive exn :=
| FileNotFoundError
| JSONDecodeError
| UnicodeDecodeError
| KeyError
| TypeError
| AttributeError
| OverflowError
| ZeroDivisionError
| ValueError
| RecursionError
| ScreenShotError
| InvalidKeyException.

(** The result of a computation that may raise. *)
Inductive outcome (A : Type) :=
| Return (a : A)
| Raise (e : exn).
Arguments Return {A} a.
Arguments Raise {A} e.

#[global] Instance outcome_ret : MRet outcome := @Return.
#[global] Instance outcome_bind : MBind outcome :=
  fun A B f m => match m with Return a => f a | Raise e => Raise e end.

(** A [for] loop whose body may raise: the first exception leaves the loop. *)
Fixpoint for_each {A S : Type} (body : S -> A -> outcome S) (l : list A) (s : S)
  : outcome S :=
  match l with
  | [] => Return s
  | x :: l' => s' ← body s x; for_each body l' s'
  end.

(** ** JSON values and the configuration file *)

(** What [json.load] builds: [None], [bool], [int], [float], [str], [list]
    and [dict] with string keys. *)
Inductive json :=
| JNull
| JBool (b : bool)
| JInt (n : Z)
| JFloat (x : f64)
| JStr (s : string)
| JArr (l : list json)
| JObj (m : gmap string json).

Module Py.

(** [k in c] for a string [k]: key membership in a dict, element
    membership in a list, substring test in a str, [TypeError] elsewhere. *)
Definition is_str (k : string) (v : json) : bool :=
  match v with JStr s => String.eqb k s | _ => false end.

Definition is_substring (k s : string) : bool :=
  match String.index 0 k s with Some _ => true | None => false end.

Definition contains (c : json) (k : string) : outcome bool :=
  match c with
  | JObj m => Return (bool_decide (is_Some (m !! k)))
  | JArr l => Return (existsb (is_str k) l)
  | JStr s => Return (is_substring k s)
  | _ => Raise TypeError
  end.

(** [c[k] = v] for a string [k]: only a dict supports it. *)
Definition setitem (c : json) (k : string) (v : json) : outcome json :=
  match c with
  | JObj m => Return (JObj (<[k := v]> m))
  | _ => Raise TypeError
  end.

(** [c[k]] for a string [k]. *)
Definition getitem (c : json) (k : string) : outcome json :=
  match c with
  | JObj m => match m !! k with Some v => Return v | None => Raise KeyError end
  | _ => Raise TypeError
  end.

(** [c.get(k, d)]: a method of dict only. *)
Definition get (c : json) (k : string) (d : json) : outcome json :=
  match c with
  | JObj m => Return (default d (m !! k))
  | _ => Raise AttributeError
  end.

End Py.

(** A value of the [default_config] literal: a scalar, or a nested dict
    with its items in the order they are written. *)
Inductive default_value :=
| Scalar (v : json)
| Group (items : list (string * json)).

Definition to_json (d : default_value) : json :=
  match d with
  | Scalar v => v
  | Group items => JObj (list_to_map items)
  end.

Definition monitor_region_defaults : list (string * json) :=
  [ ("left", JInt 100); ("top", JInt 100);
    ("width", JInt 200); ("height", JInt 200) ]%string.

Definition target_color_defaults : list (string * json) :=
  [ ("r", JInt 255); ("g", JInt 0); ("b", JInt 0) ]%string.

Definition default_items : list (string * default_value) :=
  [ ("monitor_region", Group monitor_region_defaults);
    ("target_color", Group target_color_defaults);
    ("color_tolerance", Scalar (JInt 30));
    ("threshold_percentage", Scalar (JFloat (of_int 10)));
    ("press_key", Scalar (JStr "e"));
    ("press_delay_ms", Scalar (JInt 0));
    ("cooldown_ms", Scalar (JInt 100));
    ("check_interval_ms", Scalar (JInt 10));
    ("hotkey_start_stop", Scalar (JStr "f9"));
    ("hotkey_pause_resume", Scalar (JStr "f10"));
    ("hotkey_screenshot", Scalar (JStr "f8")) ]%string.

Definition default_map : gmap string json :=
  list_to_map (map (fun kv => (fst kv, to_json (snd kv))) default_items).

Definition default_config : json := JObj default_map.

(** The file [config.json], by what [open] and [json.load] do with it:
    missing; bytes that are not UTF-8; text that is not JSON; JSON that
    [json.load] gives up on, nested beyond the recursion limit or with an
    integer of more digits than [int] converts; or a file from which
    [json.load] returns the value [j]. Failures of the operating system
    other than a missing file (permissions, a full disk) are not
    modelled. *)
Inductive disk_file :=
| No_file
| Undecodable
| Malformed
| Too_deep
| Too_many_digits
| Document (j : json).

(** [open('config.json', 'r', encoding='utf-8')] followed by [json.load]. *)
Definition open_and_load (d : disk_file) : outcome json :=
  match d with
  | No_file => Raise FileNotFoundError
  | Undecodable => Raise UnicodeDecodeError
  | Malformed => Raise JSONDecodeError
  | Too_deep => Raise RecursionError
  | Too_many_digits => Raise ValueError
  | Document j => Return j
  end.

(** [save_config], where the write succeeds: [json.dump] replaces the
    content of the file. It is used for configurations whose strings
    encode to UTF-8, as the defaults do; a string that does not (a lone
    surrogate) makes the write raise and is outside this definition. *)
Definition save_config (config : json) (d : disk_file) : disk_file :=
  Document config.

(** Lines 78-80: the inner loop over the items of a default group. *)
Definition backfill_sub (key : string) (loaded_config : json)
    (item : string * json) : outcome json :=
  let '(sub_key, sub_value) := item in
  group ← Py.get loaded_config key (JObj ∅);
  present ← Py.contains group sub_key;
  if (present : bool) then Return loaded_config
  else
    target ← Py.getitem loaded_config key;
    target' ← Py.setitem target sub_key sub_value;
    Py.setitem loaded_config key target'.

(** Lines 74-80: one pass of the outer loop. *)
Definition backfill (loaded_config : json) (item : string * default_value)
  : outcome json :=
  let '(key, value) := item in
  present ← Py.contains loaded_config key;
  if negb (present : bool) then Py.setitem loaded_config key (to_json value)
  else
    match value with
    | Group items => for_each (backfill_sub key) items loaded_config
    | Scalar _ => Return loaded_config
    end.

Definition merge_defaults (loaded_config : json) : outcome json :=
  for_each backfill default_items loaded_config.

(** [load_config]: the value returned (or the exception that escapes) and
    the file afterwards. Only [FileNotFoundError] and [JSONDecodeError] are
    handled. *)
Definition load_config (d : disk_file) : outcome json * disk_file :=
  match open_and_load d ≫= merge_defaults with
  | Raise FileNotFoundError | Raise JSONDecodeError =>
      (Return default_config, save_config default_config d)
  | r => (r, d)
  end.

(** ** The typed view of the configuration read by the monitor *)

(** The keys the monitor reads, with the types [save_config] of the window
    writes: [int] everywhere, [float] for the threshold. *)
Module Config.

Record region := { left : Z; top : Z; width : Z; height : Z }.

Record color := { r : Z; g : Z; b : Z }.

Record t := {
  monitor_region : region;
  target_color : color;
  color_tolerance : Z;
  threshold_percentage : f64;
  press_key : string;
  press_delay_ms : Z;
  cooldown_ms : Z;
  check_interval_ms : Z
}.

End Config.

(** ** Captured frames *)

(** One pixel of the frame after the conversion to RGB: three [uint8]. *)
Record pixel := { red : Byte.byte; green : Byte.byte; blue : Byte.byte }.

Definition channel (c : Byte.byte) : Z := Z.of_N (Byte.to_N c).

(** A numpy array of shape [(shape0, shape1, 3)] and dtype [uint8]: the
    pixels in row-major order. The number of elements of an array is the
    product of its shape and fits the signed 64-bit index type. *)
Record image := {
  shape0 : nat;
  shape1 : nat;
  data : list pixel;
  shape_ok : length data = (shape0 * shape1)%nat;
  size_ok : Z.of_nat (length data) < 2 ^ 63
}.

(** ** check_color_match *)

(** [np.abs(img - target_rgb)] at one pixel, as the exact difference.
    numpy computes it in a signed integer type of 32 or 64 bits, where it
    is this difference for every target channel in 0..255, the range of a
    colour, and wraps around for targets near the ends of the type. What is
    proved of the value of the difference assumes a target in 0..255. *)
Definition diff (target : Config.color) (p : pixel) : Z * Z * Z :=
  (Z.abs (channel (red p) - Config.r target),
   Z.abs (channel (green p) - Config.g target),
   Z.abs (channel (blue p) - Config.b target)).

(** [np.all(diff <= tolerance, axis=2)] at one pixel. *)
Definition within (tolerance : Z) (d : Z * Z * Z) : bool :=
  let '(dr, dg, db) := d in
  (dr <=? tolerance) && (dg <=? tolerance) && (db <=? tolerance).

(** [np.sum(mask)]. *)
Definition np_sum (mask : list bool) : Z :=
  fold_right (fun (m : bool) acc => (if m then 1 else 0) + acc) 0 mask.

Definition check_color_match (config : Config.t) (img : image)
  : f64 * list bool :=
  let target := Config.target_color config in
  let tolerance := Config.color_tolerance config in
  let mask := map (fun p => within tolerance (diff target p)) (data img) in
  let total_pixels := Z.of_nat (shape0 img) * Z.of_nat (shape1 img) in
  let matched_pixels := np_sum mask in
  let percentage :=
    F64.mul (F64.div (of_int matched_pixels) (of_int total_pixels)) hundred in
  (percentage, mask).

(** ** The monitor object and its effects *)

Record monitor := {
  config : Config.t;
  is_running : bool;
  is_paused : bool;
  trigger_count : Z;
  last_trigger_time : f64;
  detection_count : Z;
  last_fps_check_time : f64;
  fps : f64
}.

(** [__init__], given the configuration loaded and the clock. *)
Definition init (c : Config.t) (now : f64) : monitor :=
  {| config := c; is_running := false; is_paused := false;
     trigger_count := 0; last_trigger_time := zero;
     detection_count := 0; last_fps_check_time := now; fps := zero |}.

Definition set_trigger_count (n : Z) (s : monitor) : monitor :=
  {| config := config s; is_running := is_running s; is_paused := is_paused s;
     trigger_count := n; last_trigger_time := last_trigger_time s;
     detection_count := detection_count s;
     last_fps_check_time := last_fps_check_time s; fps := fps s |}.

Definition set_last_trigger_time (x : f64) (s : monitor) : monitor :=
  {| config := config s; is_running := is_running s; is_paused := is_paused s;
     trigger_count := trigger_count s; last_trigger_time := x;
     detection_count := detection_count s;
     last_fps_check_time := last_fps_check_time s; fps := fps s |}.

Definition set_detection_count (n : Z) (s : monitor) : monitor :=
  {| config := config s; is_running := is_running s; is_paused := is_paused s;
     trigger_count := trigger_count s; last_trigger_time := last_trigger_time s;
     detection_count := n;
     last_fps_check_time := last_fps_check_time s; fps := fps s |}.

Definition set_last_fps_check_time (x : f64) (s : monitor) : monitor :=
  {| config := config s; is_running := is_running s; is_paused := is_paused s;
     trigger_count := trigger_count s; last_trigger_time := last_trigger_time s;
     detection_count := detection_count s;
     last_fps_check_time := x; fps := fps s |}.

Definition set_fps (x : f64) (s : monitor) : monitor :=
  {| config := config s; is_running := is_running s; is_paused := is_paused s;
     trigger_count := trigger_count s; last_trigger_time := last_trigger_time s;
     detection_count := detection_count s;
     last_fps_check_time := last_fps_check_time s; fps := x |}.

Definition set_is_running (v : bool) (s : monitor) : monitor :=
  {| config := config s; is_running := v; is_paused := is_paused s;
     trigger_count := trigger_count s; last_trigger_time := last_trigger_time s;
     detection_count := detection_count s;
     last_fps_check_time := last_fps_check_time s; fps := fps s |}.

Definition set_is_paused (v : bool) (s : monitor) : monitor :=
  {| config := config s; is_running := is_running s; is_paused := v;
     trigger_count := trigger_count s; last_trigger_time := last_trigger_time s;
     detection_count := detection_count s;
     last_fps_check_time := last_fps_check_time s; fps := fps s |}.

(** The keys handed to the keyboard controller. *)
Inductive key :=
| Char (s : string)
| Key_space
| Key_shift
| Key_ctrl.

Inductive message :=
| Triggered (key_str : string) (count : Z)
| Key_error (e : exn)
| Monitor_error (e : exn)
| Monitor_started
| Monitor_stopped.

(** What a run does to the outside, in order. [Call_press_key] records the
    call [self.press_key()] of the loop, which a dropped invocation would
    otherwise leave no trace of. *)
Inductive event :=
| Grab (monitor : Config.region)
| Sleep (seconds : f64)
| Press (k : key)
| Release (k : key)
| Timer_start (delay_s : f64)
| Print (m : message)
| Call_press_key.

(** Methods of the monitor: they read and write the object, act on the
    outside, and return or raise. *)
Definition M (A : Type) : Type := monitor -> outcome A * monitor * list event.

#[global] Instance M_ret : MRet M := fun A a s => (Return a, s, []).
#[global] Instance M_bind : MBind M :=
  fun A B f m s =>
    match m s with
    | (Return a, s', t) => let '(r, s'', t') := f a s' in (r, s'', t ++ t')
    | (Raise e, s', t) => (Raise e, s', t)
    end.

Definition get : M monitor := fun s => (Return s, s, []).
Definition modify (f : monitor -> monitor) : M unit := fun s => (Return tt, f s, []).
Definition emit (e : event) : M unit := fun s => (Return tt, s, [e]).
Definition lift {A : Type} (o : outcome A) : M A := fun s => (o, s, []).

(** [try: body except Exception as e: handler e]. *)
Definition try_except {A : Type} (body : M A) (handler : exn -> M A) : M A :=
  fun s =>
    match body s with
    | (Raise e, s', t) => let '(r, s'', t') := handler e s' in (r, s'', t ++ t')
    | r => r
    end.

(** Python's [float(n)] as [n / 1000.0] performs it: correctly rounded, and
    an [OverflowError] past the largest double. *)
Definition float_of_int (n : Z) : outcome f64 :=
  let x := of_int n in
  if is_finite x then Return x else Raise OverflowError.

(** [n / d] for an [int] and a [float]. *)
Definition truediv_int (n : Z) (d : f64) : outcome f64 :=
  x ← float_of_int n;
  match d with
  | S754_zero _ => Raise ZeroDivisionError
  | _ => Return (F64.div x d)
  end.

(** [time.sleep(seconds)], as CPython 3.11 converts its argument: a NaN is
    refused, the seconds are multiplied by 10^9 and must lie in the range
    of a signed 64-bit count of nanoseconds, and a negative time is
    refused. The two sleeps of 0.1 s of the loop are within these limits
    and are written as the event [Sleep tenth]. *)
Definition two63 : f64 := S754_finite false 4503599627370496 11.

Definition nanoseconds (seconds : f64) : f64 := F64.mul seconds (of_int 1000000000).

Definition sleep (seconds : f64) : M unit :=
  if is_nan seconds then lift (Raise ValueError)
  else
    let ns := nanoseconds seconds in
    if F64.leb (S754_finite true 4503599627370496 11) ns && F64.ltb ns two63 then
      if F64.ltb ns zero then lift (Raise ValueError) else emit (Sleep seconds)
    else lift (Raise OverflowError).

(** ** _execute_press *)

(** [str.lower] on strings of ASCII characters, which is what the names
    of keys are: on these it works letter by letter. *)
Definition lower_ascii (c : ascii) : ascii :=
  let n := N_of_ascii c in
  if ((65 <=? n) && (n <=? 90))%N then ascii_of_N (n + 32) else c.

Fixpoint lower (s : string) : string :=
  match s with
  | EmptyString => EmptyString
  | String c s' => String (lower_ascii c) (lower s')
  end.

(** The key mapping of lines 135-149. *)
Definition key_of (key_str : string) : key :=
  if (String.length key_str =? 1)%nat then Char key_str
  else if String.eqb key_str "space" then Key_space
  else if String.eqb key_str "shift" then Key_shift
  else if String.eqb key_str "ctrl" then Key_ctrl
  else Char key_str.

(** The keyboard controller: which calls raise. *)
Record keyboard := {
  press_raises : key -> bool;
  release_raises : key -> bool
}.

Definition press (kb : keyboard) (k : key) : M unit :=
  emit (Press k);;
  if press_raises kb k then lift (Raise InvalidKeyException) else mret tt.

Definition release (kb : keyboard) (k : key) : M unit :=
  emit (Release k);;
  if release_raises kb k then lift (Raise InvalidKeyException) else mret tt.

Definition _execute_press (kb : keyboard) : M unit :=
  s ← get;
  let key_str := lower (Config.press_key (config s)) in
  try_except
    (press kb (key_of key_str);;
     release kb (key_of key_str);;
     modify (fun s => set_trigger_count (trigger_count s + 1) s);;
     s' ← get;
     emit (Print (Triggered key_str (trigger_count s'))))
    (fun e => emit (Print (Key_error e))).

(** ** press_key *)

(** [now] is what [time.time()] returns at line 158. With a positive delay
    the key action is handed to a [threading.Timer], whose callback is
    [_execute_press]. *)
Definition press_key (kb : keyboard) (now : f64) : M unit :=
  s ← get;
  let current_time := F64.mul now thousand in
  let cooldown := Config.cooldown_ms (config s) in
  if ltb_int (F64.sub current_time (last_trigger_time s)) cooldown then mret tt
  else
    modify (set_last_trigger_time current_time);;
    let delay_ms := Config.press_delay_ms (config s) in
    if 0 <? delay_ms then
      delay_s ← lift (truediv_int delay_ms thousand);
      emit (Timer_start delay_s)
    else _execute_press kb.



(** ** monitor_loop *)

(** What one pass of the loop reads from the outside: the two readings of
    [time.perf_counter], the frame grabbed (or the exception of the
    capture), the readings of [time.time] at lines 200 and 158, and the
    keyboard. *)
Record pass_io := {
  perf_start : f64;
  grabbed : outcome image;
  fps_clock : f64;
  press_clock : f64;
  kb : keyboard;
  perf_end : f64
}.

Definition capture_screen_region (io : pass_io) : M image :=
  s ← get;
  emit (Grab (Config.monitor_region (config s)));;
  lift (grabbed io).

(** Lines 199-204. *)
Definition update_fps (current_time : f64) : M unit :=
  modify (fun s => set_detection_count (detection_count s + 1) s);;
  s ← get;
  let elapsed := F64.sub current_time (last_fps_check_time s) in
  if F64.leb one elapsed then
    rate ← lift (truediv_int (detection_count s) elapsed);
    modify (set_fps rate);;
    modify (set_detection_count 0);;
    modify (set_last_fps_check_time current_time)
  else mret tt.

(** Lines 194-216: the guarded part of a pass. *)
Definition sample_and_decide (io : pass_io) : M unit :=
  try_except
    (img ← capture_screen_region io;
     update_fps (fps_clock io);;
     s ← get;
     let '(percentage, mask) := check_color_match (config s) img in
     let threshold := Config.threshold_percentage (config s) in
     if F64.leb threshold percentage then
       emit Call_press_key;; press_key (kb io) (press_clock io)
     else mret tt)
    (fun e => emit (Print (Monitor_error e));; emit (Sleep tenth)).

(** Lines 218-224: the sleep that keeps the cadence. It is outside the
    [try] of the pass. *)
Definition cadence (io : pass_io) : M unit :=
  s ← get;
  target_interval ← lift (truediv_int (Config.check_interval_ms (config s)) thousand);
  if gtb_int target_interval 0 then
    let loop_duration := F64.sub (perf_end io) (perf_start io) in
    let time_to_wait := F64.sub target_interval loop_duration in
    if gtb_int time_to_wait 0 then sleep time_to_wait else mret tt
  else mret tt.

(** The body of [while self.is_running]. A paused pass ends at [continue]. *)
Definition loop_pass (io : pass_io) : M unit :=
  s ← get;
  if is_paused s then emit (Sleep tenth)
  else sample_and_decide io;; cadence io.

Fixpoint passes (ios : list pass_io) : M unit :=
  match ios with
  | [] => mret tt
  | io :: ios' =>
      s ← get;
      if is_running s then loop_pass io;; passes ios' else mret tt
  end.

(** [monitor_loop], as far as the passes [ios] describe it. [sct] is what
    [mss.mss()] does at line 186, outside every [try]: it returns or
    raises. The loop has ended, and line 226 prints, when a pass found
    [is_running] false; a run whose flag is still set after the passes of
    [ios] goes on. *)
Definition monitor_loop (now : f64) (sct : outcome unit) (ios : list pass_io) : M unit :=
  emit (Print Monitor_started);;
  modify (set_detection_count 0);;
  modify (set_last_fps_check_time now);;
  lift sct;;
  passes ios;;
  s ← get;
  if is_running s then mret tt else emit (Print Monitor_stopped).

(** [pause_monitoring] and [resume_monitoring]. *)
Definition pause_monitoring : M unit := modify (set_is_paused true).
Definition resume_monitoring : M unit := modify (set_is_paused false).

#[global] Arguments F64.add : simpl never.
#[global] Arguments F64.sub : simpl never.
#[global] Arguments F64.mul : simpl never.
#[global] Arguments F64.div : simpl never.
#[global] Arguments F64.ltb : simpl never.
#[global] Arguments F64.leb : simpl never.
#[global] Arguments F64.of_int : simpl never.
#[global] Arguments F64.ltb_int : simpl never.
#[global] Arguments F64.gtb_int : simpl never.
#[global] Arguments F64.compare_int : simpl never.
#[global] Arguments lower : simpl never.
#[global] Arguments key_of : simpl never.

(** * Specification-side definitions *)

(** The result of a method call, taken apart. *)
Definition result_of {A : Type} (r : outcome A * monitor * list event) : outcome A :=
  fst (fst r).
Definition state_of {A : Type} (r : outcome A * monitor * list event) : monitor :=
  snd (fst r).
Definition trace_of {A : Type} (r : outcome A * monitor * list event) : list event :=
  snd r.

(** ** Debounce *)

(** The millisecond timestamp [press_key] computes from a clock reading. *)
Definition ms (now : f64) : f64 := F64.mul now thousand.

(** A silently dropped invocation: it returns, and nothing happened. The
    state is compared by the caller. *)
Definition is_dropped (r : outcome unit * monitor * list event) : bool :=
  match r with
  | (Return _, _, []) => true
  | _ => false
  end.

(** The invocations of [press_key] at the clock readings [nows], one after
    the other: which of them were accepted. *)
Fixpoint press_key_run (kb : keyboard) (nows : list f64) (s : monitor) : list bool :=
  match nows with
  | [] => []
  | now :: nows' =>
      let r := press_key kb now s in
      negb (is_dropped r) :: press_key_run kb nows' (state_of r)
  end.

(** The rule of the specification, in its words: a timestamp is accepted
    when it is the first ([prev = None]) or at least [C] ms after the
    previous accepted one. *)
Fixpoint debounce_spec (C : Z) (prev : option f64) (ts : list f64) : list bool :=
  match ts with
  | [] => []
  | t :: ts' =>
      let ok :=
        match prev with
        | None => true
        | Some p => negb (ltb_int (F64.sub t p) C)
        end in
      ok :: debounce_spec C (if ok then Some t else prev) ts'
  end.

(** ** Examples used to exercise the theorems *)

Definition example_config : Config.t :=
  {| Config.monitor_region :=
       {| Config.left := 100; Config.top := 100;
          Config.width := 2; Config.height := 2 |};
     Config.target_color := {| Config.r := 255; Config.g := 0; Config.b := 0 |};
     Config.color_tolerance := 30;
     Config.threshold_percentage := of_int 10;
     Config.press_key := "E";
     Config.press_delay_ms := 0;
     Config.cooldown_ms := 100;
     Config.check_interval_ms := 10 |}.

(** A cooldown longer than the age of the epoch. *)
Definition long_cooldown_config : Config.t :=
  {| Config.monitor_region := Config.monitor_region example_config;
     Config.target_color := Config.target_color example_config;
     Config.color_tolerance := 30;
     Config.threshold_percentage := of_int 10;
     Config.press_key := "e";
     Config.press_delay_ms := 0;
     Config.cooldown_ms := 2000000000000;
     Config.check_interval_ms := 10 |}.


Definition good_keyboard : keyboard :=
  {| press_raises := fun _ => false; release_raises := fun _ => false |}.

(** [time.time()] in November 2026. *)
Definition example_clock : f64 := of_int 1793700000.

Definition example_monitor : monitor :=
  set_is_running true (init example_config example_clock).

Definition red_pixel : pixel := {| red := xff; green := x00; blue := x00 |}.
Definition black_pixel : pixel := {| red := x00; green := x00; blue := x00 |}.

(** A 2 x 2 frame with one red pixel. *)
Definition example_image : image :=
  {| shape0 := 2; shape1 := 2;
     data := [red_pixel; black_pixel; black_pixel; black_pixel];
     shape_ok := eq_refl; size_ok := eq_refl |}.

(** The frame of a region of height zero. *)
Definition empty_image : image :=
  {| shape0 := 0; shape1 := 5; data := [];
     shape_ok := eq_refl; size_ok := eq_refl |}.

Definition example_io : pass_io :=
  {| perf_start := of_int 5;
     grabbed := Return example_image;
     fps_clock := example_clock;
     press_clock := example_clock;
     kb := good_keyboard;
     perf_end := of_int 5 |}.

Definition paused_monitor : monitor := set_is_paused true example_monitor.



(** ** Merge of the defaults *)

(** What a key holds after the merge, in the words of the specification:
    the default when the key is absent; a present nested record with its
    absent keys filled from the default record; a present value otherwise. *)
Definition backfilled (loaded : option json) (d : default_value) : json :=
  match loaded, d with
  | None, _ => to_json d
  | Some (JObj inner), Group items => JObj (inner ∪ list_to_map items)
  | Some v, _ => v
  end.

(** A loaded record is well formed when the nested groups it holds are
    records. *)
Definition group_is_record (m : gmap string json) (item : string * default_value) : Prop :=
  match snd item with
  | Scalar _ => True
  | Group _ =>
      match m !! fst item with
      | None | Some (JObj _) => True
      | Some _ => False
      end
  end.

Definition groups_are_records (m : gmap string json) : Prop :=
  Forall (group_is_record m) default_items.

(** The merge, one default after the other. *)
Definition merged (m : gmap string json) (items : list (string * default_value))
  : gmap string json :=
  foldl (fun acc item => <[fst item := backfilled (acc !! fst item) (snd item)]> acc) m items.

(** A loaded file that lacks [color_tolerance] and the blue channel. *)
Definition partial_document : gmap string json :=
  {[ "target_color" := JObj {[ "r" := JInt 1; "g" := JInt 2 ]};
     "cooldown_ms" := JInt 250;
     "note" := JStr "kept" ]}%string.

(** * The real numbers behind binary64 values

    The proofs about rounding read a float as the rational it stands for
    and follow the reference algorithm step by step. *)

Definition pow2 (e : Z) : Q := (2 ^ e)%Q.

(** [x] in units of [2 ^ e]. *)
Definition scale (x : Q) (e : Z) : Q := (x * pow2 (- e))%Q.

(** The value of a positive finite float. *)
Definition Fval (m : positive) (e : Z) : Q := (inject_Z (Z.pos m) * pow2 e)%Q.

(** [y] lies in [[m, m + 1)] at the place [l] says: on [m], below, on or
    above the midpoint. *)
Definition inbetween (y : Q) (m : Z) (l : location) : Prop :=
  match l with
  | loc_Exact => (y == inject_Z m)%Q
  | loc_Inexact c =>
      (inject_Z m < y)%Q /\ (y < inject_Z m + 1)%Q
      /\ (y ?= inject_Z m + (1 # 2))%Q = c
  end.

(** The shift register [mrs] holds [x] truncated at exponent [e]. *)
Definition located (x : Q) (mrs : shr_record) (e : Z) : Prop :=
  0 <= shr_m mrs /\ inbetween (scale x e) (shr_m mrs) (loc_of_shr_record mrs).

(** [g] is the magnitude of [x]: [2 ^ (g - 1) <= x < 2 ^ g]. *)
Definition mag_is (x : Q) (g : Z) : Prop := (pow2 (g - 1) <= x)%Q /\ (x < pow2 g)%Q.

(** The mantissa and exponent after rounding at exponent [E]: a mantissa
    that reached [2 ^ prec] moves up one binade. *)
Definition normalise (m : Z) (E : Z) : Z * Z :=
  if m <? 2 ^ prec then (m, E) else (2 ^ (prec - 1), E + 1).

(** [f] is [x], of magnitude [g], rounded to nearest even with [prec]
    digits. *)
Definition rounded (x : Q) (g : Z) (f : f64) : Prop :=
  exists m l,
    inbetween (scale x (g - prec)) m l
    /\ 2 ^ (prec - 1) <= m < 2 ^ prec
    /\ f = S754_finite false
             (Z.to_pos (fst (normalise (round_nearest_even m l) (g - prec))))
             (snd (normalise (round_nearest_even m l) (g - prec))).

(** Positive finite floats with a full mantissa. *)
Definition normal (f : f64) (m : positive) (e : Z) : Prop :=
  f = S754_finite false m e /\ 2 ^ (prec - 1) <= Z.pos m < 2 ^ prec.

(** The percentage [check_color_match] computes from the two counts. *)
Definition percentage_of (matched_pixels total_pixels : Z) : f64 :=
  F64.mul (F64.div (of_int matched_pixels) (of_int total_pixels)) hundred.

(** ** Matching *)

(** A pixel matches: every channel is within the tolerance of the target,
    inclusive. *)
Definition color_matches (target : Config.color) (tolerance : Z) (p : pixel) : Prop :=
  Z.abs (channel (red p) - Config.r target) <= tolerance
  /\ Z.abs (channel (green p) - Config.g target) <= tolerance
  /\ Z.abs (channel (blue p) - Config.b target) <= tolerance.

#[global] Instance color_matches_dec (target : Config.color) (tolerance : Z) (p : pixel) :
  Decision (color_matches target tolerance p).
Proof. unfold color_matches. apply _. Defined.

(** The number of matching pixels of a frame. *)
Definition matched_count (target : Config.color) (tolerance : Z) (img : image) : Z :=
  Z.of_nat (length (filter (color_matches target tolerance) (data img))).

(** The configuration with another tolerance. *)
Definition with_tolerance (tolerance : Z) (c : Config.t) : Config.t :=
  {| Config.monitor_region := Config.monitor_region c;
     Config.target_color := Config.target_color c;
     Config.color_tolerance := tolerance;
     Config.threshold_percentage := Config.threshold_percentage c;
     Config.press_key := Config.press_key c;
     Config.press_delay_ms := Config.press_delay_ms c;
     Config.cooldown_ms := Config.cooldown_ms c;
     Config.check_interval_ms := Config.check_interval_ms c |}.

(** ** The end-to-end scenarios of section 8 *)

(** Region 10 x 10, target (255, 0, 0), tolerance 0, threshold 50 %. *)
Definition scenario_config : Config.t :=
  {| Config.monitor_region :=
       {| Config.left := 0; Config.top := 0; Config.width := 10; Config.height := 10 |};
     Config.target_color := {| Config.r := 255; Config.g := 0; Config.b := 0 |};
     Config.color_tolerance := 0;
     Config.threshold_percentage := of_int 50;
     Config.press_key := "e";
     Config.press_delay_ms := 0;
     Config.cooldown_ms := 100;
     Config.check_interval_ms := 10 |}.

(** A 10 x 10 frame whose first [n] pixels are red. *)
Definition frame_60 : image :=
  {| shape0 := 10; shape1 := 10;
     data := repeat red_pixel 60 ++ repeat black_pixel 40;
     shape_ok := eq_refl; size_ok := eq_refl |}.

Definition frame_40 : image :=
  {| shape0 := 10; shape1 := 10;
     data := repeat red_pixel 40 ++ repeat black_pixel 60;
     shape_ok := eq_refl; size_ok := eq_refl |}.

Definition frame_29 : image :=
  {| shape0 := 10; shape1 := 10;
     data := repeat red_pixel 29 ++ repeat black_pixel 71;
     shape_ok := eq_refl; size_ok := eq_refl |}.

Definition scenario_monitor : monitor :=
  set_is_running true (init scenario_config example_clock).

Definition scenario_io (img : image) : pass_io :=
  {| perf_start := of_int 5;
     grabbed := Return img;
     fps_clock := example_clock;
     press_clock := example_clock;
     kb := good_keyboard;
     perf_end := of_int 5 |}.

(** 50 ms after [example_clock]. *)
Definition example_clock_50ms_later : f64 :=
  F64.add example_clock (F64.div (of_int 1) (of_int 20)).

(** * The controls of the monitor and the window [MonitorGUI] *)

(** ** start_monitoring and stop_monitoring *)

(** The monitor object with its thread handle, which the loop never
    touches: [monitor_thread] is [true] once a [Thread] was stored. *)
Record controlled := {
  self : monitor;
  monitor_thread : bool
}.

Inductive thread_event :=
| Thread_start
| Thread_join.

(** Lines 228-234. *)
Definition start_monitoring (c : controlled) : controlled * list thread_event :=
  if negb (is_running (self c)) then
    ({| self := set_is_paused false (set_is_running true (self c));
        monitor_thread := true |},
     [Thread_start])
  else (c, []).

(** Lines 236-240: a [Thread] object is true in a condition. *)
Definition stop_monitoring (c : controlled) : controlled * list thread_event :=
  ({| self := set_is_running false (self c); monitor_thread := monitor_thread c |},
   if monitor_thread c then [Thread_join] else []).

Definition set_config (c : Config.t) (s : monitor) : monitor :=
  {| config := c; is_running := is_running s; is_paused := is_paused s;
     trigger_count := trigger_count s; last_trigger_time := last_trigger_time s;
     detection_count := detection_count s;
     last_fps_check_time := last_fps_check_time s; fps := fps s |}.

(** ** Strings *)

Module Str.

(** [s.split(sep)] for a separator of one character: every occurrence
    splits, so that neighbouring separators give empty parts and the empty
    string gives one empty part. *)
Fixpoint split (sep : ascii) (s : string) : list string :=
  match s with
  | EmptyString => [EmptyString]
  | String c s' =>
      if Ascii.eqb c sep then EmptyString :: split sep s'
      else match split sep s' with
           | [] => [String c EmptyString]
           | part :: parts => String c part :: parts
           end
  end.

(** A [str] in a condition: true unless empty. *)
Definition truthy (s : string) : bool :=
  match s with EmptyString => false | _ => true end.

(** [format(n, '02x')]: the hexadecimal digits of [|n|] in lower case, a
    minus sign for a negative number, and zeros after the sign up to a
    width of two. *)
Definition format_02x (n : Z) : string :=
  let digits := NilZero.string_of_uint (N.to_hex_uint (Z.abs_N n)) in
  if n <? 0 then String "-" digits
  else if (String.length digits <? 2)%nat then String "0" digits
  else digits.

End Str.

(** ** The window *)

Module GUI.

Inductive button_state := Normal | Disabled.

(** The two texts of the pause button. *)
Inductive pause_text := Text_pause | Text_resume.

(** The methods handed to [root.after(0, ...)]. *)
Inductive callback :=
| Stop_monitoring
| Start_monitoring
| Pause_monitoring
| Start_screenshot.

Inductive log :=
| Monitoring_started
| Monitoring_resumed
| Monitoring_paused
| Monitoring_stopped (trigger_count : Z)
| Config_saved
| Hotkey_press_error (e : exn).

(** What a method of the window does besides changing the window. *)
Inductive event :=
| Thread (e : thread_event)
| Log_message (m : log)
| After (cb : callback)
| Showinfo
| Showerror.

(** The part of the window the methods below read and write.
    [config_dict] is the dictionary [self.monitor.config], which the
    monitor reads through the typed view [config]. *)
Record t := {
  monitor : controlled;
  config_dict : json;
  start_btn : button_state;
  pause_btn : button_state;
  pause_btn_text : pause_text;
  stop_btn : button_state;
  pressed_keys : gset string
}.

Definition set_monitor (c : controlled) (g : t) : t :=
  {| monitor := c; config_dict := config_dict g;
     start_btn := start_btn g; pause_btn := pause_btn g;
     pause_btn_text := pause_btn_text g; stop_btn := stop_btn g;
     pressed_keys := pressed_keys g |}.

Definition set_buttons (start pause : button_state) (text : pause_text)
    (stop : button_state) (g : t) : t :=
  {| monitor := monitor g; config_dict := config_dict g;
     start_btn := start; pause_btn := pause;
     pause_btn_text := text; stop_btn := stop;
     pressed_keys := pressed_keys g |}.

Definition set_pressed_keys (keys : gset string) (g : t) : t :=
  {| monitor := monitor g; config_dict := config_dict g;
     start_btn := start_btn g; pause_btn := pause_btn g;
     pause_btn_text := pause_btn_text g; stop_btn := stop_btn g;
     pressed_keys := keys |}.

Definition set_configuration (dict : json) (view : Config.t) (g : t) : t :=
  {| monitor := {| self := set_config view (self (monitor g));
                   monitor_thread := monitor_thread (monitor g) |};
     config_dict := dict;
     start_btn := start_btn g; pause_btn := pause_btn g;
     pause_btn_text := pause_btn_text g; stop_btn := stop_btn g;
     pressed_keys := pressed_keys g |}.

(** The window as [__init__] leaves it, around a monitor that was just
    created. *)
Definition init (dict : json) (view : Config.t) (now : f64) : t :=
  {| monitor := {| self := init view now; monitor_thread := false |};
     config_dict := dict;
     start_btn := Normal; pause_btn := Disabled;
     pause_btn_text := Text_pause; stop_btn := Disabled;
     pressed_keys := ∅ |}.

(** Lines 729-735. *)
Definition start_monitoring (g : t) : t * list event :=
  let '(c, threads) := start_monitoring (monitor g) in
  (set_buttons Disabled Normal (pause_btn_text g) Normal (set_monitor c g),
   map Thread threads ++ [Log_message Monitoring_started]).

(** Lines 737-746. *)
Definition pause_monitoring (g : t) : t * list event :=
  let c := monitor g in
  if is_paused (self c) then
    (set_buttons (start_btn g) (pause_btn g) Text_pause (stop_btn g)
       (set_monitor {| self := state_of (resume_monitoring (self c));
                       monitor_thread := monitor_thread c |} g),
     [Log_message Monitoring_resumed])
  else
    (set_buttons (start_btn g) (pause_btn g) Text_resume (stop_btn g)
       (set_monitor {| self := state_of (pause_monitoring (self c));
                       monitor_thread := monitor_thread c |} g),
     [Log_message Monitoring_paused]).

(** Lines 748-754. *)
Definition stop_monitoring (g : t) : t * list event :=
  let '(c, threads) := stop_monitoring (monitor g) in
  (set_buttons Normal Disabled Text_pause Disabled (set_monitor c g),
   map Thread threads ++ [Log_message (Monitoring_stopped (trigger_count (self c)))]).

(** A click on a button runs its command when the button is not disabled. *)
Inductive button := Start_btn | Pause_btn | Stop_btn.

Definition click (b : button) (g : t) : t * list event :=
  match b with
  | Start_btn => if start_btn g is Normal then start_monitoring g else (g, [])
  | Pause_btn => if pause_btn g is Normal then pause_monitoring g else (g, [])
  | Stop_btn => if stop_btn g is Normal then stop_monitoring g else (g, [])
  end.

(** *** Hot keys *)

(** What the listener of [pynput] hands to its callbacks: a member of the
    enumeration [Key], which has a [name], or a [KeyCode], which has a
    [char] that may be [None]. A key the listener does not know, handed
    over as [None], has neither and is treated as a [KeyCode] without
    [char]. *)
Inductive pynput_key :=
| Key (name : string)
| KeyCode (char : option string).

Definition key_map : list (string * string) :=
  [ ("alt_l", "alt"); ("alt_r", "alt");
    ("ctrl_l", "ctrl"); ("ctrl_r", "ctrl");
    ("shift_l", "shift"); ("shift_r", "shift") ]%string.

(** Lines 777-789. *)
Definition get_key_str (key : pynput_key) : option string :=
  match key with
  | Key name =>
      let name := lower name in
      Some (default name ((list_to_map key_map : gmap string string) !! name))
  | KeyCode (Some char) => if Str.truthy char then Some (lower char) else None
  | KeyCode None => None
  end.

(** [set(config.get(k, d).lower().split('+'))]: only a [str] has [lower]. *)
Definition hotkey (config : json) (k d : string) : outcome (gset string) :=
  v ← Py.get config k (JStr d);
  match v with
  | JStr s => Return (list_to_set (Str.split "+" (lower s)))
  | _ => Raise AttributeError
  end.

(** Lines 791-809: the callback scheduled, if any. The three sets are
    built before the first comparison. *)
Definition check_and_trigger_hotkeys (g : t) : outcome (option callback) :=
  start_stop ← hotkey (config_dict g) "hotkey_start_stop" "f9";
  pause_resume ← hotkey (config_dict g) "hotkey_pause_resume" "f10";
  screenshot ← hotkey (config_dict g) "hotkey_screenshot" "f8";
  let running := is_running (self (monitor g)) in
  if bool_decide (pressed_keys g = start_stop) then
    Return (Some (if running then Stop_monitoring else Start_monitoring))
  else if bool_decide (pressed_keys g = pause_resume) then
    Return (if running then Some Pause_monitoring else None)
  else if bool_decide (pressed_keys g = screenshot) then
    Return (Some Start_screenshot)
  else Return None.

(** Lines 811-818. *)
Definition on_press (key : pynput_key) (g : t) : t * list event :=
  match get_key_str key with
  | Some key_str =>
      if Str.truthy key_str && negb (bool_decide (key_str ∈ pressed_keys g)) then
        let g' := set_pressed_keys ({[ key_str ]} ∪ pressed_keys g) g in
        match check_and_trigger_hotkeys g' with
        | Return (Some cb) => (g', [After cb])
        | Return None => (g', [])
        | Raise e => (g', [Log_message (Hotkey_press_error e)])
        end
      else (g, [])
  | None => (g, [])
  end.

(** Lines 820-826. *)
Definition on_release (key : pynput_key) (g : t) : t * list event :=
  match get_key_str key with
  | Some key_str =>
      if bool_decide (key_str ∈ pressed_keys g)
      then (set_pressed_keys (pressed_keys g ∖ {[ key_str ]}) g, [])
      else (g, [])
  | None => (g, [])
  end.

(** The callback of [root.after], when the main loop runs it. *)
Definition run_callback (cb : callback) (g : t) : t * list event :=
  match cb with
  | Stop_monitoring => stop_monitoring g
  | Start_monitoring => start_monitoring g
  | Pause_monitoring => pause_monitoring g
  | Start_screenshot => (g, [])
  end.

(** *** The selection of the region with the mouse *)

(** Lines 600-620, [on_mouse_up]: the region written to the four entries
    for a drag from [(start_x, start_y)] to [(x, y)], if any. *)
Definition on_mouse_up (start_x start_y x y : Z) : option Config.region :=
  let x1 := Z.min start_x x in
  let y1 := Z.min start_y y in
  let x2 := Z.max start_x x in
  let y2 := Z.max start_y y in
  let width := x2 - x1 in
  let height := y2 - y1 in
  if (10 <? width) && (10 <? height) then
    Some {| Config.left := x1; Config.top := y1;
            Config.width := width; Config.height := height |}
  else None.

(** *** The entries of the window *)

(** What the widgets hold when a method reads them: the text of the
    entries, and the numbers of the two sliders. *)
Record form := {
  left_entry : string;
  top_entry : string;
  width_entry : string;
  height_entry : string;
  r_entry : string;
  g_entry : string;
  b_entry : string;
  tolerance_var : Z;
  threshold_var : f64;
  key_entry : string;
  cooldown_entry : string;
  interval_entry : string;
  delay_entry : string;
  start_stop_hotkey_entry : string;
  pause_resume_hotkey_entry : string;
  screenshot_hotkey_entry : string
}.

Section Entries.

(** Python's [int(s)] for a [str]; [None] stands for [ValueError]. *)
Variable int_ : string -> option Z.

(** [int(entry.get() or 0)]. *)
Definition int_or_0 (text : string) : option Z :=
  if Str.truthy text then int_ text else Some 0.

(** Lines 444-459, [update_color_preview]: the background of the preview
    afterwards, [bg] being the one before. *)
Definition update_color_preview (f : form) (bg : string) : string :=
  match int_or_0 (r_entry f), int_or_0 (g_entry f), int_or_0 (b_entry f) with
  | Some r, Some g, Some b =>
      let r := Z.max 0 (Z.min 255 r) in
      let g := Z.max 0 (Z.min 255 g) in
      let b := Z.max 0 (Z.min 255 b) in
      String "#" (Str.format_02x r ++ Str.format_02x g ++ Str.format_02x b)
  | _, _, _ => bg
  end.

(** Lines 502-523: the dictionary of the entries and its typed view, when
    every [int(...)] succeeds. *)
Definition read_form (f : form) : option (json * Config.t) :=
  left ← int_ (left_entry f);
  top ← int_ (top_entry f);
  width ← int_ (width_entry f);
  height ← int_ (height_entry f);
  r ← int_ (r_entry f);
  g ← int_ (g_entry f);
  b ← int_ (b_entry f);
  delay ← int_ (delay_entry f);
  cooldown ← int_ (cooldown_entry f);
  interval ← int_ (interval_entry f);
  Some
    (JObj
       (list_to_map
          [ ("monitor_region",
             JObj (list_to_map
                     [ ("left", JInt left); ("top", JInt top);
                       ("width", JInt width); ("height", JInt height) ]));
            ("target_color",
             JObj (list_to_map [ ("r", JInt r); ("g", JInt g); ("b", JInt b) ]));
            ("color_tolerance", JInt (tolerance_var f));
            ("threshold_percentage", JFloat (threshold_var f));
            ("press_key", JStr (key_entry f));
            ("press_delay_ms", JInt delay);
            ("cooldown_ms", JInt cooldown);
            ("check_interval_ms", JInt interval);
            ("hotkey_start_stop", JStr (lower (start_stop_hotkey_entry f)));
            ("hotkey_pause_resume", JStr (lower (pause_resume_hotkey_entry f)));
            ("hotkey_screenshot", JStr (lower (screenshot_hotkey_entry f))) ]%string),
     {| Config.monitor_region :=
          {| Config.left := left; Config.top := top;
             Config.width := width; Config.height := height |};
        Config.target_color := {| Config.r := r; Config.g := g; Config.b := b |};
        Config.color_tolerance := tolerance_var f;
        Config.threshold_percentage := threshold_var f;
        Config.press_key := key_entry f;
        Config.press_delay_ms := delay;
        Config.cooldown_ms := cooldown;
        Config.check_interval_ms := interval |}).

(** What the write of line 526 does: [open] and [json.dump] succeed and
    the file holds the dictionary; or one of them raises, and leaves the
    file in some state: as it was when [open] fails, truncated or partly
    written when [json.dump] fails on a string that does not encode. *)
Inductive write_result :=
| Written
| Write_fails (e : exn) (left_behind : disk_file).

(** Lines 499-532, [save_config] of the window: what it returns, the
    window and the file afterwards. Line 525 replaces the configuration of
    the monitor before line 526 writes the file. *)
Definition save_config (w : write_result) (f : form) (g : t) (d : disk_file)
  : bool * t * disk_file * list event :=
  match read_form f with
  | Some (dict, view) =>
      let g' := set_configuration dict view g in
      match w with
      | Written =>
          (true, g', save_config dict d, [Log_message Config_saved; Showinfo])
      | Write_fails e left_behind => (false, g', left_behind, [Showerror])
      end
  | None => (false, g, d, [Showerror])
  end.

End Entries.

End GUI.

(** * Further specification-side definitions *)

(** ** Configurations the merge leaves alone *)

(** A loaded record is complete when it holds every default key, and a
    record with every nested key under the two groups. *)
Definition has_default (m : gmap string json) (item : string * default_value) : Prop :=
  match snd item with
  | Scalar _ => is_Some (m !! fst item)
  | Group items =>
      exists inner,
        m !! fst item = Some (JObj inner)
        /\ Forall (fun kv => is_Some (inner !! fst kv)) items
  end.

Definition complete (m : gmap string json) : Prop :=
  Forall (has_default m) default_items.

(** What the test of line 79 asks of the value under a group. *)
Definition holds_all (v : json) (items : list (string * json)) : Prop :=
  Forall (fun kv => Py.contains v (fst kv) = Return true) items.

Definition settled_value (d : default_value) (v : json) : Prop :=
  match d with
  | Scalar _ => True
  | Group items => holds_all v items
  end.

Definition settled_at (m : gmap string json) (item : string * default_value) : Prop :=
  exists v, m !! fst item = Some v /\ settled_value (snd item) v.

(** The exceptions that leave the merge loop. *)
Definition merge_error (e : exn) : Prop := e = TypeError \/ e = AttributeError.

(** ** What a run of the loop keeps *)

(** The fields of the monitor the loop reads and never writes. *)
Definition same_controls (s s' : monitor) : Prop :=
  config s' = config s /\ is_running s' = is_running s /\ is_paused s' = is_paused s.

#[global] Instance key_eq_dec : EqDecision key.
Proof. solve_decision. Defined.

(** The discipline of the key events of a trace, for the key [k]. Key
    events come in one of three shapes only: the press of [k], its release
    and the message of the trigger, which names [k]; the press of [k] and
    the message of the error it raised; the press of [k], its release and
    the message of the error the release raised. So no other key is
    pressed, nothing comes between a press and its release, no release
    comes without its press, and the trace does not end inside a shape.
    With [may_raise] false the two shapes of an error are excluded as
    well. *)
Inductive key_state := Idle | Pressed | Released.

Fixpoint key_discipline (may_raise : bool) (k : key) (st : key_state) (t : list event)
  : bool :=
  match t with
  | [] => match st with Idle => true | _ => false end
  | e :: t' =>
      match st, e with
      | Idle, Press k' => bool_decide (k' = k) && key_discipline may_raise k Pressed t'
      | Idle, Release _ => false
      | Idle, Print (Triggered _ _) => false
      | Idle, Print (Key_error _) => false
      | Idle, _ => key_discipline may_raise k Idle t'
      | Pressed, Release k' => bool_decide (k' = k) && key_discipline may_raise k Released t'
      | Pressed, Print (Key_error _) => may_raise && key_discipline may_raise k Idle t'
      | Pressed, _ => false
      | Released, Print (Triggered key_str _) =>
          bool_decide (key_of key_str = k) && key_discipline may_raise k Idle t'
      | Released, Print (Key_error _) => may_raise && key_discipline may_raise k Idle t'
      | Released, _ => false
      end
  end.

(** A keyboard controller none of whose calls raises. *)
Definition never_raises (kb : keyboard) : Prop :=
  forall k, press_raises kb k = false /\ release_raises kb k = false.

(** The events by which a pass acts on the keyboard, now or later. *)
Definition is_key_action (e : event) : bool :=
  match e with
  | Press _ | Release _ | Timer_start _ | Call_press_key => true
  | _ => false
  end.

(** A pass whose frame, if it grabs one, is below the threshold. *)
Definition below_threshold (c : Config.t) (io : pass_io) : Prop :=
  match grabbed io with
  | Return img =>
      F64.leb (Config.threshold_percentage c) (fst (check_color_match c img)) = false
  | Raise _ => True
  end.

(** What a run of at most [n] passes does to the monitor [s] and to the
    outside: the controls stay, the counter grows by at most [n], the key
    events keep the discipline for the configured key, and nothing but an
    [OverflowError] is raised. *)
Definition disciplined (may_raise : bool) (n : Z) (s : monitor)
    (res : outcome unit * monitor * list event) : Prop :=
  same_controls s (state_of res)
  /\ trigger_count s <= trigger_count (state_of res) <= trigger_count s + n
  /\ key_discipline may_raise (key_of (lower (Config.press_key (config s)))) Idle
       (trace_of res) = true
  /\ (result_of res = Return tt \/ result_of res = Raise OverflowError).

(** A run that did not act on the keyboard and left the debounce state. *)
Definition quiet (s : monitor) (res : outcome unit * monitor * list event) : Prop :=
  trigger_count (state_of res) = trigger_count s
  /\ last_trigger_time (state_of res) = last_trigger_time s
  /\ Forall (fun e => is_key_action e = false) (trace_of res).

(** ** Examples for the properties of the debounce *)

(** The configuration with another cooldown. *)
Definition with_cooldown (cooldown : Z) (c : Config.t) : Config.t :=
  {| Config.monitor_region := Config.monitor_region c;
     Config.target_color := Config.target_color c;
     Config.color_tolerance := Config.color_tolerance c;
     Config.threshold_percentage := Config.threshold_percentage c;
     Config.press_key := Config.press_key c;
     Config.press_delay_ms := Config.press_delay_ms c;
     Config.cooldown_ms := cooldown;
     Config.check_interval_ms := Config.check_interval_ms c |}.

(** The configuration with another threshold. *)
Definition with_threshold (threshold : f64) (c : Config.t) : Config.t :=
  {| Config.monitor_region := Config.monitor_region c;
     Config.target_color := Config.target_color c;
     Config.color_tolerance := Config.color_tolerance c;
     Config.threshold_percentage := threshold;
     Config.press_key := Config.press_key c;
     Config.press_delay_ms := Config.press_delay_ms c;
     Config.cooldown_ms := Config.cooldown_ms c;
     Config.check_interval_ms := Config.check_interval_ms c |}.

(** Timestamps that are finite binary64 numbers of at least one, none
    before the one before it, the first not before [last]. *)
Fixpoint non_decreasing (last : f64) (ts : list f64) : Prop :=
  match ts with
  | [] => True
  | t :: ts' =>
      valid t = true /\ is_finite t = true /\ F64.leb one t = true
      /\ F64.leb last t = true /\ non_decreasing t ts'
  end.

(** ** The window *)

(** The buttons and the text of the pause button tell the state of the
    monitor. *)
Definition consistent (g : GUI.t) : Prop :=
  let m := self (GUI.monitor g) in
  if is_running m then
    GUI.start_btn g = GUI.Disabled /\ GUI.pause_btn g = GUI.Normal
    /\ GUI.stop_btn g = GUI.Normal
    /\ GUI.pause_btn_text g = (if is_paused m then GUI.Text_resume else GUI.Text_pause)
    /\ monitor_thread (GUI.monitor g) = true
  else
    GUI.start_btn g = GUI.Normal /\ GUI.pause_btn g = GUI.Disabled
    /\ GUI.stop_btn g = GUI.Disabled
    /\ GUI.pause_btn_text g = GUI.Text_pause.

(** What the user does to the window. *)
Inductive input :=
| Click (b : GUI.button)
| Key_down (key : GUI.pynput_key)
| Key_up (key : GUI.pynput_key).

(** The window reacts to an input; the callback a hot key schedules with
    [after(0, ...)] runs before the next input. *)
Definition react (i : input) (g : GUI.t) : GUI.t * list GUI.event :=
  match i with
  | Click b => GUI.click b g
  | Key_down key =>
      let '(g', events) := GUI.on_press key g in
      match events with
      | [GUI.After cb] =>
          let '(g'', events') := GUI.run_callback cb g' in (g'', events ++ events')
      | _ => (g', events)
      end
  | Key_up key => GUI.on_release key g
  end.

Fixpoint session (inputs : list input) (g : GUI.t) : GUI.t * list GUI.event :=
  match inputs with
  | [] => (g, [])
  | i :: inputs' =>
      let '(g', events) := react i g in
      let '(g'', events') := session inputs' g' in
      (g'', events ++ events')
  end.

(** The hot key a callback belongs to: its key in the configuration and
    the default. *)
Definition hotkey_of (cb : GUI.callback) : string * string :=
  match cb with
  | GUI.Stop_monitoring | GUI.Start_monitoring => ("hotkey_start_stop", "f9")
  | GUI.Pause_monitoring => ("hotkey_pause_resume", "f10")
  | GUI.Start_screenshot => ("hotkey_screenshot", "f8")
  end%string.

(** The value of two hexadecimal digits. *)
Definition hex_value (s : string) : option Z :=
  match NilZero.uint_of_string s with
  | Some d => Some (Z.of_N (N.of_hex_uint d))
  | None => None
  end.

(** * Running methods *)

Lemma run_bind {A B : Type} (m : M A) (f : A -> M B) (s : monitor) :
  (m ≫= f) s =
  match m s with
  | (Return a, s', t) => let '(r, s'', t') := f a s' in (r, s'', t ++ t')
  | (Raise e, s', t) => (Raise e, s', t)
  end.
Proof. reflexivity. Qed.

Lemma run_ret {A : Type} (a : A) (s : monitor) : (mret a : M A) s = (Return a, s, []).
Proof. reflexivity. Qed.

Lemma run_get {B : Type} (f : monitor -> M B) (s : monitor) : (get ≫= f) s = f s s.
Proof. rewrite run_bind. cbn. destruct (f s s) as [[r s'] t]. reflexivity. Qed.

Lemma run_modify {B : Type} (g : monitor -> monitor) (f : unit -> M B) (s : monitor) :
  (modify g ≫= f) s = f tt (g s).
Proof. rewrite run_bind. cbn. destruct (f tt (g s)) as [[r s'] t]. reflexivity. Qed.

Lemma run_emit {B : Type} (e : event) (f : unit -> M B) (s : monitor) :
  (emit e ≫= f) s = let '(r, s', t) := f tt s in (r, s', e :: t).
Proof. rewrite run_bind. reflexivity. Qed.

Lemma run_lift {A B : Type} (o : outcome A) (f : A -> M B) (s : monitor) :
  (lift o ≫= f) s =
  match o with Return a => f a s | Raise e => (Raise e, s, []) end.
Proof.
  rewrite run_bind. unfold lift. destruct o as [a | e]; [|reflexivity].
  destruct (f a s) as [[r s'] t]. reflexivity.
Qed.

Ltac run :=
  repeat first
    [ rewrite run_get | rewrite run_modify | rewrite run_emit
    | rewrite run_lift | rewrite run_ret ].

(** * The key action and the debounce *)

Lemma sub_zero_r (x : f64) : F64.sub x zero = x.
Proof. destruct x as [[] | [] | | ]; reflexivity. Qed.

Lemma execute_press_cases (kb : keyboard) (s : monitor) :
  let key_str := lower (Config.press_key (config s)) in
  let k := key_of key_str in
  _execute_press kb s =
    if press_raises kb k then
      (Return tt, s, [Press k; Print (Key_error InvalidKeyException)])
    else if release_raises kb k then
      (Return tt, s, [Press k; Release k; Print (Key_error InvalidKeyException)])
    else
      (Return tt, set_trigger_count (trigger_count s + 1) s,
       [Press k; Release k; Print (Triggered key_str (trigger_count s + 1))]).
Proof.
  intros key_str k. unfold _execute_press. run. unfold try_except, press, release. run.
  fold key_str k. destruct (press_raises kb k); run; [reflexivity|].
  destruct (release_raises kb k); run; reflexivity.
Qed.

Lemma execute_press_frame (kb : keyboard) (s : monitor) :
  let s' := state_of (_execute_press kb s) in
  config s' = config s /\ last_trigger_time s' = last_trigger_time s /\
  is_paused s' = is_paused s /\ is_running s' = is_running s.
Proof.
  cbv zeta. rewrite execute_press_cases.
  destruct (press_raises _ _); [cbn; auto|].
  destruct (release_raises _ _); cbn; auto.
Qed.

Lemma execute_press_not_dropped (kb : keyboard) (s : monitor) :
  is_dropped (_execute_press kb s) = false.
Proof.
  rewrite execute_press_cases.
  destruct (press_raises _ _); [reflexivity|].
  destruct (release_raises _ _); reflexivity.
Qed.

Lemma press_key_dropped (kb : keyboard) (now : f64) (s : monitor) :
  ltb_int (F64.sub (ms now) (last_trigger_time s)) (Config.cooldown_ms (config s)) = true ->
  press_key kb now s = (Return tt, s, []).
Proof.
  intros H. unfold press_key. run. unfold ms in H. rewrite H. reflexivity.
Qed.

Lemma press_key_accepted (kb : keyboard) (now : f64) (s : monitor) :
  ltb_int (F64.sub (ms now) (last_trigger_time s)) (Config.cooldown_ms (config s)) = false ->
  press_key kb now s =
    if 0 <? Config.press_delay_ms (config s) then
      match truediv_int (Config.press_delay_ms (config s)) thousand with
      | Return delay_s => (Return tt, set_last_trigger_time (ms now) s, [Timer_start delay_s])
      | Raise e => (Raise e, set_last_trigger_time (ms now) s, [])
      end
    else _execute_press kb (set_last_trigger_time (ms now) s).
Proof.
  intros H. unfold press_key. run. unfold ms in *. rewrite H. run.
  destruct (0 <? _); [|reflexivity]. run.
  destruct (truediv_int _ _); reflexivity.
Qed.

(** After an invocation: the configuration is the same, and the time of the
    last trigger is the timestamp when accepted, the old one when dropped. *)
Lemma press_key_state (kb : keyboard) (now : f64) (s : monitor) :
  let r := press_key kb now s in
  config (state_of r) = config s /\
  is_dropped r = ltb_int (F64.sub (ms now) (last_trigger_time s)) (Config.cooldown_ms (config s)) /\
  last_trigger_time (state_of r) =
    if is_dropped r then last_trigger_time s else ms now.
Proof.
  cbv zeta.
  destruct (ltb_int (F64.sub (ms now) (last_trigger_time s)) (Config.cooldown_ms (config s))) eqn:E.
  - rewrite (press_key_dropped _ _ _ E). cbn. auto.
  - rewrite (press_key_accepted _ _ _ E).
    destruct (0 <? _).
    + destruct (truediv_int _ _); cbn; auto.
    + rewrite execute_press_not_dropped.
      pose proof (execute_press_frame kb (set_last_trigger_time (ms now) s)) as F.
      cbv zeta in F. destruct F as (F1 & F2 & _). rewrite F1, F2. cbn. auto.
Qed.

Lemma press_key_run_spec (kb : keyboard) (nows : list f64) :
  forall s : monitor,
    press_key_run kb nows s =
    debounce_spec (Config.cooldown_ms (config s)) (Some (last_trigger_time s)) (map ms nows).
Proof.
  induction nows as [|now nows IH]; intros s; [reflexivity|].
  cbn [press_key_run map debounce_spec].
  pose proof (press_key_state kb now s) as P. cbv zeta in P.
  destruct P as (Pc & Pd & Pt).
  rewrite IH, Pc, Pt, Pd.
  destruct (ltb_int _ _); reflexivity.
Qed.

(** * load_config: the merge of the defaults *)

Lemma union_insert_present (inner d : gmap string json) (k : string) (v w : json) :
  inner !! k = Some w -> inner ∪ <[k := v]> d = inner ∪ d.
Proof.
  intros H. apply map_eq. intros i. rewrite !lookup_union.
  destruct (decide (i = k)) as [->|Hne].
  - rewrite H, lookup_insert_eq. destruct (d !! k); reflexivity.
  - rewrite lookup_insert_ne by congruence. reflexivity.
Qed.

Lemma union_insert_absent (inner d : gmap string json) (k : string) (v : json) :
  inner !! k = None -> <[k := v]> inner ∪ d = inner ∪ <[k := v]> d.
Proof.
  intros H. rewrite <- insert_union_l. apply insert_union_r, H.
Qed.

Lemma outcome_bind_return {A B : Type} (a : A) (f : A -> outcome B) :
  (Return a ≫= f) = f a.
Proof. reflexivity. Qed.

Lemma backfill_sub_step (key : string) (m inner : gmap string json)
    (sk : string) (sv : json) :
  m !! key = Some (JObj inner) ->
  backfill_sub key (JObj m) (sk, sv) =
  Return (JObj (match inner !! sk with
                | Some _ => m
                | None => <[key := JObj (<[sk := sv]> inner)]> m
                end)).
Proof.
  intros Hm. unfold backfill_sub, Py.get, Py.contains, Py.getitem, Py.setitem.
  rewrite Hm. cbn.
  destruct (inner !! sk) as [w|] eqn:Hsk.
  - rewrite bool_decide_eq_true_2 by eauto. reflexivity.
  - rewrite bool_decide_eq_false_2 by (intros [? ?]; congruence). reflexivity.
Qed.

Lemma backfill_sub_loop (key : string) (items : list (string * json)) :
  forall (m inner : gmap string json),
    m !! key = Some (JObj inner) ->
    for_each (backfill_sub key) items (JObj m) =
    Return (JObj (<[key := JObj (inner ∪ list_to_map items)]> m)).
Proof.
  induction items as [|[sk sv] items IH]; intros m inner Hm.
  - cbn. rewrite (right_id_L ∅ (∪)), insert_id by exact Hm. reflexivity.
  - cbn [for_each list_to_map foldr]. rewrite (backfill_sub_step _ _ _ _ _ Hm).
    rewrite outcome_bind_return. cbn [fst snd].
    destruct (inner !! sk) as [w|] eqn:Hsk.
    + rewrite (IH m inner Hm), (union_insert_present _ _ _ _ _ Hsk). reflexivity.
    + rewrite (IH _ (<[sk := sv]> inner)) by apply lookup_insert_eq.
      rewrite insert_insert_eq, (union_insert_absent _ _ _ _ Hsk). reflexivity.
Qed.

Lemma backfill_step (m : gmap string json) (item : string * default_value) :
  group_is_record m item ->
  backfill (JObj m) item =
  Return (JObj (<[fst item := backfilled (m !! fst item) (snd item)]> m)).
Proof.
  destruct item as [k d]. unfold group_is_record, backfill, Py.contains. cbn [fst snd].
  rewrite outcome_bind_return.
  destruct (m !! k) as [v|] eqn:Hk.
  - rewrite bool_decide_eq_true_2 by eauto. cbn [negb].
    destruct d as [w | items].
    + intros _. rewrite insert_id; [reflexivity|].
      rewrite Hk. destruct v; reflexivity.
    + destruct v; try contradiction. intros _.
      apply backfill_sub_loop, Hk.
  - rewrite bool_decide_eq_false_2 by (intros [? ?]; congruence). reflexivity.
Qed.

Lemma merge_loop (items : list (string * default_value)) :
  forall m : gmap string json,
    NoDup (map fst items) ->
    Forall (group_is_record m) items ->
    for_each backfill items (JObj m) = Return (JObj (merged m items)).
Proof.
  induction items as [|[k d] items IH]; intros m Hnd Hok; [reflexivity|].
  cbn [for_each merged foldl]. inversion Hnd as [|? ? Hnotin Hnd']; subst.
  inversion Hok as [|? ? Hhd Htl]; subst.
  rewrite (backfill_step _ _ Hhd), outcome_bind_return.
  apply IH; [exact Hnd'|].
  rewrite Forall_forall in Htl |- *. intros [k' d'] Hin.
  specialize (Htl _ Hin). unfold group_is_record in *. cbn in *.
  assert (k <> k').
  { intros ->. apply Hnotin. apply list_elem_of_In. apply in_map_iff.
    exists (k', d'). split; [reflexivity|]. apply list_elem_of_In, Hin. }
  rewrite lookup_insert_ne by assumption. exact Htl.
Qed.

Lemma lookup_merged (items : list (string * default_value)) :
  forall (m : gmap string json) (k : string),
    NoDup (map fst items) ->
    merged m items !! k =
    match (list_to_map items : gmap string default_value) !! k with
    | Some d => Some (backfilled (m !! k) d)
    | None => m !! k
    end.
Proof.
  induction items as [|[k0 d0] items IH]; intros m k Hnd; [reflexivity|].
  inversion Hnd as [|? ? Hnotin Hnd']; subst.
  cbn [merged foldl list_to_map foldr]. cbn [fst snd].
  change (foldl _ ?a items) with (merged a items).
  rewrite (IH _ _ Hnd').
  assert (Hk0 : (list_to_map items : gmap string default_value) !! k0 = None).
  { apply not_elem_of_list_to_map_1. exact Hnotin. }
  destruct (decide (k = k0)) as [->|Hne].
  - rewrite Hk0, !lookup_insert_eq. reflexivity.
  - rewrite !lookup_insert_ne by congruence. reflexivity.
Qed.

(** * Powers of two *)

Lemma pow2_pos (e : Z) : (0 < pow2 e)%Q.
Proof. apply Qpower_0_lt. reflexivity. Qed.

Lemma pow2_add (a b : Z) : (pow2 (a + b) == pow2 a * pow2 b)%Q.
Proof. apply Qpower_plus. discriminate. Qed.

Lemma pow2_0 : (pow2 0 == 1)%Q.
Proof. reflexivity. Qed.

Lemma pow2_succ (e : Z) : (pow2 (e + 1) == 2 * pow2 e)%Q.
Proof. rewrite pow2_add. change (pow2 1) with 2%Q. ring. Qed.

Lemma pow2_pred (e : Z) : (pow2 (e - 1) == pow2 e * (1 # 2))%Q.
Proof.
  replace e with ((e - 1) + 1) at 2 by ring. rewrite pow2_succ. field.
Qed.

Lemma pow2_lt (a b : Z) : a < b -> (pow2 a < pow2 b)%Q.
Proof. intros H. apply Qpower_lt_compat_l; [exact H | reflexivity]. Qed.

Lemma pow2_le (a b : Z) : a <= b -> (pow2 a <= pow2 b)%Q.
Proof. intros H. apply Qpower_le_compat_l; [exact H | discriminate]. Qed.

Lemma pow2_lt_inv (a b : Z) : (pow2 a < pow2 b)%Q -> a < b.
Proof.
  intros H. destruct (Z_lt_le_dec a b) as [L | L]; [exact L|].
  apply pow2_le in L. lra.
Qed.

Lemma pow2_inject (n : Z) : 0 <= n -> (pow2 n == inject_Z (2 ^ n))%Q.
Proof. intros H. unfold pow2. rewrite Zpower_Qpower by exact H. reflexivity. Qed.

Lemma pow2_opp (e : Z) : (pow2 e * pow2 (- e) == 1)%Q.
Proof. rewrite <- pow2_add. replace (e + - e) with 0 by ring. reflexivity. Qed.

Lemma scale_shift (x : Q) (e k : Z) : (scale x (e + k) == scale x e * pow2 (- k))%Q.
Proof.
  unfold scale. replace (- (e + k)) with (- e + - k) by ring.
  rewrite pow2_add. ring.
Qed.

Lemma scale_val (y : Q) (e : Z) : (scale (y * pow2 e) e == y)%Q.
Proof. unfold scale. rewrite <- Qmult_assoc, pow2_opp. ring. Qed.

Lemma scale_le (x x' : Q) (e : Z) : (x <= x')%Q -> (scale x e <= scale x' e)%Q.
Proof.
  intros H. unfold scale. pose proof (pow2_pos (- e)) as P.
  apply Qmult_le_compat_r; lra.
Qed.

Lemma scale_lt (x x' : Q) (e : Z) : (x < x')%Q -> (scale x e < scale x' e)%Q.
Proof.
  intros H. unfold scale. pose proof (pow2_pos (- e)) as P.
  apply Qmult_lt_compat_r; lra.
Qed.

#[global] Instance scale_proper : Proper (Qeq ==> eq ==> Qeq) scale.
Proof. intros x x' Hx e e' <-. unfold scale. rewrite Hx. reflexivity. Qed.

Lemma scale_mag (x : Q) (g e : Z) :
  mag_is x g -> (pow2 (g - 1 - e) <= scale x e)%Q /\ (scale x e < pow2 (g - e))%Q.
Proof.
  intros [L U]. split.
  - replace (g - 1 - e) with ((g - 1) + - e) by ring. rewrite pow2_add.
    apply (scale_le _ _ e) in L. exact L.
  - replace (g - e) with (g + - e) by ring. rewrite pow2_add.
    apply (scale_lt _ _ e) in U. exact U.
Qed.

Lemma mag_is_le (x x' : Q) (g g' : Z) :
  mag_is x g -> mag_is x' g' -> (x <= x')%Q -> g <= g'.
Proof.
  intros [L U] [L' U'] H.
  assert (P : (pow2 (g - 1) < pow2 g')%Q) by lra.
  apply pow2_lt_inv in P. lia.
Qed.

(** * Binary digits *)

Lemma digits2_pos_bounds (p : positive) :
  2 ^ (Z.pos (digits2_pos p) - 1) <= Z.pos p < 2 ^ Z.pos (digits2_pos p).
Proof.
  induction p as [p IH | p IH |]; cbn [digits2_pos].
  - rewrite Pos2Z.inj_succ.
    replace (Z.succ (Z.pos (digits2_pos p)) - 1) with (Z.succ (Z.pos (digits2_pos p) - 1)) by lia.
    rewrite !Z.pow_succ_r by lia. lia.
  - rewrite Pos2Z.inj_succ.
    replace (Z.succ (Z.pos (digits2_pos p)) - 1) with (Z.succ (Z.pos (digits2_pos p) - 1)) by lia.
    rewrite !Z.pow_succ_r by lia. lia.
  - cbn. lia.
Qed.

Lemma Zdigits2_bounds (m : Z) :
  0 < m -> 2 ^ (Zdigits2 m - 1) <= m < 2 ^ Zdigits2 m.
Proof.
  destruct m as [|p|p]; try lia. intros _. apply digits2_pos_bounds.
Qed.

Lemma Zdigits2_pos (m : Z) : 0 < m -> 0 < Zdigits2 m.
Proof. destruct m; cbn; lia. Qed.

Lemma Zdigits2_unique (m d : Z) :
  0 < m -> 2 ^ (d - 1) <= m < 2 ^ d -> Zdigits2 m = d.
Proof.
  intros Hm [L U]. pose proof (Zdigits2_bounds m Hm) as [L' U'].
  pose proof (Zdigits2_pos m Hm) as P.
  assert (0 < d).
  { destruct (Z_lt_le_dec 0 d); [assumption|].
    exfalso. destruct (Z.eq_dec d 0) as [-> | Hd]; [cbn in U; lia|].
    rewrite Z.pow_neg_r in U by lia. lia. }
  destruct (Z.lt_trichotomy (Zdigits2 m) d) as [C | [C | C]]; [|exact C|].
  - assert (2 ^ Zdigits2 m <= 2 ^ (d - 1)) by (apply Z.pow_le_mono_r; lia). lia.
  - assert (2 ^ d <= 2 ^ (Zdigits2 m - 1)) by (apply Z.pow_le_mono_r; lia). lia.
Qed.

(** * The shift register *)

Lemma shr_1_spec (mrs : shr_record) :
  0 <= shr_m mrs ->
  shr_1 mrs =
  {| shr_m := Z.div2 (shr_m mrs); shr_r := Z.odd (shr_m mrs);
     shr_s := shr_r mrs || shr_s mrs |}.
Proof.
  destruct mrs as [m r s]. cbn [shr_m shr_r shr_s]. intros Hm.
  destruct m as [|[p|p|]|p]; try reflexivity; lia.
Qed.

Lemma iter_pos_nat {A : Type} (f : A -> A) (p : positive) :
  forall x : A, SpecFloat.iter_pos f p x = Nat.iter (Pos.to_nat p) f x.
Proof.
  induction p as [p IH | p IH |]; intros x; cbn [SpecFloat.iter_pos].
  - rewrite !IH, Pos2Nat.inj_xI.
    replace (S (2 * Pos.to_nat p)) with (Pos.to_nat p + S (Pos.to_nat p))%nat by lia.
    rewrite Nat.iter_add, Nat.iter_succ_r. reflexivity.
  - rewrite !IH, Pos2Nat.inj_xO.
    replace (2 * Pos.to_nat p)%nat with (Pos.to_nat p + Pos.to_nat p)%nat by lia.
    rewrite Nat.iter_add. reflexivity.
  - reflexivity.
Qed.

#[global] Instance inbetween_proper : Proper (Qeq ==> eq ==> eq ==> iff) inbetween.
Proof.
  intros y y' Hy m m' <- l l' <-. unfold inbetween.
  destruct l as [|c]; rewrite Hy; reflexivity.
Qed.

Lemma inbetween_floor (y : Q) (m : Z) (l : location) :
  inbetween y m l -> (inject_Z m <= y)%Q /\ (y < inject_Z m + 1)%Q.
Proof.
  destruct l as [|c]; cbn; [intros H | intros (H1 & H2 & _)]; lra.
Qed.

Lemma inject_Z_half (m : Z) :
  (inject_Z m == 2 * inject_Z (Z.div2 m) + (if Z.odd m then 1 else 0))%Q.
Proof.
  rewrite (Z.div2_odd m) at 1.
  rewrite inject_Z_plus, inject_Z_mult. destruct (Z.odd m); cbn [Z.b2z]; reflexivity.
Qed.

Lemma inbetween_shr_1 (y : Q) (mrs : shr_record) :
  0 <= shr_m mrs ->
  inbetween y (shr_m mrs) (loc_of_shr_record mrs) ->
  inbetween (y * (1 # 2)) (shr_m (shr_1 mrs)) (loc_of_shr_record (shr_1 mrs)).
Proof.
  intros Hm. rewrite (shr_1_spec mrs Hm).
  destruct mrs as [m r s]. cbn [shr_m shr_r shr_s] in *.
  pose proof (inject_Z_half m) as Hh.
  destruct (Z.odd m), r, s; cbn [loc_of_shr_record inbetween orb];
    revert Hh; generalize (inject_Z (Z.div2 m)) as q; generalize (inject_Z m) as z;
    intros z q Hh H;
    try (destruct H as (H1 & H2 & H3));
    try (apply Qlt_alt in H3); try (apply Qgt_alt in H3); try (apply Qeq_alt in H3);
    repeat split; try lra;
    try (apply (proj1 (Qlt_alt _ _)); lra); try (apply (proj1 (Qgt_alt _ _)); lra);
    try (apply (proj1 (Qeq_alt _ _)); lra).
Qed.

Lemma located_shr_1 (x : Q) (mrs : shr_record) (e : Z) :
  located x mrs e -> located x (shr_1 mrs) (e + 1).
Proof.
  intros [Hm Hin]. split.
  - rewrite (shr_1_spec mrs Hm). cbn [shr_m]. rewrite Z.div2_div.
    apply Z.div_pos; lia.
  - rewrite scale_shift. change (pow2 (- (1))) with (1 # 2)%Q.
    apply inbetween_shr_1; assumption.
Qed.

Lemma located_iter (x : Q) (n : nat) :
  forall (mrs : shr_record) (e : Z),
    located x mrs e -> located x (Nat.iter n shr_1 mrs) (e + Z.of_nat n).
Proof.
  induction n as [|n IH]; intros mrs e H.
  - change (Z.of_nat 0) with 0. rewrite Z.add_0_r. exact H.
  - rewrite Nat.iter_succ. replace (e + Z.of_nat (S n)) with (e + Z.of_nat n + 1) by lia.
    apply located_shr_1, IH, H.
Qed.

Lemma located_shr (x : Q) (mrs : shr_record) (e n : Z) :
  0 <= n -> located x mrs e ->
  located x (fst (shr mrs e n)) (e + n) /\ snd (shr mrs e n) = e + n.
Proof.
  intros Hn H. destruct n as [|p|p]; try lia; cbn [shr fst snd].
  - rewrite Z.add_0_r. auto.
  - split; [|reflexivity]. rewrite iter_pos_nat.
    rewrite <- (positive_nat_Z p). apply located_iter, H.
Qed.

(** The mantissa of a register that holds [x] at exponent [e] has as many
    digits as the magnitude of [x] says. *)
Lemma located_digits (x : Q) (mrs : shr_record) (e g : Z) :
  located x mrs e -> mag_is x g -> 1 <= g - e ->
  2 ^ (g - e - 1) <= shr_m mrs < 2 ^ (g - e).
Proof.
  intros [Hm Hin] Hg Hk. apply inbetween_floor in Hin. destruct Hin as [L U].
  destruct (scale_mag x g e Hg) as [L' U'].
  replace (g - 1 - e) with (g - e - 1) in L' by ring.
  rewrite pow2_inject in L', U' by lia.
  split.
  - assert (H : (inject_Z (2 ^ (g - e - 1)) < inject_Z (shr_m mrs + 1))%Q).
    { rewrite inject_Z_plus. change (inject_Z 1) with 1%Q. lra. }
    rewrite <- Zlt_Qlt in H. lia.
  - assert (H : (inject_Z (shr_m mrs) < inject_Z (2 ^ (g - e)))%Q) by lra.
    rewrite <- Zlt_Qlt in H. exact H.
Qed.

(** Conversely, a register with a [d]-digit mantissa at exponent [e] holds
    a number of magnitude [d + e]. *)
Lemma located_mag (x : Q) (mrs : shr_record) (e : Z) :
  located x mrs e -> 0 < shr_m mrs -> mag_is x (Zdigits2 (shr_m mrs) + e).
Proof.
  intros [_ Hin] Hm. apply inbetween_floor in Hin. destruct Hin as [L U].
  pose proof (Zdigits2_bounds _ Hm) as [Ld Ud].
  pose proof (Zdigits2_pos _ Hm) as Pd.
  set (d := Zdigits2 (shr_m mrs)) in *.
  assert (L1 : (inject_Z (2 ^ (d - 1)) <= scale x e)%Q).
  { rewrite Zle_Qle in Ld. lra. }
  assert (U1 : (scale x e < inject_Z (2 ^ d))%Q).
  { assert (H : shr_m mrs + 1 <= 2 ^ d) by lia.
    rewrite Zle_Qle, inject_Z_plus in H. change (inject_Z 1) with 1%Q in H. lra. }
  rewrite <- pow2_inject in L1, U1 by lia.
  pose proof (pow2_pos e) as Pe.
  assert (X : (x == scale x e * pow2 e)%Q).
  { unfold scale. rewrite <- Qmult_assoc, (Qmult_comm (pow2 (- e))), pow2_opp. ring. }
  split.
  - replace (d + e - 1) with ((d - 1) + e) by ring. rewrite pow2_add, X.
    apply Qmult_le_compat_r; lra.
  - rewrite pow2_add, X. apply Qmult_lt_compat_r; lra.
Qed.

(** * Rounding to nearest even *)

Lemma fexp_normal (g : Z) :
  SpecFloat.emin prec emax <= g - prec -> fexp prec emax g = g - prec.
Proof. unfold fexp. lia. Qed.

Lemma shr_record_of_loc_m (m : Z) (l : location) : shr_m (shr_record_of_loc m l) = m.
Proof. destruct l as [|[]]; reflexivity. Qed.

Lemma loc_of_shr_record_of_loc (m : Z) (l : location) :
  loc_of_shr_record (shr_record_of_loc m l) = l.
Proof. destruct l as [|[]]; reflexivity. Qed.

Lemma located_of_loc (x : Q) (m e : Z) (l : location) :
  0 <= m -> inbetween (scale x e) m l -> located x (shr_record_of_loc m l) e.
Proof.
  intros Hm H. split; rewrite shr_record_of_loc_m; [exact Hm|].
  rewrite loc_of_shr_record_of_loc. exact H.
Qed.

Lemma shr_fexp_located (x : Q) (m e : Z) (l : location) :
  0 < m -> inbetween (scale x e) m l ->
  prec <= Zdigits2 m ->
  SpecFloat.emin prec emax <= Zdigits2 m + e - prec ->
  located x (fst (shr_fexp prec emax m e l)) (Zdigits2 m + e - prec)
  /\ snd (shr_fexp prec emax m e l) = Zdigits2 m + e - prec.
Proof.
  intros Hm Hin Hd Hr. unfold shr_fexp. rewrite fexp_normal by exact Hr.
  replace (Zdigits2 m + e - prec) with (e + (Zdigits2 m + e - prec - e)) at 2 4 by ring.
  apply located_shr; [lia|]. apply located_of_loc; [lia | exact Hin].
Qed.

Lemma round_nearest_even_bounds (m : Z) (l : location) :
  m <= round_nearest_even m l <= m + 1.
Proof. destruct l as [|[]]; cbn; try lia. destruct (Z.even m); lia. Qed.

(** The second pass of [binary_round_aux], on a mantissa that rounding
    left in [[2 ^ (prec - 1), 2 ^ prec]]. *)
Lemma renormalise (m2 E : Z) :
  2 ^ (prec - 1) <= m2 <= 2 ^ prec ->
  SpecFloat.emin prec emax <= E ->
  shr_fexp prec emax m2 E loc_Exact =
  ({| shr_m := fst (normalise m2 E); shr_r := false; shr_s := false |},
   snd (normalise m2 E)).
Proof.
  intros Hm HE. unfold normalise, shr_fexp.
  destruct (Z.ltb_spec m2 (2 ^ prec)) as [Hlt | Hge].
  - rewrite (Zdigits2_unique m2 prec) by (unfold prec in *; lia).
    rewrite fexp_normal by lia.
    replace (prec + E - prec - E) with 0 by ring. reflexivity.
  - assert (m2 = 2 ^ prec) by lia. subst m2.
    rewrite (Zdigits2_unique (2 ^ prec) (prec + 1)).
    + rewrite fexp_normal by lia.
      replace (prec + 1 + E - prec - E) with 1 by ring. reflexivity.
    + unfold prec. lia.
    + replace (prec + 1 - 1) with prec by ring. unfold prec. lia.
Qed.

Lemma binary_round_aux_rounded (x : Q) (m e : Z) (l : location) :
  0 < m -> inbetween (scale x e) m l ->
  prec <= Zdigits2 m ->
  SpecFloat.emin prec emax <= Zdigits2 m + e - prec ->
  Zdigits2 m + e + 1 <= emax ->
  rounded x (Zdigits2 m + e) (binary_round_aux prec emax false m e l).
Proof.
  intros Hm Hin Hd Hlo Hhi.
  set (g := Zdigits2 m + e) in *.
  assert (Hg : mag_is x g).
  { pose proof (located_mag x _ e (located_of_loc x m e l (Z.lt_le_incl _ _ Hm) Hin)) as M.
    rewrite shr_record_of_loc_m in M. apply M, Hm. }
  destruct (shr_fexp_located x m e l Hm Hin Hd Hlo) as [Hloc He'].
  fold g in Hloc, He'.
  unfold binary_round_aux.
  destruct (shr_fexp prec emax m e l) as [mrs' e'] eqn:S1. cbn [fst snd] in Hloc, He'.
  subst e'.
  pose proof (located_digits x mrs' (g - prec) g Hloc Hg) as Hdig.
  replace (g - (g - prec)) with prec in Hdig by ring.
  specialize (Hdig ltac:(unfold prec; lia)).
  set (m1 := shr_m mrs') in *. set (l1 := loc_of_shr_record mrs') in *.
  pose proof (round_nearest_even_bounds m1 l1) as Hrne.
  rewrite renormalise by (unfold prec in *; lia).
  cbn [shr_m].
  exists m1, l1. split; [apply Hloc|]. split; [exact Hdig|].
  unfold normalise.
  destruct (Z.ltb_spec (round_nearest_even m1 l1) (2 ^ prec)) as [Hlt | Hge]; cbn [fst snd].
  - destruct (round_nearest_even m1 l1) as [|p|p] eqn:R; try (unfold prec in *; lia).
    replace (g - prec <=? emax - prec) with true
      by (symmetry; apply Z.leb_le; lia).
    reflexivity.
  - replace (g - prec + 1 <=? emax - prec) with true
      by (symmetry; apply Z.leb_le; lia).
    reflexivity.
Qed.

(** * Order of positive floats *)

Lemma leb_finite (M M' : positive) (E E' : Z) :
  F64.leb (S754_finite false M E) (S754_finite false M' E') = true
  <-> E < E' \/ (E = E' /\ Z.pos M <= Z.pos M').
Proof.
  unfold F64.leb, SFleb, SFcompare.
  change (Pos.compare_cont Eq M M') with (Pos.compare M M').
  destruct (Z.compare_spec E E') as [C | C | C].
  - destruct (Pos.compare_spec M M') as [D | D | D]; split; intros H;
      try discriminate; try reflexivity; try lia.
  - split; [intros _; lia | reflexivity].
  - split; [discriminate | lia].
Qed.

Lemma Fval_pos (M : positive) (E : Z) : (0 < Fval M E)%Q.
Proof.
  unfold Fval. pose proof (pow2_pos E).
  assert (0 < inject_Z (Z.pos M))%Q by (rewrite <- (Zlt_Qlt 0); lia).
  apply Qmult_lt_0_compat; assumption.
Qed.

Lemma Fval_bounds (M : positive) (E : Z) :
  2 ^ (prec - 1) <= Z.pos M < 2 ^ prec ->
  (pow2 (prec - 1 + E) <= Fval M E)%Q /\ (Fval M E < pow2 (prec + E))%Q.
Proof.
  intros [L U]. unfold Fval. rewrite !pow2_add.
  rewrite !pow2_inject by (unfold prec; lia).
  pose proof (pow2_pos E) as P.
  rewrite Zle_Qle in L. rewrite Zlt_Qlt in U.
  split.
  - apply Qmult_le_compat_r; [exact L | apply Qlt_le_weak, P].
  - apply Qmult_lt_compat_r; [exact P | exact U].
Qed.

(** On normal floats the order of the floats is the order of the values. *)
Lemma leb_normal_values (f f' : f64) (M M' : positive) (E E' : Z) :
  normal f M E -> normal f' M' E' ->
  F64.leb f f' = true -> (Fval M E <= Fval M' E')%Q.
Proof.
  intros [-> HM] [-> HM'] H. apply leb_finite in H.
  destruct H as [C | [-> C]].
  - destruct (Fval_bounds M E HM) as [_ U]. destruct (Fval_bounds M' E' HM') as [L _].
    assert (pow2 (prec + E) <= pow2 (prec - 1 + E'))%Q by (apply pow2_le; lia).
    lra.
  - unfold Fval. pose proof (pow2_pos E') as P. rewrite Zle_Qle in C.
    apply Qmult_le_compat_r; [exact C | apply Qlt_le_weak, P].
Qed.

Lemma leb_normal_antisym (f f' : f64) (M M' : positive) (E E' : Z) :
  normal f M E -> normal f' M' E' ->
  F64.leb f f' = true -> F64.leb f' f = true -> f = f'.
Proof.
  intros [-> _] [-> _] H H'. apply leb_finite in H. apply leb_finite in H'.
  assert (E = E') by lia. subst E'.
  assert (M = M') by lia. subst M'. reflexivity.
Qed.

(** * Properties of rounded values *)

Lemma round_nearest_even_mono (y y' : Q) (m m' : Z) (l l' : location) :
  inbetween y m l -> inbetween y' m' l' -> (y <= y')%Q ->
  round_nearest_even m l <= round_nearest_even m' l'.
Proof.
  intros H H' Hy.
  pose proof (inbetween_floor _ _ _ H) as [L U].
  pose proof (inbetween_floor _ _ _ H') as [L' U'].
  pose proof (round_nearest_even_bounds m l) as B.
  pose proof (round_nearest_even_bounds m' l') as B'.
  destruct (Z.lt_trichotomy m m') as [C | [C | C]]; [lia| |].
  - subst m'. clear L U L' U'.
    destruct l as [|[]], l' as [|[]]; cbn [inbetween round_nearest_even] in *;
      try (destruct H as (H1 & H2 & H3)); try (destruct H' as (H1' & H2' & H3'));
      try (apply (proj2 (Qlt_alt _ _)) in H3); try (apply (proj2 (Qgt_alt _ _)) in H3);
      try (apply (proj2 (Qeq_alt _ _)) in H3);
      try (apply (proj2 (Qlt_alt _ _)) in H3'); try (apply (proj2 (Qgt_alt _ _)) in H3');
      try (apply (proj2 (Qeq_alt _ _)) in H3');
      try lia; try (destruct (Z.even m); lia);
      exfalso; generalize dependent (inject_Z m); intros; lra.
  - exfalso. assert (m' + 1 <= m) as X by lia.
    rewrite Zle_Qle, inject_Z_plus in X. change (inject_Z 1) with 1%Q in X. lra.
Qed.

Lemma rounded_mag (x : Q) (g : Z) (f : f64) : rounded x g f -> mag_is x g.
Proof.
  intros (m & l & Hin & Hm & _).
  assert (Hloc : located x (shr_record_of_loc m l) (g - prec)).
  { apply located_of_loc; [unfold prec in *; lia | exact Hin]. }
  pose proof (located_mag _ _ _ Hloc) as M. rewrite shr_record_of_loc_m in M.
  rewrite (Zdigits2_unique m prec) in M by (unfold prec in *; lia).
  replace (prec + (g - prec)) with g in M by ring.
  apply M. unfold prec in *. lia.
Qed.

Lemma rounded_normal (x : Q) (g : Z) (f : f64) :
  rounded x g f ->
  exists M E, normal f M E /\ g - prec <= E <= g - prec + 1
              /\ (pow2 (g - 1) <= Fval M E)%Q /\ (Fval M E <= pow2 g)%Q.
Proof.
  intros (m & l & Hin & Hm & ->).
  pose proof (round_nearest_even_bounds m l) as B.
  unfold normalise.
  destruct (Z.ltb_spec (round_nearest_even m l) (2 ^ prec)) as [Hlt | Hge]; cbn [fst snd].
  - destruct (round_nearest_even m l) as [|p|p] eqn:R; try (unfold prec in *; lia).
    exists p, (g - prec). cbn [Z.to_pos].
    assert (N : 2 ^ (prec - 1) <= Z.pos p < 2 ^ prec) by lia.
    split; [split; [reflexivity | exact N]|]. split; [lia|].
    destruct (Fval_bounds p (g - prec) N) as [L U].
    replace (prec - 1 + (g - prec)) with (g - 1) in L by ring.
    replace (prec + (g - prec)) with g in U by ring. lra.
  - exists (Z.to_pos (2 ^ (prec - 1))), (g - prec + 1).
    assert (N : 2 ^ (prec - 1) <= Z.pos (Z.to_pos (2 ^ (prec - 1))) < 2 ^ prec)
      by (unfold prec; cbn; lia).
    split; [split; [reflexivity | exact N]|]. split; [lia|].
    assert (V : (Fval (Z.to_pos (2 ^ (prec - 1))) (g - prec + 1) == pow2 g)%Q).
    { unfold Fval. change (inject_Z (Z.pos (Z.to_pos (2 ^ (prec - 1)))))
        with (inject_Z (2 ^ (prec - 1))).
      rewrite <- pow2_inject by (unfold prec; lia). rewrite <- pow2_add.
      replace (prec - 1 + (g - prec + 1)) with g by ring. reflexivity. }
    rewrite V. split; [apply pow2_le; lia | apply Qle_refl].
Qed.

Lemma rounded_mono (x x' : Q) (g g' : Z) (f f' : f64) :
  rounded x g f -> rounded x' g' f' -> (x <= x')%Q -> F64.leb f f' = true.
Proof.
  intros R R' Hx.
  pose proof (mag_is_le _ _ _ _ (rounded_mag _ _ _ R) (rounded_mag _ _ _ R') Hx) as Hg.
  destruct R as (m & l & Hin & Hm & ->). destruct R' as (m' & l' & Hin' & Hm' & ->).
  pose proof (round_nearest_even_bounds m l) as B.
  pose proof (round_nearest_even_bounds m' l') as B'.
  apply leb_finite.
  destruct (Z.eq_dec g g') as [<- | Hne].
  - pose proof (round_nearest_even_mono _ _ _ _ _ _ Hin Hin' (scale_le _ _ _ Hx)) as Hr.
    unfold normalise.
    destruct (Z.ltb_spec (round_nearest_even m l) (2 ^ prec)),
             (Z.ltb_spec (round_nearest_even m' l') (2 ^ prec)); cbn [fst snd].
    + right. split; [reflexivity|]. rewrite !Z2Pos.id by (unfold prec in *; lia). exact Hr.
    + left. lia.
    + lia.
    + right. split; [reflexivity|]. lia.
  - unfold normalise.
    destruct (Z.ltb_spec (round_nearest_even m l) (2 ^ prec)),
             (Z.ltb_spec (round_nearest_even m' l') (2 ^ prec)); cbn [fst snd];
      try (left; lia).
    destruct (Z.eq_dec (g - prec + 1) (g' - prec)) as [Heq | Hneq]; [|left; lia].
    right. split; [exact Heq|]. rewrite !Z2Pos.id by (unfold prec in *; lia). lia.
Qed.

(** A normal float is the rounding of its own value. *)
Lemma normal_rounded (f : f64) (M : positive) (E : Z) :
  normal f M E -> rounded (Fval M E) (prec + E) f.
Proof.
  intros [-> HM]. exists (Z.pos M), loc_Exact.
  replace (prec + E - prec) with E by ring.
  split; [cbn; unfold Fval; apply scale_val|]. split; [exact HM|].
  cbn [round_nearest_even]. unfold normalise.
  destruct (Z.ltb_spec (Z.pos M) (2 ^ prec)); [reflexivity | lia].
Qed.

(** Rounding is a function of the value. *)
Lemma rounded_unique (x x' : Q) (g g' : Z) (f f' : f64) :
  rounded x g f -> rounded x' g' f' -> (x == x')%Q -> f = f'.
Proof.
  intros R R' Hx.
  destruct (rounded_normal _ _ _ R) as (M & E & N & _).
  destruct (rounded_normal _ _ _ R') as (M' & E' & N' & _).
  apply (leb_normal_antisym f f' M M' E E' N N').
  - apply (rounded_mono _ _ _ _ _ _ R R'). lra.
  - apply (rounded_mono _ _ _ _ _ _ R' R). lra.
Qed.

(** * The operations of the monitor, as roundings *)

Lemma Zdigits2_ge (m k : Z) : 2 ^ (k - 1) <= m -> 1 <= k -> k <= Zdigits2 m.
Proof.
  intros L Hk. assert (Hm : 0 < m).
  { assert (0 < 2 ^ (k - 1)) by (apply Z.pow_pos_nonneg; lia). lia. }
  pose proof (Zdigits2_bounds m Hm) as [_ U].
  destruct (Z_lt_le_dec (Zdigits2 m) k) as [C|C]; [|exact C].
  assert (2 ^ Zdigits2 m <= 2 ^ (k - 1)) by (apply Z.pow_le_mono_r; lia). lia.
Qed.

Lemma Zdigits2_le (m k : Z) : 0 < m -> m < 2 ^ k -> Zdigits2 m <= k.
Proof.
  intros Hm U. pose proof (Zdigits2_bounds m Hm) as [L _].
  pose proof (Zdigits2_pos m Hm).
  destruct (Z_lt_le_dec k (Zdigits2 m)) as [C|C]; [|exact C].
  assert (0 <= k).
  { destruct (Z_lt_le_dec k 0); [|assumption]. rewrite Z.pow_neg_r in U by lia. lia. }
  assert (2 ^ k <= 2 ^ (Zdigits2 m - 1)) by (apply Z.pow_le_mono_r; lia). lia.
Qed.

Lemma shl_iter (p k : positive) : Z.pos (Pos.iter xO p k) = Z.pos p * 2 ^ Z.pos k.
Proof.
  change (Pos.iter xO p k) with (shift_pos k p).
  rewrite shift_pos_correct. change (Z.pow_pos 2 k) with (2 ^ Z.pos k). ring.
Qed.

(** [of_int n] is [n] rounded, for every positive [n] below [2 ^ 1023]. *)
Lemma of_int_rounded (n : Z) :
  0 < n -> Zdigits2 n + 1 <= emax ->
  rounded (inject_Z n) (Zdigits2 n) (of_int n).
Proof.
  intros Hn Hhi. destruct n as [|p|p]; try lia.
  unfold of_int, binary_normalize, binary_round.
  cbn [Zdigits2] in *. set (d := Z.pos (digits2_pos p)) in *.
  pose proof (digits2_pos_bounds p) as [Ld Ud]. fold d in Ld, Ud.
  assert (Hd : 1 <= d) by (unfold d; lia).
  rewrite Z.add_0_r, fexp_normal by (unfold SpecFloat.emin, prec, emax; lia).
  unfold shl_align. rewrite Z.sub_0_r.
  destruct (d - prec) as [|k|k] eqn:Hk.
  - replace d with (Zdigits2 (Z.pos p) + 0) at 1 by (cbn; fold d; lia).
    apply binary_round_aux_rounded; cbn [Zdigits2]; fold d;
      try (unfold SpecFloat.emin, prec, emax in *; lia).
    cbn. unfold scale. change (pow2 (- 0)) with 1%Q. ring.
  - replace d with (Zdigits2 (Z.pos p) + 0) at 1 by (cbn; fold d; lia).
    apply binary_round_aux_rounded; cbn [Zdigits2]; fold d;
      try (unfold SpecFloat.emin, prec, emax in *; lia).
    cbn. unfold scale. change (pow2 (- 0)) with 1%Q. ring.
  - assert (Dz : Zdigits2 (Z.pos (Pos.iter xO p k)) = prec).
    { apply Zdigits2_unique; [lia|]. rewrite shl_iter.
      replace (Z.pos k) with (prec - d) by lia.
      replace (prec - 1) with ((d - 1) + (prec - d)) by ring.
      replace prec with (d + (prec - d)) at 4 by ring.
      rewrite !Z.pow_add_r by lia.
      assert (0 < 2 ^ (prec - d)) by (apply Z.pow_pos_nonneg; lia). nia. }
    replace d with (Zdigits2 (Z.pos (Pos.iter xO p k)) + Z.neg k) at 1 by (rewrite Dz; lia).
    apply binary_round_aux_rounded; rewrite ?Dz;
      try (unfold SpecFloat.emin, prec, emax in *; lia).
    cbn [inbetween]. rewrite shl_iter, inject_Z_mult. unfold scale.
    change (- Z.neg k) with (Z.pos k). rewrite pow2_inject by lia. reflexivity.
Qed.

Lemma mul_rounded (f1 f2 : f64) (M1 M2 : positive) (E1 E2 : Z) :
  normal f1 M1 E1 -> normal f2 M2 E2 ->
  SpecFloat.emin prec emax <= E1 + E2 + prec - 1 ->
  E1 + E2 + 2 * prec + 1 <= emax ->
  exists g, rounded (Fval M1 E1 * Fval M2 E2)%Q g (F64.mul f1 f2).
Proof.
  intros [-> H1] [-> H2] Hlo Hhi.
  exists (Zdigits2 (Z.pos (M1 * M2)) + (E1 + E2)).
  unfold F64.mul, SFmul. cbn [xorb].
  assert (L : 2 ^ (2 * prec - 1 - 1) <= Z.pos (M1 * M2)).
  { replace (2 * prec - 1 - 1) with ((prec - 1) + (prec - 1)) by ring.
    rewrite Z.pow_add_r by (unfold prec; lia). rewrite Pos2Z.inj_mul.
    apply Z.mul_le_mono_nonneg; unfold prec in *; lia. }
  assert (U : Z.pos (M1 * M2) < 2 ^ (2 * prec)).
  { replace (2 * prec) with (prec + prec) by ring.
    rewrite Z.pow_add_r by (unfold prec; lia). rewrite Pos2Z.inj_mul.
    apply Z.mul_lt_mono_nonneg; unfold prec in *; lia. }
  pose proof (Zdigits2_ge _ (2 * prec - 1) L ltac:(unfold prec; lia)) as Dl.
  pose proof (Zdigits2_le (Z.pos (M1 * M2)) (2 * prec) eq_refl U) as Du.
  apply binary_round_aux_rounded; try (unfold SpecFloat.emin, prec, emax in *; lia).
  cbn [inbetween]. rewrite Pos2Z.inj_mul, inject_Z_mult.
  rewrite <- (scale_val (inject_Z (Z.pos M1) * inject_Z (Z.pos M2)) (E1 + E2)).
  apply scale_proper; [|reflexivity]. unfold Fval. rewrite pow2_add. ring.
Qed.

Lemma pow2_neg (e : Z) : (pow2 (- e) == / pow2 e)%Q.
Proof. apply Qpower_opp. Qed.

Lemma div_core (M1 M2 : positive) (E1 E2 : Z) :
  2 ^ (prec - 1) <= Z.pos M1 < 2 ^ prec ->
  2 ^ (prec - 1) <= Z.pos M2 < 2 ^ prec ->
  SpecFloat.emin prec emax <= E1 - E2 - prec ->
  SFdiv_core_binary prec emax (Z.pos M1) E1 (Z.pos M2) E2 =
  ((Z.pos M1 * 2 ^ prec) / Z.pos M2, E1 - E2 - prec,
   new_location (Z.pos M2) ((Z.pos M1 * 2 ^ prec) mod Z.pos M2)).
Proof.
  intros H1 H2 Hlo. unfold SFdiv_core_binary.
  rewrite (Zdigits2_unique (Z.pos M1) prec) by (unfold prec in *; lia).
  rewrite (Zdigits2_unique (Z.pos M2) prec) by (unfold prec in *; lia).
  rewrite fexp_normal by lia.
  replace (Z.min (prec + E1 - (prec + E2) - prec) (E1 - E2)) with (E1 - E2 - prec)
    by (unfold prec; lia).
  replace (E1 - E2 - (E1 - E2 - prec)) with prec by ring.
  change prec with 53 at 1. cbv iota.
  rewrite Z.shiftl_mul_pow2 by (unfold prec; lia).
  unfold Z.div, Z.modulo.
  destruct (Z.div_eucl (Z.pos M1 * 2 ^ prec) (Z.pos M2)) as [q r]. reflexivity.
Qed.

Lemma new_location_eq (m r : Z) :
  new_location m r =
  if r =? 0 then loc_Exact
  else loc_Inexact
         (if Z.even m then (2 * r ?= m)
          else match (2 * r + 1 ?= m) with Gt => Gt | _ => Lt end).
Proof.
  unfold new_location, new_location_even, new_location_odd.
  change (IntDef.Z.even m) with (Z.even m).
  destruct (Z.even m); change (IntDef.Z.eqb r 0) with (r =? 0);
    destruct (r =? 0); reflexivity.
Qed.

Lemma new_location_inbetween (y : Q) (q r m : Z) :
  0 < m -> 0 <= r < m ->
  (y == inject_Z q + inject_Z r / inject_Z m)%Q ->
  inbetween y q (new_location m r).
Proof.
  intros Hm Hr Hy.
  assert (Pm : (0 < inject_Z m)%Q) by (rewrite <- (Zlt_Qlt 0); exact Hm).
  assert (F : forall k : Z, (inject_Z k / inject_Z m * inject_Z m == inject_Z k)%Q).
  { intros k. field. lra. }
  rewrite new_location_eq.
  destruct (Z.eqb_spec r 0) as [-> | Hr0].
  - cbn. rewrite Hy. change (inject_Z 0) with 0%Q. field. lra.
  - assert (P1 : (0 < inject_Z r / inject_Z m)%Q).
    { apply Qlt_shift_div_l; [exact Pm|]. rewrite Qmult_0_l, <- (Zlt_Qlt 0). lia. }
    assert (P2 : (inject_Z r / inject_Z m < 1)%Q).
    { apply Qlt_shift_div_r; [exact Pm|]. rewrite Qmult_1_l, <- Zlt_Qlt. lia. }
    assert (C : forall c, (2 * r ?= m) = c ->
                (y ?= inject_Z q + (1 # 2))%Q = c).
    { intros c Hc. destruct (Z.compare_spec (2 * r) m) as [X | X | X]; subst c.
      - apply (proj1 (Qeq_alt _ _)). rewrite Hy.
        assert (inject_Z r / inject_Z m == 1 # 2)%Q; [|lra].
        assert (Pr : (0 < inject_Z r)%Q) by (rewrite <- (Zlt_Qlt 0); lia).
        rewrite <- X, inject_Z_mult. change (inject_Z 2) with 2%Q. field. lra.
      - apply (proj1 (Qlt_alt _ _)). rewrite Hy.
        assert (inject_Z r / inject_Z m < 1 # 2)%Q; [|lra].
        apply Qlt_shift_div_r; [exact Pm|].
        rewrite Zlt_Qlt, inject_Z_mult in X. change (inject_Z 2) with 2%Q in X. lra.
      - apply (proj1 (Qgt_alt _ _)). rewrite Hy.
        assert ((1 # 2) < inject_Z r / inject_Z m)%Q; [|lra].
        apply Qlt_shift_div_l; [exact Pm|].
        rewrite Zlt_Qlt, inject_Z_mult in X. change (inject_Z 2) with 2%Q in X. lra. }
    destruct (Z.even m) eqn:Ev.
    + cbv beta iota delta [inbetween]. split; [lra|]. split; [lra|]. apply C. reflexivity.
    + cbv beta iota delta [inbetween]. split; [lra|]. split; [lra|]. apply C.
      assert (2 * r <> m).
      { intros <-. rewrite Z.even_mul in Ev. discriminate. }
      destruct (Z.compare_spec (2 * r + 1) m), (Z.compare_spec (2 * r) m);
        try reflexivity; lia.
Qed.

Lemma div_rounded (f1 f2 : f64) (M1 M2 : positive) (E1 E2 : Z) :
  normal f1 M1 E1 -> normal f2 M2 E2 ->
  SpecFloat.emin prec emax <= E1 - E2 - prec ->
  E1 - E2 + 2 <= emax ->
  exists g, rounded (Fval M1 E1 / Fval M2 E2)%Q g (F64.div f1 f2).
Proof.
  intros [-> H1] [-> H2] Hlo Hhi.
  unfold F64.div, SFdiv. cbn [xorb].
  rewrite (div_core M1 M2 E1 E2 H1 H2 Hlo).
  set (N := Z.pos M1 * 2 ^ prec).
  assert (P2 : 0 < 2 ^ prec) by (unfold prec; lia).
  assert (HN : N = Z.pos M2 * (N / Z.pos M2) + N mod Z.pos M2)
    by (apply Z.div_mod; lia).
  assert (Hr : 0 <= N mod Z.pos M2 < Z.pos M2) by (apply Z.mod_pos_bound; lia).
  assert (Lq : 2 ^ (prec - 1) <= N / Z.pos M2).
  { apply Z.div_le_lower_bound; [lia|]. unfold N.
    replace (2 ^ prec) with (2 * 2 ^ (prec - 1)) in * by (unfold prec; lia).
    assert (0 < 2 ^ (prec - 1)) by (unfold prec; lia). nia. }
  assert (Uq : N / Z.pos M2 < 2 ^ (prec + 1)).
  { apply Z.div_lt_upper_bound; [lia|]. unfold N.
    replace (2 ^ (prec + 1)) with (2 * 2 ^ prec) by (unfold prec; lia).
    replace (2 ^ prec) with (2 * 2 ^ (prec - 1)) in * by (unfold prec; lia).
    assert (0 < 2 ^ (prec - 1)) by (unfold prec; lia). nia. }
  assert (Pq : 0 < N / Z.pos M2) by (unfold prec in *; lia).
  pose proof (Zdigits2_ge _ prec Lq ltac:(unfold prec; lia)) as Dl.
  pose proof (Zdigits2_le _ (prec + 1) Pq Uq) as Du.
  exists (Zdigits2 (N / Z.pos M2) + (E1 - E2 - prec)).
  apply binary_round_aux_rounded; try (unfold SpecFloat.emin, prec, emax in *; lia).
  apply new_location_inbetween; [lia | exact Hr |].
  assert (PM2 : (0 < inject_Z (Z.pos M2))%Q) by (rewrite <- (Zlt_Qlt 0); lia).
  transitivity (inject_Z N / inject_Z (Z.pos M2))%Q.
  - unfold scale, Fval, N.
    replace (- (E1 - E2 - prec)) with (- E1 + (E2 + prec)) by ring.
    rewrite inject_Z_mult, !pow2_add, (pow2_neg E1), <- pow2_inject by (unfold prec; lia).
    pose proof (pow2_pos E1). pose proof (pow2_pos E2).
    field. repeat split; lra.
  - rewrite HN at 1. rewrite inject_Z_plus, inject_Z_mult. field. lra.
Qed.

(** * The percentage *)

Lemma mag_is_between (x : Q) (g lo hi : Z) :
  mag_is x g -> (pow2 lo <= x)%Q -> (x <= pow2 hi)%Q -> lo < g <= hi + 1.
Proof.
  intros [L U] Hlo Hhi. split.
  - apply pow2_lt_inv. lra.
  - assert (H : (pow2 (g - 1) < pow2 (hi + 1))%Q).
    { assert (pow2 hi < pow2 (hi + 1))%Q by (apply pow2_lt; lia). lra. }
    apply pow2_lt_inv in H. lia.
Qed.

Lemma normal_one : normal one 4503599627370496 (-52).
Proof. split; [reflexivity | unfold prec; lia]. Qed.

Lemma normal_hundred : normal hundred 7036874417766400 (-46).
Proof. split; [reflexivity | unfold prec; lia]. Qed.

Lemma Fval_one : (Fval 4503599627370496 (-52) == 1)%Q.
Proof. reflexivity. Qed.

Lemma Fval_hundred : (Fval 7036874417766400 (-46) == 100)%Q.
Proof. reflexivity. Qed.

Lemma normal_inj (f : f64) (M M' : positive) (E E' : Z) :
  normal f M E -> normal f M' E' -> M = M' /\ E = E'.
Proof. intros [-> _] [H _]. inversion H. auto. Qed.

Lemma rounded_compat (x x' : Q) (g : Z) (f : f64) :
  (x == x')%Q -> rounded x g f -> rounded x' g f.
Proof.
  intros Hx (m & l & Hin & Hm & Hf). exists m, l.
  split; [|split; assumption]. rewrite <- Hx. exact Hin.
Qed.

(** The conversion of a count. *)
Lemma of_int_count (n : Z) :
  0 < n < 2 ^ 63 ->
  exists M E,
    normal (of_int n) M E /\ -52 <= E <= 11
    /\ rounded (inject_Z n) (Zdigits2 n) (of_int n)
    /\ (1 <= Fval M E)%Q /\ (Fval M E <= pow2 63)%Q.
Proof.
  intros [Hn Hu].
  pose proof (Zdigits2_pos n Hn) as Dp.
  pose proof (Zdigits2_le n 63 Hn Hu) as Du.
  assert (R : rounded (inject_Z n) (Zdigits2 n) (of_int n))
    by (apply of_int_rounded; unfold emax; lia).
  destruct (rounded_normal _ _ _ R) as (M & E & N & HE & L & U).
  exists M, E. split; [exact N|]. split; [unfold prec in HE; lia|].
  split; [exact R|]. split.
  - assert (pow2 0 <= pow2 (Zdigits2 n - 1))%Q by (apply pow2_le; lia).
    change (pow2 0) with 1%Q in *. lra.
  - assert (pow2 (Zdigits2 n) <= pow2 63)%Q by (apply pow2_le; lia). lra.
Qed.

(** The chain of roundings behind the percentage of [a] matches among [b]
    pixels. *)
Lemma percentage_chain (a b : Z) :
  0 < a <= b -> b < 2 ^ 63 ->
  exists MA EA MB EB MQ EQ gq gp,
    normal (of_int a) MA EA /\ normal (of_int b) MB EB
    /\ rounded (inject_Z a) (Zdigits2 a) (of_int a)
    /\ rounded (inject_Z b) (Zdigits2 b) (of_int b)
    /\ normal (F64.div (of_int a) (of_int b)) MQ EQ
    /\ rounded (Fval MA EA / Fval MB EB)%Q gq (F64.div (of_int a) (of_int b))
    /\ (Fval MQ EQ <= 1)%Q
    /\ rounded (Fval MQ EQ * 100)%Q gp (percentage_of a b).
Proof.
  intros Ha Hb.
  destruct (of_int_count a ltac:(lia)) as (MA & EA & NA & HEA & RA & LA & UA).
  destruct (of_int_count b ltac:(lia)) as (MB & EB & NB & HEB & RB & LB & UB).
  assert (AB : (Fval MA EA <= Fval MB EB)%Q).
  { apply (leb_normal_values _ _ _ _ _ _ NA NB).
    apply (rounded_mono _ _ _ _ _ _ RA RB). rewrite <- Zle_Qle. lia. }
  destruct (div_rounded _ _ _ _ _ _ NA NB) as (gq & RQ);
    try (unfold SpecFloat.emin, prec, emax; lia).
  destruct (rounded_normal _ _ _ RQ) as (MQ & EQ & NQ & HEQ & LQ & UQ).
  pose proof (Fval_pos MA EA) as PA. pose proof (Fval_pos MB EB) as PB.
  assert (X1 : (Fval MA EA / Fval MB EB <= 1)%Q).
  { apply Qle_shift_div_r; [exact PB | lra]. }
  assert (X0 : (pow2 (-63) <= Fval MA EA / Fval MB EB)%Q).
  { apply Qle_shift_div_l; [exact PB|].
    assert (pow2 (-63) * Fval MB EB <= pow2 (-63) * pow2 63)%Q.
    { apply Qmult_le_l; [apply pow2_pos | exact UB]. }
    rewrite <- pow2_add in H. change (pow2 (-63 + 63)) with 1%Q in H. lra. }
  assert (Q1 : (Fval MQ EQ <= 1)%Q).
  { rewrite <- Fval_one.
    apply (leb_normal_values _ _ _ _ _ _ NQ normal_one).
    apply (rounded_mono _ _ _ _ _ _ RQ (normal_rounded _ _ _ normal_one)).
    rewrite Fval_one. exact X1. }
  pose proof (mag_is_between _ _ (-63) 0 (rounded_mag _ _ _ RQ) X0 X1) as Hgq.
  destruct (mul_rounded _ _ _ _ _ _ NQ normal_hundred) as (gp & RP);
    try (unfold SpecFloat.emin, prec, emax in *; lia).
  exists MA, EA, MB, EB, MQ, EQ, gq, gp.
  repeat (split; [assumption|]).
  unfold percentage_of. revert RP. apply rounded_compat.
  rewrite Fval_hundred. reflexivity.
Qed.

Lemma percentage_zero (b : Z) : 0 < b < 2 ^ 63 -> percentage_of 0 b = zero.
Proof.
  intros Hb. destruct (of_int_count b Hb) as (M & E & [N _] & _).
  unfold percentage_of. rewrite N. reflexivity.
Qed.

Lemma percentage_empty : percentage_of 0 0 = S754_nan.
Proof. reflexivity. Qed.

(** On a frame of [b] pixels, the percentage of [a] matches is a number
    between 0 and 100. *)
Lemma percentage_bounds (a b : Z) :
  0 <= a <= b -> 0 < b < 2 ^ 63 ->
  F64.leb zero (percentage_of a b) = true
  /\ F64.leb (percentage_of a b) hundred = true
  /\ is_finite (percentage_of a b) = true.
Proof.
  intros Ha Hb. destruct (Z.eq_dec a 0) as [-> | Hne].
  - rewrite (percentage_zero b Hb). repeat split; reflexivity.
  - destruct (percentage_chain a b ltac:(lia) ltac:(lia))
      as (MA & EA & MB & EB & MQ & EQ & gq & gp & _ & _ & _ & _ & NQ & _ & Q1 & RP).
    destruct (rounded_normal _ _ _ RP) as (MP & EP & [NP HP] & _).
    split; [rewrite NP; reflexivity|]. split; [|rewrite NP; reflexivity].
    apply (rounded_mono _ _ _ _ _ _ RP (normal_rounded _ _ _ normal_hundred)).
    rewrite Fval_hundred. lra.
Qed.

(** More matches give a percentage at least as large. *)
Lemma percentage_mono (a a' b : Z) :
  0 <= a <= a' -> a' <= b -> 0 < b < 2 ^ 63 ->
  F64.leb (percentage_of a b) (percentage_of a' b) = true.
Proof.
  intros Ha Ha' Hb. destruct (Z.eq_dec a 0) as [-> | Hne].
  - rewrite (percentage_zero b Hb).
    apply (percentage_bounds a' b); lia.
  - destruct (percentage_chain a b ltac:(lia) ltac:(lia))
      as (MA & EA & MB & EB & MQ & EQ & gq & gp & NA & NB & RA & _ & NQ & RQ & _ & RP).
    destruct (percentage_chain a' b ltac:(lia) ltac:(lia))
      as (MA' & EA' & MB' & EB' & MQ' & EQ' & gq' & gp' & NA' & NB' & RA' & _ & NQ' & RQ' & _ & RP').
    destruct (normal_inj _ _ _ _ _ NB NB') as [<- <-].
    pose proof (Fval_pos MB EB) as PB.
    assert (HA : (Fval MA EA <= Fval MA' EA')%Q).
    { apply (leb_normal_values _ _ _ _ _ _ NA NA').
      apply (rounded_mono _ _ _ _ _ _ RA RA'). rewrite <- Zle_Qle. lia. }
    assert (HQ : (Fval MQ EQ <= Fval MQ' EQ')%Q).
    { apply (leb_normal_values _ _ _ _ _ _ NQ NQ').
      apply (rounded_mono _ _ _ _ _ _ RQ RQ').
      apply Qmult_le_compat_r; [exact HA|]. apply Qinv_le_0_compat. lra. }
    apply (rounded_mono _ _ _ _ _ _ RP RP'). lra.
Qed.

(** When every pixel matches the percentage is exactly 100. *)
Lemma percentage_full (b : Z) : 0 < b < 2 ^ 63 -> percentage_of b b = hundred.
Proof.
  intros Hb.
  destruct (percentage_chain b b ltac:(lia) ltac:(lia))
    as (MA & EA & MB & EB & MQ & EQ & gq & gp & NA & NB & _ & _ & NQ & RQ & _ & _).
  destruct (normal_inj _ _ _ _ _ NA NB) as [<- <-].
  pose proof (Fval_pos MA EA) as PA.
  assert (Q1 : F64.div (of_int b) (of_int b) = one).
  { apply (rounded_unique _ _ _ _ _ _ RQ (normal_rounded _ _ _ normal_one)).
    rewrite Fval_one. field. lra. }
  unfold percentage_of. rewrite Q1. reflexivity.
Qed.

(** * Counting the matching pixels *)

Lemma channel_range (c : Byte.byte) : 0 <= channel c <= 255.
Proof.
  unfold channel. pose proof (Byte.to_N_bounded c). lia.
Qed.

Lemma np_sum_bounds (mask : list bool) : 0 <= np_sum mask <= Z.of_nat (length mask).
Proof.
  induction mask as [|m mask IH]; cbn [np_sum fold_right length]; [lia|].
  fold (np_sum mask). destruct m; lia.
Qed.

Lemma np_sum_all (mask : list bool) :
  Forall (fun m => m = true) mask -> np_sum mask = Z.of_nat (length mask).
Proof.
  induction 1 as [|m mask -> _ IH]; cbn [np_sum fold_right length]; [reflexivity|].
  fold (np_sum mask). lia.
Qed.

Lemma np_sum_mono {A : Type} (f g : A -> bool) (l : list A) :
  (forall x, f x = true -> g x = true) ->
  np_sum (map f l) <= np_sum (map g l).
Proof.
  intros H. induction l as [|x l IH]; cbn [np_sum fold_right map]; [lia|].
  fold (np_sum (map f l)) (np_sum (map g l)).
  specialize (H x). destruct (f x), (g x); try lia; discriminate (H eq_refl).
Qed.

Lemma np_sum_count {A : Type} (f : A -> bool) (l : list A) :
  np_sum (map f l) = Z.of_nat (length (filter (fun x => f x = true) l)).
Proof.
  induction l as [|x l IH]; [reflexivity|].
  cbn [np_sum fold_right map]. fold (np_sum (map f l)). rewrite IH.
  rewrite filter_cons. destruct (decide (f x = true)) as [E | E].
  - rewrite E. cbn [length]. lia.
  - destruct (f x); [congruence|]. lia.
Qed.

Lemma total_pixels_length (img : image) :
  Z.of_nat (shape0 img) * Z.of_nat (shape1 img) = Z.of_nat (length (data img)).
Proof. rewrite (shape_ok img). lia. Qed.

Lemma within_spec (tolerance : Z) (target : Config.color) (p : pixel) :
  within tolerance (diff target p) = true
  <-> Z.abs (channel (red p) - Config.r target) <= tolerance
      /\ Z.abs (channel (green p) - Config.g target) <= tolerance
      /\ Z.abs (channel (blue p) - Config.b target) <= tolerance.
Proof.
  unfold within, diff. rewrite !andb_true_iff, !Z.leb_le. tauto.
Qed.

Lemma check_color_match_percentage (config : Config.t) (img : image) :
  fst (check_color_match config img) =
  percentage_of
    (np_sum (map (fun p => within (Config.color_tolerance config)
                             (diff (Config.target_color config) p)) (data img)))
    (Z.of_nat (length (data img))).
Proof.
  unfold check_color_match. cbn [fst]. rewrite total_pixels_length. reflexivity.
Qed.

(** * The sign of a difference *)

Lemma gtb_int_positive (x : f64) :
  match x with
  | S754_finite false _ _ | S754_infinity false => gtb_int x 0 = true
  | _ => gtb_int x 0 = false
  end.
Proof.
  destruct x as [s | [] | | [] m e]; try reflexivity.
  - unfold gtb_int, compare_int. destruct (0 <=? e) eqn:E; [|reflexivity].
    apply Z.leb_le in E.
    assert (0 < Z.neg m * 2 ^ e \/ Z.neg m * 2 ^ e < 0) as [H | H].
    { right. assert (0 < 2 ^ e) by (apply Z.pow_pos_nonneg; lia). nia. }
    + exfalso. assert (0 < 2 ^ e) by (apply Z.pow_pos_nonneg; lia). nia.
    + destruct (Z.compare_spec (Z.neg m * 2 ^ e) 0); try reflexivity; lia.
  - unfold gtb_int, compare_int. destruct (0 <=? e) eqn:E; [|reflexivity].
    apply Z.leb_le in E.
    assert (0 < Z.pos m * 2 ^ e).
    { assert (0 < 2 ^ e) by (apply Z.pow_pos_nonneg; lia). nia. }
    destruct (Z.compare_spec (Z.pos m * 2 ^ e) 0); try reflexivity; lia.
Qed.

(** Shifting a positive mantissa at an exponent not below [emin] keeps it
    positive. *)
Lemma shr_fexp_positive (m e : Z) :
  0 < m -> SpecFloat.emin prec emax <= e ->
  0 < shr_m (fst (shr_fexp prec emax m e loc_Exact))
  /\ SpecFloat.emin prec emax <= snd (shr_fexp prec emax m e loc_Exact).
Proof.
  intros Hm He. unfold shr_fexp.
  set (d := Zdigits2 m). set (n := fexp prec emax (d + e) - e).
  pose proof (Zdigits2_pos m Hm) as Hd. fold d in Hd.
  set (x := (inject_Z m * pow2 e)%Q).
  assert (Hloc : located x (shr_record_of_loc m loc_Exact) e).
  { apply located_of_loc; [lia|]. cbn. unfold x. apply scale_val. }
  assert (Hg : mag_is x (d + e)).
  { pose proof (located_mag x _ e Hloc) as M. cbn [shr_m shr_record_of_loc] in M.
    apply M, Hm. }
  destruct (Z_le_gt_dec n 0) as [Hn | Hn].
  - destruct n as [|p|p] eqn:En; try lia; cbn [shr fst snd shr_m shr_record_of_loc]; lia.
  - destruct (located_shr x _ e n ltac:(lia) Hloc) as [Hloc' He'].
    rewrite He'. split; [|lia].
    assert (Hn' : n = d - prec).
    { unfold n, fexp in *. unfold SpecFloat.emin, prec, emax in *. lia. }
    pose proof (located_digits x _ (e + n) (d + e) Hloc' Hg) as D.
    replace (d + e - (e + n)) with prec in D by lia.
    specialize (D ltac:(unfold prec; lia)).
    assert (0 < 2 ^ (prec - 1)) by (unfold prec; lia). lia.
Qed.

Lemma binary_round_aux_positive (m e : Z) :
  0 < m -> SpecFloat.emin prec emax <= e ->
  gtb_int (binary_round_aux prec emax false m e loc_Exact) 0 = true.
Proof.
  intros Hm He. unfold binary_round_aux.
  destruct (shr_fexp_positive m e Hm He) as [P1 E1].
  destruct (shr_fexp prec emax m e loc_Exact) as [mrs1 e1]. cbn [fst snd] in P1, E1.
  pose proof (round_nearest_even_bounds (shr_m mrs1) (loc_of_shr_record mrs1)) as B.
  destruct (shr_fexp_positive (round_nearest_even (shr_m mrs1) (loc_of_shr_record mrs1)) e1
              ltac:(lia) E1) as [P2 _].
  destruct (shr_fexp prec emax _ e1 loc_Exact) as [mrs2 e2]. cbn [fst snd] in P2.
  destruct (shr_m mrs2) as [|p|p]; try lia.
  destruct (e2 <=? emax - prec); [|reflexivity].
  apply (gtb_int_positive (S754_finite false p e2)).
Qed.

Lemma binary_round_aux_negative (m e : Z) (l : location) :
  gtb_int (binary_round_aux prec emax true m e l) 0 = false.
Proof.
  unfold binary_round_aux.
  destruct (shr_fexp prec emax m e l) as [mrs1 e1].
  destruct (shr_fexp prec emax _ e1 loc_Exact) as [mrs2 e2].
  destruct (shr_m mrs2) as [|p|p]; try reflexivity.
  destruct (e2 <=? emax - prec); [|reflexivity].
  apply (gtb_int_positive (S754_finite true p e2)).
Qed.

Lemma shl_align_exponent (p : positive) (e : Z) :
  SpecFloat.emin prec emax <= e ->
  SpecFloat.emin prec emax <=
    snd (shl_align p e (fexp prec emax (Z.pos (digits2_pos p) + e))).
Proof.
  intros He. unfold shl_align.
  destruct (fexp prec emax (Z.pos (digits2_pos p) + e) - e) eqn:E; cbn [snd]; try lia.
  unfold fexp in *. lia.
Qed.

(** The sign of [binary_normalize] is the sign of the integer. *)
Lemma binary_normalize_sign (S e : Z) :
  SpecFloat.emin prec emax <= e ->
  gtb_int (binary_normalize prec emax S e false) 0 = (0 <? S).
Proof.
  intros He. destruct S as [|p|p]; cbn [binary_normalize Z.ltb Z.compare].
  - reflexivity.
  - unfold binary_round.
    pose proof (shl_align_exponent p e He) as X.
    destruct (shl_align p e _) as [mz ez]. cbn [snd] in X.
    apply binary_round_aux_positive; [reflexivity | exact X].
  - unfold binary_round. destruct (shl_align p e _) as [mz ez].
    apply binary_round_aux_negative.
Qed.

Lemma shl_align_fst (p : positive) (ex ez : Z) :
  ez <= ex -> Z.pos (fst (shl_align p ex ez)) = Z.pos p * 2 ^ (ex - ez).
Proof.
  intros H. unfold shl_align. destruct (ez - ex) as [|k|k] eqn:E; cbn [fst]; try lia.
  - replace (ex - ez) with 0 by lia. lia.
  - rewrite shl_iter. f_equal. f_equal. lia.
Qed.

(** What validity says of a finite float. *)
Lemma valid_finite (s : bool) (m : positive) (e : Z) :
  valid (S754_finite s m e) = true ->
  SpecFloat.emin prec emax <= e
  /\ Z.pos m < 2 ^ prec
  /\ (SpecFloat.emin prec emax < e -> 2 ^ (prec - 1) <= Z.pos m).
Proof.
  unfold valid, valid_binary, bounded, canonical_mantissa.
  intros H. apply andb_true_iff in H. destruct H as [H _].
  apply Z.eqb_eq in H.
  pose proof (digits2_pos_bounds m) as [L U].
  set (d := Z.pos (digits2_pos m)) in *.
  assert (Hd : 1 <= d) by (unfold d; lia).
  unfold fexp in H.
  split; [lia|]. split.
  - assert (d <= prec) by lia.
    assert (2 ^ d <= 2 ^ prec) by (apply Z.pow_le_mono_r; lia). lia.
  - intros He. assert (d = prec) by lia.
    replace (prec - 1) with (d - 1) by lia. exact L.
Qed.

(** For a positive normal [T] and a finite [e], the difference [T - e] is
    positive exactly when [e < T]. *)
Lemma sub_positive_iff_less (T e : f64) (M : positive) (E : Z) :
  normal T M E -> SpecFloat.emin prec emax <= E ->
  valid e = true -> is_finite e = true ->
  gtb_int (F64.sub T e) 0 = F64.ltb e T.
Proof.
  intros [-> HM] HE Hv Hf.
  destruct e as [s | s | | s m' e']; try discriminate.
  - destruct s; apply (gtb_int_positive (S754_finite false M E)).
  - destruct (valid_finite s m' e' Hv) as (He' & Um & Lm).
    unfold F64.sub, SFsub.
    rewrite binary_normalize_sign by lia.
    rewrite !shl_align_fst by lia.
    assert (P2 : forall k, 0 <= k -> 0 < 2 ^ k) by (intros; apply Z.pow_pos_nonneg; lia).
    destruct s; cbn [cond_Zopp].
    + transitivity true; [|reflexivity]. apply Z.ltb_lt.
      pose proof (P2 (E - Z.min E e') ltac:(lia)).
      pose proof (P2 (e' - Z.min E e') ltac:(lia)). nia.
    + unfold F64.ltb, SFltb, SFcompare.
      change (Pos.compare_cont Eq m' M) with (Pos.compare m' M).
      destruct (Z.compare_spec e' E) as [C | C | C].
      * subst e'. rewrite Z.min_id, Z.sub_diag, !Z.mul_1_r.
        destruct (Pos.compare_spec m' M) as [D | D | D].
        -- subst. rewrite Z.sub_diag. reflexivity.
        -- apply Z.ltb_lt. lia.
        -- apply Z.ltb_ge. lia.
      * apply Z.ltb_lt. rewrite Z.min_r by lia. rewrite Z.sub_diag, Z.mul_1_r.
        assert (2 * 2 ^ (prec - 1) = 2 ^ prec) by (unfold prec; lia).
        assert (2 <= 2 ^ (E - e')).
        { change 2 with (2 ^ 1) at 1. apply Z.pow_le_mono_r; lia. }
        nia.
      * apply Z.ltb_ge. rewrite Z.min_l by lia. rewrite Z.sub_diag, Z.mul_1_r.
        specialize (Lm ltac:(lia)).
        assert (2 * 2 ^ (prec - 1) = 2 ^ prec) by (unfold prec; lia).
        assert (2 <= 2 ^ (e' - E)).
        { change 2 with (2 ^ 1) at 1. apply Z.pow_le_mono_r; lia. }
        nia.
Qed.

(** * One pass of the loop *)

Lemma capture_screen_region_run (io : pass_io) (s : monitor) :
  capture_screen_region io s =
  (grabbed io, s, [Grab (Config.monitor_region (config s))]).
Proof. unfold capture_screen_region. run. reflexivity. Qed.

(** A count converts to a float without overflow. *)
Lemma float_of_int_count (n : Z) :
  0 <= n < 2 ^ 63 -> float_of_int n = Return (of_int n).
Proof.
  intros Hn. unfold float_of_int. destruct (Z.eq_dec n 0) as [-> | Hne]; [reflexivity|].
  destruct (of_int_count n ltac:(lia)) as (M & E & [-> _] & _). reflexivity.
Qed.

Lemma leb_one_not_zero (x : f64) :
  F64.leb one x = true -> match x with S754_zero _ => False | _ => True end.
Proof. destruct x as [[]|[]| |[] m e]; cbn; try discriminate; auto. Qed.




(** [time.sleep] sleeps for its argument or raises, and leaves the monitor
    as it is. *)
Lemma sleep_cases (d : f64) (s : monitor) :
  sleep d s = (Return tt, s, [Sleep d])
  \/ sleep d s = (Raise ValueError, s, [])
  \/ sleep d s = (Raise OverflowError, s, []).
Proof.
  unfold sleep. destruct (is_nan d); [right; left; reflexivity|].
  cbv zeta. destruct (_ && _); [|right; right; reflexivity].
  destruct (F64.ltb _ zero); [right; left; reflexivity | left; reflexivity].
Qed.

(** A positive time is slept when its nanoseconds are below 2^63, and is
    refused with [OverflowError] otherwise. *)
Lemma sleep_positive (d : f64) (s : monitor) :
  gtb_int d 0 = true ->
  sleep d s =
  if F64.ltb (nanoseconds d) two63 then (Return tt, s, [Sleep d])
  else (Raise OverflowError, s, []).
Proof.
  intros Hd. pose proof (gtb_int_positive d) as G.
  destruct d as [sg | [] | | [] m e]; try congruence.
  - reflexivity.
  - clear. unfold sleep. cbn [is_nan]. cbv zeta. unfold nanoseconds.
    replace (of_int 1000000000) with (S754_finite false 8388608000000000 (-23))
      by (vm_compute; reflexivity).
    unfold F64.mul, SFmul. cbn [xorb]. unfold binary_round_aux.
    destruct (shr_fexp prec emax _ _ loc_Exact) as [mrs1 e1].
    destruct (shr_fexp prec emax _ e1 loc_Exact) as [mrs2 e2].
    destruct (shr_m mrs2) as [ | p | p]; [reflexivity | | reflexivity].
    destruct (e2 <=? emax - prec); [|reflexivity].
    change (F64.leb (S754_finite true 4503599627370496 11) (S754_finite false p e2)) with true.
    change (F64.ltb (S754_finite false p e2) zero) with false.
    cbn [andb]. destruct (F64.ltb _ two63); reflexivity.
Qed.

(** The cadence step leaves the monitor as it is and, at most, sleeps. *)
Lemma cadence_cases (io : pass_io) (s : monitor) :
  (exists r, cadence io s = (r, s, []))
  \/ (exists d, cadence io s = (Return tt, s, [Sleep d])).
Proof.
  unfold cadence. run.
  destruct (truediv_int _ _) as [T | e]; [|left; eexists; reflexivity].
  destruct (gtb_int T 0); [|left; eexists; reflexivity].
  destruct (gtb_int _ 0); [|left; eexists; reflexivity].
  destruct (sleep_cases (F64.sub T (F64.sub (perf_end io) (perf_start io))) s)
    as [E | [E | E]]; rewrite E; [right | left | left]; eexists; reflexivity.
Qed.

Lemma loop_pass_running (io : pass_io) (s : monitor) :
  is_paused s = false -> loop_pass io s = (sample_and_decide io ;; cadence io) s.
Proof. intros H. unfold loop_pass. run. rewrite H. reflexivity. Qed.



(** * Debounce (4.2) *)

(** C2, as stated, fails: with a cooldown of 2 * 10^12 ms the first
    invocation, at a clock reading of November 2026, is dropped, because
    [last_trigger_time] starts at 0 and the epoch is younger than the
    cooldown. *)
Lemma first_invocation_dropped_under_long_cooldown :
  press_key_run good_keyboard [example_clock] (init long_cooldown_config example_clock)
  <> debounce_spec (Config.cooldown_ms long_cooldown_config) None (map ms [example_clock]).
Proof. vm_compute. discriminate. Qed.

(** C2, amended: an invocation is accepted iff its timestamp is at least the
    cooldown after [last_trigger_time], which is 0 before any accepted
    invocation and the previous accepted timestamp afterwards; so the rule
    of the claim holds whenever the first timestamp is not below the
    cooldown. A dropped invocation returns with the monitor unchanged and
    no event; an accepted one has set [last_trigger_time] to its timestamp
    when [press_key] returns, also when the key action is only scheduled. *)
Theorem press_key_debounces (kb : keyboard) :
  (forall nows s,
      press_key_run kb nows s =
      debounce_spec (Config.cooldown_ms (config s)) (Some (last_trigger_time s)) (map ms nows))
  /\ (forall c clock, last_trigger_time (init c clock) = zero)
  /\ (forall c clock now nows,
        if ltb_int (ms now) (Config.cooldown_ms c) then True
        else press_key_run kb (now :: nows) (init c clock) =
             debounce_spec (Config.cooldown_ms c) None (map ms (now :: nows)))
  /\ (forall now s,
        let r := press_key kb now s in
        if ltb_int (F64.sub (ms now) (last_trigger_time s)) (Config.cooldown_ms (config s))
        then r = (Return tt, s, [])
        else is_dropped r = false
             /\ last_trigger_time (state_of r) = ms now
             /\ (if 0 <? Config.press_delay_ms (config s)
                 then state_of r = set_last_trigger_time (ms now) s
                 else r = _execute_press kb (set_last_trigger_time (ms now) s))).
Proof.
  split; [apply press_key_run_spec|].
  split; [reflexivity|].
  split.
  - intros c clock now nows.
    destruct (ltb_int (ms now) (Config.cooldown_ms c)) eqn:E; [exact I|].
    cbn [press_key_run map debounce_spec].
    pose proof (press_key_state kb now (init c clock)) as P. cbv zeta in P.
    destruct P as (Pc & Pd & Pt).
    change (last_trigger_time (init c clock)) with zero in Pd, Pt.
    rewrite sub_zero_r in Pd. change (config (init c clock)) with c in Pd, Pc.
    rewrite E in Pd. rewrite Pd in Pt |- *.
    rewrite press_key_run_spec, Pc, Pt. reflexivity.
  - intros now s. cbv zeta.
    pose proof (press_key_state kb now s) as P. cbv zeta in P.
    destruct P as (Pc & Pd & Pt).
    destruct (ltb_int _ _) eqn:E.
    + apply press_key_dropped, E.
    + rewrite Pd in Pt. repeat split; [exact Pd | exact Pt |].
      rewrite (press_key_accepted _ _ _ E).
      destruct (0 <? _); [|reflexivity].
      destruct (truediv_int _ _); reflexivity.
Qed.

(** * The trigger counter (4.2) *)


(** * Configuration file (6, 7a) *)

(** C5: when [config.json] is missing, or is UTF-8 text that is not JSON,
    [load_config] returns the default configuration, which holds every
    default key, and the file then holds these defaults; nothing is raised.
    When the bytes of the file are not UTF-8, which is not JSON either, the
    [UnicodeDecodeError] of the read is not among the exceptions caught:
    it leaves [load_config], and the file stays as it is. *)
Theorem load_config_recovers_from_text_only :
  load_config No_file = (Return default_config, Document default_config)
  /\ load_config Malformed = (Return default_config, Document default_config)
  /\ Forall (fun kv => default_map !! fst kv = Some (to_json (snd kv))) default_items
  /\ load_config Undecodable = (Raise UnicodeDecodeError, Undecodable).
Proof.
  split; [reflexivity|]. split; [reflexivity|].
  split; [|reflexivity].
  unfold default_items. repeat constructor.
Qed.

(** * Pause (4.1 step 2) *)

(** C9: a pass that finds the monitor paused sleeps 0.1 s and nothing else:
    no capture, no call of [press_key], and the monitor object, with its
    statistics and trigger state, is the same; the loop then goes on to its
    next pass without the cadence sleep. *)
Theorem paused_pass_only_sleeps (io : pass_io) (s : monitor) :
  is_paused s = true ->
  loop_pass io s = (Return tt, s, [Sleep tenth])
  /\ forall ios,
       passes (io :: ios) s =
       if is_running s
       then let '(r, s', t) := passes ios s in (r, s', Sleep tenth :: t)
       else (Return tt, s, []).
Proof.
  intros Hp.
  assert (L : loop_pass io s = (Return tt, s, [Sleep tenth])).
  { unfold loop_pass. run. rewrite Hp. reflexivity. }
  split; [exact L|].
  intros ios. cbn [passes]. run. destruct (is_running s); [|reflexivity].
  rewrite run_bind, L. reflexivity.
Qed.

Lemma paused_pass_only_sleeps_witness :
  is_paused paused_monitor = true
  /\ loop_pass example_io paused_monitor = (Return tt, paused_monitor, [Sleep tenth]).
Proof.
  split; [reflexivity|].
  apply (paused_pass_only_sleeps example_io paused_monitor). reflexivity.
Defined.

Lemma default_items_nodup : NoDup (map fst default_items).
Proof. compute_done. Qed.

Lemma lookup_default_map (k : string) :
  default_map !! k = to_json <$> (list_to_map default_items : gmap string default_value) !! k.
Proof.
  unfold default_map. generalize default_items. intros l.
  induction l as [|[k0 d0] l IH]; [reflexivity|].
  cbn [map list_to_map foldr fst snd].
  destruct (decide (k = k0)) as [->|Hne].
  - rewrite !lookup_insert_eq. reflexivity.
  - rewrite !lookup_insert_ne by congruence. exact IH.
Qed.

(** C4: for a loaded record whose nested groups are records, [load_config]
    returns the merge and does not raise: an absent top-level key gets its
    default; a present key outside the nested groups keeps its value; in a
    present nested group every present key keeps its value and every absent
    one gets the default; the file is left as it is. *)
Theorem load_config_backfills_missing_keys (m : gmap string json) :
  groups_are_records m ->
  let m' := merged m default_items in
  load_config (Document (JObj m)) = (Return (JObj m'), Document (JObj m))
  /\ (forall k, m !! k = None -> m' !! k = default_map !! k)
  /\ (forall k v, m !! k = Some v ->
        (forall items, ~ In (k, Group items) default_items) ->
        m' !! k = Some v)
  /\ (forall g items inner,
        In (g, Group items) default_items ->
        m !! g = Some (JObj inner) ->
        exists inner',
          m' !! g = Some (JObj inner')
          /\ forall sk, inner' !! sk =
               match inner !! sk with
               | Some v => Some v
               | None => (list_to_map items : gmap string json) !! sk
               end).
Proof.
  intros Hok m'.
  split.
  { unfold load_config, open_and_load. rewrite outcome_bind_return.
    unfold merge_defaults.
    rewrite (merge_loop default_items m default_items_nodup Hok). reflexivity. }
  subst m'.
  split; [|split].
  - intros k Hk. rewrite (lookup_merged _ _ _ default_items_nodup), lookup_default_map, Hk.
    destruct ((list_to_map default_items : gmap string default_value) !! k); reflexivity.
  - intros k v Hk Hng. rewrite (lookup_merged _ _ _ default_items_nodup), Hk.
    destruct ((list_to_map default_items : gmap string default_value) !! k)
      as [d|] eqn:Hd; [|reflexivity].
    destruct d as [w|items].
    + destruct v; reflexivity.
    + exfalso. apply (Hng items). apply list_elem_of_In.
      apply elem_of_list_to_map_2 in Hd. exact Hd.
  - intros g items inner Hin Hg.
    exists (inner ∪ list_to_map items).
    rewrite (lookup_merged _ _ _ default_items_nodup), Hg.
    rewrite (elem_of_list_to_map_1 default_items g (Group items)).
    + split; [reflexivity|]. intros sk. rewrite lookup_union.
      destruct (inner !! sk), ((list_to_map items : gmap string json) !! sk); reflexivity.
    + exact default_items_nodup.
    + apply list_elem_of_In, Hin.
Qed.

Lemma load_config_backfills_missing_keys_witness :
  groups_are_records partial_document
  /\ fst (load_config (Document (JObj partial_document)))
     = Return (JObj (merged partial_document default_items)).
Proof.
  assert (H : groups_are_records partial_document).
  { unfold groups_are_records, default_items. repeat constructor. }
  split; [exact H|].
  pose proof (load_config_backfills_missing_keys partial_document H) as T.
  cbv zeta in T. destruct T as [T _]. rewrite T. reflexivity.
Defined.

(** * The match ratio (4.1 step 5, 8) *)


Lemma np_sum_matched (target : Config.color) (tolerance : Z) (img : image) :
  np_sum (map (fun p => within tolerance (diff target p)) (data img)) =
  matched_count target tolerance img.
Proof.
  unfold matched_count. rewrite np_sum_count.
  f_equal. f_equal. apply list_filter_iff. intros p. apply within_spec.
Qed.

Lemma matched_count_bounds (target : Config.color) (tolerance : Z) (img : image) :
  0 <= matched_count target tolerance img <= Z.of_nat (length (data img)).
Proof.
  rewrite <- np_sum_matched.
  pose proof (np_sum_bounds (map (fun p => within tolerance (diff target p)) (data img))) as B.
  rewrite length_map in B. exact B.
Qed.

Lemma check_color_match_ratio (config : Config.t) (img : image) :
  fst (check_color_match config img) =
  percentage_of
    (matched_count (Config.target_color config) (Config.color_tolerance config) img)
    (Z.of_nat (length (data img))).
Proof. rewrite check_color_match_percentage, np_sum_matched. reflexivity. Qed.

Lemma image_size (img : image) :
  (0 < length (data img))%nat -> 0 < Z.of_nat (length (data img)) < 2 ^ 63.
Proof. intros H. pose proof (size_ok img). lia. Qed.

(** C7: on a frame with at least one pixel, for a target with channels in
    0..255, the percentage lies between 0 and 100 whatever the tolerance,
    and is exactly 100 at tolerance 255. *)
Theorem percentage_between_0_and_100 (config : Config.t) (img : image) :
  (0 < length (data img))%nat ->
  0 <= Config.r (Config.target_color config) <= 255 ->
  0 <= Config.g (Config.target_color config) <= 255 ->
  0 <= Config.b (Config.target_color config) <= 255 ->
  (forall tolerance,
      F64.leb zero (fst (check_color_match (with_tolerance tolerance config) img)) = true
      /\ F64.leb (fst (check_color_match (with_tolerance tolerance config) img)) hundred = true)
  /\ fst (check_color_match (with_tolerance 255 config) img) = hundred.
Proof.
  intros Hn Hr Hg Hb. pose proof (image_size img Hn) as Hs. split.
  - intros tolerance. rewrite check_color_match_ratio.
    pose proof (matched_count_bounds (Config.target_color config) tolerance img) as B.
    destruct (percentage_bounds _ _ B Hs) as (H0 & H100 & _). auto.
  - rewrite check_color_match_percentage. cbn [with_tolerance Config.color_tolerance Config.target_color].
    rewrite np_sum_all.
    + rewrite length_map. apply percentage_full, Hs.
    + apply Forall_map, Forall_forall. intros p _. apply within_spec.
      pose proof (channel_range (red p)). pose proof (channel_range (green p)).
      pose proof (channel_range (blue p)). lia.
Qed.

Lemma percentage_between_0_and_100_witness :
  F64.leb (fst (check_color_match (with_tolerance 30 example_config) example_image)) hundred = true
  /\ fst (check_color_match (with_tolerance 255 example_config) example_image) = hundred.
Proof.
  assert (H : (0 < length (data example_image))%nat) by (cbn; lia).
  destruct (percentage_between_0_and_100 example_config example_image H) as [A B];
    try (cbn; lia).
  split; [apply A | exact B].
Defined.

(** C8: for a fixed frame, with at least one pixel, and target, a larger
    tolerance never gives a smaller percentage. *)
Theorem percentage_monotone_in_tolerance
    (config : Config.t) (img : image) (t1 t2 : Z) :
  (0 < length (data img))%nat ->
  t1 <= t2 ->
  F64.leb (fst (check_color_match (with_tolerance t1 config) img))
          (fst (check_color_match (with_tolerance t2 config) img)) = true.
Proof.
  intros Hn Ht. pose proof (image_size img Hn) as Hs.
  rewrite !check_color_match_percentage.
  cbn [with_tolerance Config.color_tolerance Config.target_color].
  pose proof (np_sum_bounds (map (fun p => within t1 (diff (Config.target_color config) p)) (data img))) as B1.
  pose proof (np_sum_bounds (map (fun p => within t2 (diff (Config.target_color config) p)) (data img))) as B2.
  rewrite length_map in B1, B2.
  apply percentage_mono; try lia.
  split; [lia|].
  apply (np_sum_mono (fun p => within t1 (diff (Config.target_color config) p))
                     (fun p => within t2 (diff (Config.target_color config) p))).
  intros p. rewrite !within_spec. lia.
Qed.

Lemma percentage_monotone_in_tolerance_witness :
  F64.leb (fst (check_color_match (with_tolerance 0 example_config) example_image))
          (fst (check_color_match (with_tolerance 30 example_config) example_image)) = true.
Proof.
  apply (percentage_monotone_in_tolerance example_config example_image 0 30);
    cbn; lia.
Defined.

(** C10: the divisor is the number of pixels of the frame. For a frame with
    positive height and width it is not zero and the percentage is a finite
    number; for an empty frame it is zero and the result is NaN. For a
    target colour with channels in 0..255, where the differences numpy
    computes are the exact ones, the percentage is the number of matching
    pixels divided by that divisor, times 100. *)
Theorem percentage_defined_on_nonempty_frames (config : Config.t) (img : image) :
  let total_pixels := Z.of_nat (shape0 img) * Z.of_nat (shape1 img) in
  let percentage := fst (check_color_match config img) in
  let target := Config.target_color config in
  (0 <= Config.r target <= 255 /\ 0 <= Config.g target <= 255
   /\ 0 <= Config.b target <= 255 ->
   percentage =
     F64.mul (F64.div (of_int (matched_count target (Config.color_tolerance config) img))
                      (of_int total_pixels)) hundred)
  /\ if ((0 <? shape0 img) && (0 <? shape1 img))%nat
     then total_pixels <> 0 /\ is_finite percentage = true
     else total_pixels = 0 /\ percentage = S754_nan.
Proof.
  cbv zeta. split.
  - intros _. rewrite check_color_match_ratio, total_pixels_length. reflexivity.
  - rewrite check_color_match_ratio, total_pixels_length.
    pose proof (matched_count_bounds (Config.target_color config)
                  (Config.color_tolerance config) img) as B.
    pose proof (shape_ok img) as S.
    destruct (Nat.ltb_spec 0 (shape0 img)) as [H0 | H0];
      destruct (Nat.ltb_spec 0 (shape1 img)) as [H1 | H1]; cbn [andb].
    + assert (Hn : (0 < length (data img))%nat) by nia.
      pose proof (image_size img Hn) as Hs. split; [lia|].
      apply (percentage_bounds _ _ B Hs).
    + assert (Hn : length (data img) = 0%nat) by nia. rewrite Hn in *.
      split; [reflexivity|].
      replace (matched_count _ _ img) with 0 by (cbn in B; lia). reflexivity.
    + assert (Hn : length (data img) = 0%nat) by nia. rewrite Hn in *.
      split; [reflexivity|].
      replace (matched_count _ _ img) with 0 by (cbn in B; lia). reflexivity.
    + assert (Hn : length (data img) = 0%nat) by nia. rewrite Hn in *.
      split; [reflexivity|].
      replace (matched_count _ _ img) with 0 by (cbn in B; lia). reflexivity.
Qed.

Lemma percentage_defined_on_nonempty_frames_witness :
  fst (check_color_match example_config example_image) =
    F64.mul (F64.div (of_int (matched_count (Config.target_color example_config)
                                (Config.color_tolerance example_config) example_image))
                     (of_int (Z.of_nat (shape0 example_image) * Z.of_nat (shape1 example_image))))
            hundred
  /\ is_finite (fst (check_color_match example_config example_image)) = true.
Proof.
  destruct (percentage_defined_on_nonempty_frames example_config example_image) as [A B].
  split; [apply A; cbn; lia | apply B].
Defined.

(** * Match and decision (4.1 steps 5 and 6) *)



(** * Cadence (4.1 step 8) *)







(** * The literals and the scenarios of section 8 *)

(** The float literals of the source are the values written in this file,
    and they are binary64 values. *)
Lemma literals_are_exact :
  one = of_int 1 /\ hundred = of_int 100 /\ thousand = of_int 1000
  /\ tenth = F64.div (of_int 1) (of_int 10)
  /\ valid one = true /\ valid hundred = true /\ valid thousand = true
  /\ valid tenth = true.
Proof. repeat split; reflexivity. Qed.

(** 60 matching pixels of 100, threshold 50: the ratio is 60.0 and the pass
    calls [press_key], which presses the key once. *)
Lemma scenario_60_percent_fires :
  fst (check_color_match scenario_config frame_60) = of_int 60
  /\ In Call_press_key (trace_of (loop_pass (scenario_io frame_60) scenario_monitor))
  /\ trigger_count (state_of (loop_pass (scenario_io frame_60) scenario_monitor)) = 1.
Proof.
  split; [vm_compute; reflexivity|]. split; [|vm_compute; reflexivity].
  vm_compute. right. left. reflexivity.
Qed.

(** 40 matching pixels of 100, threshold 50: the ratio is 40.0 and the pass
    does not call [press_key]. *)
Lemma scenario_40_percent_does_not_fire :
  fst (check_color_match scenario_config frame_40) = of_int 40
  /\ ~ In Call_press_key (trace_of (loop_pass (scenario_io frame_40) scenario_monitor))
  /\ trigger_count (state_of (loop_pass (scenario_io frame_40) scenario_monitor)) = 0.
Proof.
  split; [vm_compute; reflexivity|]. split; [|vm_compute; reflexivity].
  vm_compute. intros [H | [H | []]]; discriminate H.
Qed.

(** Two invocations 50 ms apart under a cooldown of 100 ms: the second is
    dropped and the counter ends at 1. *)
Lemma scenario_second_trigger_dropped :
  press_key_run good_keyboard [example_clock; example_clock_50ms_later] scenario_monitor
  = [true; false]
  /\ trigger_count
       (state_of (press_key good_keyboard example_clock_50ms_later
                    (state_of (press_key good_keyboard example_clock scenario_monitor)))) = 1.
Proof. split; vm_compute; reflexivity. Qed.

(** The ratio is a binary64 number: for 29 matching pixels of 100 it is
    28.999999999999996, so a threshold of 29.0 is not reached. *)
Lemma ratio_of_29_percent_rounds_below :
  fst (check_color_match scenario_config frame_29)
  = S754_finite false 8162774324609023 (-48)
  /\ F64.ltb (fst (check_color_match scenario_config frame_29)) (of_int 29) = true.
Proof. split; vm_compute; reflexivity. Qed.

(** X14: A capture that raises: the pass logs, sleeps 0.1 s, keeps the
    monitor as it is, and goes on to the cadence step. *)
Lemma capture_error_is_transient (io : pass_io) (s : monitor) (e : exn) :
  grabbed io = Raise e ->
  sample_and_decide io s =
  (Return tt, s,
   [Grab (Config.monitor_region (config s)); Print (Monitor_error e); Sleep tenth]).
Proof.
  intros H. unfold sample_and_decide, try_except.
  rewrite run_bind, capture_screen_region_run, H. run. reflexivity.
Qed.

(** What [load_config] does not recover from: bytes that are not UTF-8, a
    document that is not an object, a nested group that is not one. *)
Lemma load_config_unhandled_errors :
  load_config Undecodable = (Raise UnicodeDecodeError, Undecodable)
  /\ fst (load_config (Document (JArr []))) = Raise TypeError
  /\ fst (load_config (Document (JObj {[ "monitor_region"%string := JNull ]})))
     = Raise TypeError.
Proof. repeat split; vm_compute; reflexivity. Qed.

Lemma capture_error_is_transient_witness :
  sample_and_decide
    {| perf_start := of_int 5; grabbed := Raise ScreenShotError;
       fps_clock := example_clock; press_clock := example_clock;
       kb := good_keyboard; perf_end := of_int 5 |}
    example_monitor
  = (Return tt, example_monitor,
     [Grab (Config.monitor_region example_config);
      Print (Monitor_error ScreenShotError); Sleep tenth]).
Proof.
  apply (capture_error_is_transient
           {| perf_start := of_int 5; grabbed := Raise ScreenShotError;
              fps_clock := example_clock; press_clock := example_clock;
              kb := good_keyboard; perf_end := of_int 5 |}
           example_monitor ScreenShotError).
  reflexivity.
Defined.

(** * load_config on every document *)

Lemma outcome_bind_raise {A B : Type} (e : exn) (f : A -> outcome B) :
  (Raise e ≫= f) = Raise e.
Proof. reflexivity. Qed.

Lemma for_each_cons {A S : Type} (body : S -> A -> outcome S) (x : A) (l : list A) (s : S) :
  for_each body (x :: l) s = body s x ≫= for_each body l.
Proof. reflexivity. Qed.

Lemma contains_object (m : gmap string json) (k : string) :
  Py.contains (JObj m) k = Return (bool_decide (is_Some (m !! k))).
Proof. reflexivity. Qed.

(** One pass of the inner loop on a record that holds the group key. *)
Lemma backfill_sub_cases (key : string) (m : gmap string json) (v : json)
    (sk : string) (sv : json) :
  m !! key = Some v ->
  backfill_sub key (JObj m) (sk, sv) =
  match Py.contains v sk with
  | Raise e => Raise e
  | Return true => Return (JObj m)
  | Return false =>
      match v with
      | JObj inner => Return (JObj (<[key := JObj (<[sk := sv]> inner)]> m))
      | _ => Raise TypeError
      end
  end.
Proof.
  intros Hm. unfold backfill_sub. cbn [Py.get]. rewrite Hm. cbn [default from_option].
  unfold id. rewrite outcome_bind_return.
  destruct (Py.contains v sk) as [[] | e]; cbn; try reflexivity.
  rewrite Hm. cbn. destruct v; reflexivity.
Qed.

Lemma contains_errors (v : json) (k : string) (e : exn) :
  Py.contains v k = Raise e -> e = TypeError.
Proof. destruct v; cbn; congruence. Qed.

(** The inner loop: what it returns holds every key of the group, and only
    the two errors of a value that is no record leave it. *)
Lemma backfill_sub_settles (key : string) (items : list (string * json)) :
  forall (m : gmap string json) (v : json),
    m !! key = Some v ->
    match for_each (backfill_sub key) items (JObj m) with
    | Return j' =>
        exists v', j' = JObj (<[key := v']> m) /\ holds_all v' items
                   /\ forall x, Py.contains v x = Return true ->
                                Py.contains v' x = Return true
    | Raise e => merge_error e
    end.
Proof.
  induction items as [|[sk sv] items IH]; intros m v Hm.
  - cbn. exists v. rewrite insert_id by exact Hm. repeat split; [constructor | auto].
  - rewrite for_each_cons, (backfill_sub_cases _ _ _ _ _ Hm).
    destruct (Py.contains v sk) as [[] | e] eqn:Hc.
    + rewrite outcome_bind_return. specialize (IH m v Hm).
      destruct (for_each _ items (JObj m)) as [j' | e]; [|exact IH].
      destruct IH as (v' & -> & Hall & Hgrow). exists v'. repeat split; auto.
      constructor; [apply Hgrow, Hc | exact Hall].
    + destruct v as [ | | | | | | inner]; try (left; reflexivity).
      rewrite outcome_bind_return.
      specialize (IH (<[key := JObj (<[sk := sv]> inner)]> m) (JObj (<[sk := sv]> inner))
                    (lookup_insert_eq _ _ _)).
      destruct (for_each _ items _) as [j' | e]; [|exact IH].
      destruct IH as (v' & -> & Hall & Hgrow). exists v'.
      rewrite insert_insert_eq. repeat split; auto.
      * constructor; [|exact Hall]. apply Hgrow. cbn [fst].
        rewrite contains_object, lookup_insert_eq.
        rewrite bool_decide_eq_true_2 by eauto. reflexivity.
      * intros x Hx. apply Hgrow. rewrite contains_object in *.
        injection Hx as Hx. apply bool_decide_eq_true_1 in Hx.
        rewrite bool_decide_eq_true_2; [reflexivity|].
        destruct (decide (x = sk)) as [->|Hne].
        -- rewrite lookup_insert_eq. eauto.
        -- rewrite lookup_insert_ne by congruence. exact Hx.
    + left. apply (contains_errors _ _ _ Hc).
Qed.

(** The inner loop on a value that is not a record of the loaded one. *)
Lemma backfill_sub_no_record (key : string) (j : json) (items : list (string * json)) :
  (forall m, j <> JObj m) ->
  for_each (backfill_sub key) items j =
  match items with [] => Return j | _ => Raise AttributeError end.
Proof.
  intros Hj. destruct items as [|[sk sv] items]; [reflexivity|].
  rewrite for_each_cons. unfold backfill_sub.
  destruct j; try reflexivity. exfalso. eapply Hj. reflexivity.
Qed.

(** The defaults hold their own keys. *)
Lemma defaults_hold_all (items : list (string * json)) :
  holds_all (JObj (list_to_map items)) items.
Proof.
  unfold holds_all. apply Forall_forall. intros [k v] Hin. cbn [fst].
  rewrite contains_object, bool_decide_eq_true_2; [reflexivity|].
  destruct (list_to_map items !! k) eqn:E; [eauto|].
  apply not_elem_of_list_to_map_2 in E. exfalso. apply E.
  apply list_elem_of_fmap. exists (k, v). split; [reflexivity | exact Hin].
Qed.

(** One pass of the outer loop on a record. *)
Lemma backfill_settles (m : gmap string json) (k : string) (d : default_value) :
  match backfill (JObj m) (k, d) with
  | Return j' => exists v', j' = JObj (<[k := v']> m) /\ settled_value d v'
  | Raise e => merge_error e
  end.
Proof.
  unfold backfill. rewrite contains_object, outcome_bind_return.
  destruct (m !! k) as [v|] eqn:Hk.
  - rewrite bool_decide_eq_true_2 by eauto. cbn [negb].
    destruct d as [w | items].
    + exists v. rewrite insert_id by exact Hk. split; [reflexivity | exact I].
    + pose proof (backfill_sub_settles k items m v Hk) as H.
      destruct (for_each _ items (JObj m)) as [j' | e]; [|exact H].
      destruct H as (v' & -> & Hall & _). exists v'. split; [reflexivity | exact Hall].
  - rewrite bool_decide_eq_false_2 by (intros [? ?]; congruence). cbn [negb Py.setitem].
    exists (to_json d). split; [reflexivity|].
    destruct d as [w | items]; [exact I | apply defaults_hold_all].
Qed.

(** One pass of the outer loop on anything else. *)
Lemma backfill_no_record (j : json) (k : string) (d : default_value) :
  (forall m, j <> JObj m) ->
  match backfill j (k, d) with
  | Return j' => j' = j
  | Raise e => merge_error e
  end.
Proof.
  intros Hj. unfold backfill.
  destruct j as [ | | | | s | l | m]; try (left; reflexivity).
  - cbn [Py.contains]. rewrite outcome_bind_return.
    destruct (Py.is_substring k s); cbn [negb]; [|left; reflexivity].
    destruct d as [w | items]; [reflexivity|].
    rewrite backfill_sub_no_record by exact Hj.
    destruct items; [reflexivity | right; reflexivity].
  - cbn [Py.contains]. rewrite outcome_bind_return.
    destruct (existsb (Py.is_str k) l); cbn [negb]; [|left; reflexivity].
    destruct d as [w | items]; [reflexivity|].
    rewrite backfill_sub_no_record by exact Hj.
    destruct items; [reflexivity | right; reflexivity].
  - exfalso. eapply Hj. reflexivity.
Qed.

Lemma record_or_not (j : json) : (exists m, j = JObj m) \/ (forall m, j <> JObj m).
Proof. destruct j; try (right; discriminate). left. eauto. Qed.

(** The merge loop raises nothing but the two errors. *)
Lemma for_each_backfill_errors (items : list (string * default_value)) :
  forall j e, for_each backfill items j = Raise e -> merge_error e.
Proof.
  induction items as [|[k d] items IH]; intros j e; [discriminate|].
  rewrite for_each_cons.
  destruct (backfill j (k, d)) as [j' | e'] eqn:Hb.
  - rewrite outcome_bind_return. apply IH.
  - rewrite outcome_bind_raise. intros [= <-].
    destruct (record_or_not j) as [[m ->] | Hj].
    + pose proof (backfill_settles m k d) as H. rewrite Hb in H. exact H.
    + pose proof (backfill_no_record j k d Hj) as H. rewrite Hb in H. exact H.
Qed.

(** The merge loop on a record: every default it went through is settled
    in the record it returns, and the other keys are as before. *)
Lemma merge_settles (items : list (string * default_value)) :
  forall (m : gmap string json) (r : json),
    NoDup (map fst items) ->
    for_each backfill items (JObj m) = Return r ->
    exists m', r = JObj m' /\ Forall (settled_at m') items
               /\ forall k, ~ In k (map fst items) -> m' !! k = m !! k.
Proof.
  induction items as [|[k d] items IH]; intros m r Hnd Hr.
  - injection Hr as <-. exists m.
    split; [reflexivity|]. split; [constructor | reflexivity].
  - rewrite for_each_cons in Hr. cbn [map fst] in Hnd.
    apply NoDup_cons in Hnd. destruct Hnd as [Hk Hnd].
    pose proof (backfill_settles m k d) as H.
    destruct (backfill (JObj m) (k, d)) as [j' | e]; [|discriminate].
    destruct H as (v' & -> & Hv'). rewrite outcome_bind_return in Hr.
    destruct (IH _ _ Hnd Hr) as (m' & -> & Hall & Hframe).
    exists m'. split; [reflexivity|]. split.
    + constructor; [|exact Hall]. exists v'. split; [|exact Hv']. cbn [fst].
      rewrite Hframe by (rewrite <- list_elem_of_In; exact Hk).
      apply lookup_insert_eq.
    + intros x Hx. cbn [map fst] in Hx. apply not_in_cons in Hx.
      destruct Hx as [Hxk Hx]. rewrite Hframe by exact Hx.
      apply lookup_insert_ne. congruence.
Qed.

(** A settled default is passed over. *)
Lemma backfill_settled (m : gmap string json) (item : string * default_value) :
  settled_at m item -> backfill (JObj m) item = Return (JObj m).
Proof.
  destruct item as [k d]. intros (v & Hk & Hv). cbn [fst snd] in *.
  unfold backfill. rewrite contains_object, outcome_bind_return.
  rewrite bool_decide_eq_true_2 by eauto. cbn [negb].
  destruct d as [w | items]; [reflexivity|]. cbn in Hv.
  induction Hv as [|[sk sv] items Hc Hall IH]; [reflexivity|].
  rewrite for_each_cons, (backfill_sub_cases _ _ _ _ _ Hk). cbn [fst] in Hc.
  rewrite Hc, outcome_bind_return. exact IH.
Qed.

Lemma merge_settled (m : gmap string json) (items : list (string * default_value)) :
  Forall (settled_at m) items -> for_each backfill items (JObj m) = Return (JObj m).
Proof.
  induction 1 as [|item items H Hall IH]; [reflexivity|].
  rewrite for_each_cons, (backfill_settled _ _ H), outcome_bind_return. exact IH.
Qed.

Lemma complete_settled (m : gmap string json) :
  complete m -> Forall (settled_at m) default_items.
Proof.
  unfold complete. intros H. eapply Forall_impl; [exact H|]. clear H.
  intros [k d]. unfold has_default, settled_at.
  cbn [fst snd]. destruct d as [w | items].
  - intros [v Hv]. exists v. split; [exact Hv | exact I].
  - intros (inner & Hk & Hall). exists (JObj inner). split; [exact Hk|].
    cbn. unfold holds_all. eapply Forall_impl; [exact Hall|]. intros kv H.
    rewrite contains_object, bool_decide_eq_true_2 by exact H. reflexivity.
Qed.

(** The first default is a group: nothing but a record passes it. *)
Lemma merge_defaults_no_record (j : json) :
  (forall m, j <> JObj m) ->
  exists e, merge_defaults j = Raise e /\ merge_error e.
Proof.
  intros Hj. unfold merge_defaults, default_items. rewrite for_each_cons.
  unfold backfill.
  destruct j as [ | | | | s | l | m]; try (exists TypeError; split; [reflexivity | left; reflexivity]).
  - cbn [Py.contains]. rewrite outcome_bind_return.
    destruct (Py.is_substring _ s); cbn [negb].
    + exists AttributeError. split; [reflexivity | right; reflexivity].
    + exists TypeError. split; [reflexivity | left; reflexivity].
  - cbn [Py.contains]. rewrite outcome_bind_return.
    destruct (existsb _ l); cbn [negb].
    + exists AttributeError. split; [reflexivity | right; reflexivity].
    + exists TypeError. split; [reflexivity | left; reflexivity].
  - exfalso. eapply Hj. reflexivity.
Qed.

Lemma load_config_document (j : json) :
  load_config (Document j) = (merge_defaults j, Document j).
Proof.
  unfold load_config. cbn [open_and_load]. rewrite outcome_bind_return.
  destruct (merge_defaults j) as [r | e] eqn:H; [reflexivity|].
  destruct (for_each_backfill_errors _ _ _ H) as [-> | ->]; reflexivity.
Qed.

(** * Properties of load_config and save_config *)

Lemma default_key_listed (k : string) :
  is_Some (default_map !! k) <-> In k (map fst default_items).
Proof.
  rewrite lookup_default_map, fmap_is_Some. split.
  - intros [d Hd]. apply elem_of_list_to_map_2 in Hd.
    apply list_elem_of_In. apply list_elem_of_fmap. exists (k, d). split; [reflexivity | exact Hd].
  - intros H. apply list_elem_of_In in H.
    destruct ((list_to_map default_items : gmap string default_value) !! k) eqn:E; [eauto|].
    apply not_elem_of_list_to_map_2 in E. contradiction.
Qed.

Lemma merge_defaults_settles (m : gmap string json) (r : json) :
  merge_defaults (JObj m) = Return r ->
  exists m', r = JObj m' /\ Forall (settled_at m') default_items
             /\ forall k, ~ In k (map fst default_items) -> m' !! k = m !! k.
Proof. apply merge_settles, default_items_nodup. Qed.

(** X1: A configuration file that is a JSON object with every default key,
    the two groups being objects with every nested key, is returned as it
    is: nothing is added, nothing raises, and the file is not written. *)
Theorem load_config_keeps_complete_config (m : gmap string json) :
  complete m ->
  load_config (Document (JObj m)) = (Return (JObj m), Document (JObj m)).
Proof.
  intros H. rewrite load_config_document. unfold merge_defaults.
  rewrite (merge_settled _ _ (complete_settled _ H)). reflexivity.
Qed.

Lemma default_map_complete : complete default_map.
Proof.
  unfold complete, default_items.
  repeat (apply Forall_cons; split);
    [ .. | apply Forall_nil].
  all: unfold has_default; cbn [fst snd].
  all: try (eexists; vm_compute; reflexivity).
  all: eexists; split; [vm_compute; reflexivity|].
  all: repeat (apply Forall_cons; split); try apply Forall_nil.
  all: eexists; vm_compute; reflexivity.
Defined.

Lemma load_config_keeps_complete_config_witness :
  load_config (Document default_config) = (Return default_config, Document default_config).
Proof.
  apply (load_config_keeps_complete_config default_map). exact default_map_complete.
Defined.

(** X2: What [load_config] returns is a fixed point of the merge: a file
    from which [json.load] returns this value loads to the same value, and
    is left as it is. This holds for the recovery from a missing or
    malformed file as for every file that loads. *)
Theorem load_config_is_idempotent (d : disk_file) (r : json) :
  fst (load_config d) = Return r ->
  load_config (Document r) = (Return r, Document r).
Proof.
  intros H.
  assert (Hr : exists m', r = JObj m' /\ Forall (settled_at m') default_items).
  { destruct d as [ | | | | | j]; try discriminate H.
    - injection H as <-. exists default_map. split; [reflexivity|].
      apply complete_settled, default_map_complete.
    - injection H as <-. exists default_map. split; [reflexivity|].
      apply complete_settled, default_map_complete.
    - rewrite load_config_document in H. cbn [fst] in H.
      destruct (record_or_not j) as [[m ->] | Hj].
      + destruct (merge_defaults_settles m r H) as (m' & -> & Hs & _). eauto.
      + destruct (merge_defaults_no_record j Hj) as (e & He & _). congruence. }
  destruct Hr as (m' & -> & Hs).
  rewrite load_config_document. unfold merge_defaults.
  rewrite (merge_settled _ _ Hs). reflexivity.
Qed.

Lemma load_config_is_idempotent_witness :
  load_config (Document default_config) = (Return default_config, Document default_config).
Proof.
  apply (load_config_is_idempotent No_file default_config). reflexivity.
Defined.


(** X4: A document loads only if it is a JSON object. What is returned is
    then an object that holds every default key, and in which every key
    that is no default key is as in the document. *)
Theorem load_config_returns_records (j r : json) :
  fst (load_config (Document j)) = Return r ->
  exists m m',
    j = JObj m /\ r = JObj m'
    /\ (forall k, is_Some (default_map !! k) -> is_Some (m' !! k))
    /\ (forall k, default_map !! k = None -> m' !! k = m !! k).
Proof.
  rewrite load_config_document. cbn [fst]. intros H.
  destruct (record_or_not j) as [[m ->] | Hj].
  - destruct (merge_defaults_settles m r H) as (m' & -> & Hs & Hf).
    exists m, m'. split; [reflexivity|]. split; [reflexivity|]. split.
    + intros k Hk. apply default_key_listed in Hk.
      apply in_map_iff in Hk. destruct Hk as ([k' d] & <- & Hin).
      rewrite Forall_forall in Hs. apply list_elem_of_In in Hin.
      destruct (Hs _ Hin) as (v & Hv & _). cbn [fst] in *. eauto.
    + intros k Hk. apply Hf. intros Hin. apply default_key_listed in Hin.
      rewrite Hk in Hin. destruct Hin as [? ?]. discriminate.
  - destruct (merge_defaults_no_record j Hj) as (e & He & _). congruence.
Qed.

Lemma load_config_returns_records_witness :
  exists m m',
    JObj partial_document = JObj m
    /\ JObj (merged partial_document default_items) = JObj m'
    /\ (forall k, is_Some (default_map !! k) -> is_Some (m' !! k))
    /\ (forall k, default_map !! k = None -> m' !! k = m !! k).
Proof.
  apply (load_config_returns_records (JObj partial_document)
           (JObj (merged partial_document default_items))).
  vm_compute. reflexivity.
Defined.

(** The dictionary of the window holds every default key. *)
Lemma read_form_complete (int_ : string -> option Z) (f : GUI.form)
    (dict : json) (view : Config.t) :
  GUI.read_form int_ f = Some (dict, view) ->
  exists m, dict = JObj m /\ complete m.
Proof.
  unfold GUI.read_form. intros H.
  repeat match type of H with
         | context [int_ ?a] =>
             destruct (int_ a); [cbn [mbind option_bind] in H | discriminate H]
         end.
  injection H as <- <-. eexists. split; [reflexivity|].
  unfold complete, default_items.
  repeat (apply Forall_cons; split);
    [ .. | apply Forall_nil].
  all: unfold has_default; cbn [fst snd].
  all: try (eexists; vm_compute; reflexivity).
  all: eexists; split; [vm_compute; reflexivity|].
  all: repeat (apply Forall_cons; split); try apply Forall_nil.
  all: eexists; vm_compute; reflexivity.
Qed.

(** X5: [save_config] of the window. When an entry does not convert, it
    returns [False] and leaves window and file as they were. When every
    entry converts, the dictionary of the entries becomes the configuration
    of the monitor, before the file is written and also when the write
    fails; the run state of the monitor is untouched. When the write
    succeeds it returns [True], the file holds the dictionary, and
    [load_config] returns this dictionary unchanged at the next start; when
    the write raises it returns [False]. *)
Theorem saved_config_loads_back (int_ : string -> option Z) (w : GUI.write_result)
    (f : GUI.form) (g : GUI.t) (d : disk_file) :
  match GUI.read_form int_ f with
  | None => GUI.save_config int_ w f g d = (false, g, d, [GUI.Showerror])
  | Some (dict, view) =>
      let '(ok, g', d', _) := GUI.save_config int_ w f g d in
      GUI.config_dict g' = dict
      /\ config (self (GUI.monitor g')) = view
      /\ is_running (self (GUI.monitor g')) = is_running (self (GUI.monitor g))
      /\ is_paused (self (GUI.monitor g')) = is_paused (self (GUI.monitor g))
      /\ trigger_count (self (GUI.monitor g')) = trigger_count (self (GUI.monitor g))
      /\ match w with
         | GUI.Written =>
             ok = true /\ d' = Document dict /\ load_config d' = (Return dict, d')
         | GUI.Write_fails _ left_behind => ok = false /\ d' = left_behind
         end
  end.
Proof.
  unfold GUI.save_config.
  destruct (GUI.read_form int_ f) as [[dict view]|] eqn:H; [|reflexivity].
  destruct w as [ | e left_behind]; cbv zeta; do 5 (split; [reflexivity|]).
  - split; [reflexivity|]. split; [reflexivity|].
    destruct (read_form_complete _ _ _ _ H) as (m & -> & Hm).
    unfold save_config. rewrite load_config_document. unfold merge_defaults.
    rewrite (merge_settled _ _ (complete_settled _ Hm)). reflexivity.
  - split; reflexivity.
Qed.

(** * Runs of the loop *)

Lemma same_controls_refl (s : monitor) : same_controls s s.
Proof. repeat split. Qed.

Lemma same_controls_trans (s1 s2 s3 : monitor) :
  same_controls s1 s2 -> same_controls s2 s3 -> same_controls s1 s3.
Proof. unfold same_controls. intros (? & ? & ?) (? & ? & ?). repeat split; congruence. Qed.

Lemma key_discipline_app (b : bool) (k : key) (t1 t2 : list event) :
  forall st,
    key_discipline b k st t1 = true ->
    key_discipline b k Idle t2 = true ->
    key_discipline b k st (t1 ++ t2) = true.
Proof.
  induction t1 as [|e t1 IH]; intros st H1 H2.
  - destruct st; [exact H2 | discriminate H1 | discriminate H1].
  - cbn [app]. destruct st, e as [ | | | | | [] | ]; cbn [key_discipline] in *;
      try discriminate H1;
      try (apply andb_true_iff in H1; destruct H1 as [-> H1]; cbn [andb]);
      apply IH; assumption.
Qed.

(** Sequencing two runs. *)
Lemma disciplined_seq (b : bool) (m : M unit) (f : M unit) (n1 n2 : Z) (s : monitor) :
  0 <= n2 ->
  disciplined b n1 s (m s) ->
  (forall s', same_controls s s' -> disciplined b n2 s' (f s')) ->
  disciplined b (n1 + n2) s ((m ;; f) s).
Proof.
  intros Hn (Hc & Ht & Hk & Hr) Hf. rewrite run_bind.
  destruct (m s) as [[[[] | e] s1] t1]; unfold state_of, trace_of, result_of in *;
    cbn [fst snd] in *.
  - specialize (Hf s1 Hc). destruct (f s1) as [[r2 s2] t2].
    destruct Hf as (Hc2 & Ht2 & Hk2 & Hr2). unfold disciplined.
    unfold state_of, trace_of, result_of in *. cbn [fst snd] in *.
    split; [eapply same_controls_trans; eassumption|]. split; [lia|]. split; [|exact Hr2].
    destruct Hc as (Hcfg & _). rewrite Hcfg in Hk2.
    apply key_discipline_app; assumption.
  - unfold disciplined, state_of, trace_of, result_of. cbn [fst snd].
    split; [exact Hc|]. split; [lia|]. split; [exact Hk | exact Hr].
Qed.

Lemma quiet_seq (m : M unit) (f : M unit) (s : monitor) :
  quiet s (m s) ->
  (forall s', quiet s' (f s')) ->
  quiet s ((m ;; f) s).
Proof.
  intros (Ht & Hl & Hq) Hf. rewrite run_bind.
  destruct (m s) as [[[[] | e] s1] t1]; unfold quiet, state_of, trace_of in *;
    cbn [fst snd] in *.
  - specialize (Hf s1). destruct (f s1) as [[r2 s2] t2]. cbn [fst snd] in *.
    destruct Hf as (Ht2 & Hl2 & Hq2).
    split; [congruence|]. split; [congruence|]. apply Forall_app. split; assumption.
  - split; [exact Ht|]. split; [exact Hl | exact Hq].
Qed.

(** The key action. With [b] false the keyboard is one that never
    raises. *)
Lemma execute_press_disciplined (b : bool) (kb : keyboard) (s : monitor) :
  (b = false -> never_raises kb) ->
  disciplined b 1 s (_execute_press kb s)
  /\ last_trigger_time (state_of (_execute_press kb s)) = last_trigger_time s.
Proof.
  intros Hb. pose proof (execute_press_cases kb s) as H. cbv zeta in H. rewrite H.
  set (k := key_of (lower (Config.press_key (config s)))).
  assert (Hk : b = false -> press_raises kb k = false /\ release_raises kb k = false)
    by (intros E; apply (Hb E)).
  unfold disciplined, same_controls, state_of, trace_of, result_of.
  destruct b.
  - destruct (press_raises kb k); [|destruct (release_raises kb k)];
      cbn [fst snd key_discipline andb config is_running is_paused trigger_count
           last_trigger_time set_trigger_count];
      fold k; rewrite ?bool_decide_eq_true_2 by reflexivity; cbn [andb];
      (split; [|reflexivity]); repeat split; auto; lia.
  - destruct (Hk eq_refl) as [-> ->].
    cbn [fst snd key_discipline andb config is_running is_paused trigger_count
         last_trigger_time set_trigger_count];
      fold k; rewrite ?bool_decide_eq_true_2 by reflexivity; cbn [andb];
      (split; [|reflexivity]); repeat split; auto; lia.
Qed.

(** A division by [1000.0] raises nothing but [OverflowError]. *)
Lemma truediv_thousand_errors (n : Z) (e : exn) :
  truediv_int n thousand = Raise e -> e = OverflowError.
Proof.
  unfold truediv_int, float_of_int. destruct (is_finite (of_int n)); cbn; congruence.
Qed.

Lemma press_key_disciplined (b : bool) (kb : keyboard) (now : f64) (s : monitor) :
  (b = false -> never_raises kb) ->
  disciplined b 1 s (press_key kb now s).
Proof.
  intros Hb.
  destruct (ltb_int (F64.sub (ms now) (last_trigger_time s)) (Config.cooldown_ms (config s)))
    eqn:E.
  - rewrite (press_key_dropped _ _ _ E).
    unfold disciplined, state_of, trace_of, result_of. cbn [fst snd key_discipline].
    split; [apply same_controls_refl|]. split; [lia|]. split; [reflexivity | left; reflexivity].
  - rewrite (press_key_accepted _ _ _ E).
    destruct (0 <? Config.press_delay_ms (config s)).
    + destruct (truediv_int _ thousand) as [delay_s | e] eqn:Hd;
        unfold disciplined, same_controls, state_of, trace_of, result_of;
        cbn [fst snd key_discipline config is_running is_paused trigger_count
             set_last_trigger_time];
        (split; [repeat split|]); (split; [lia|]); (split; [reflexivity|]).
      * left. reflexivity.
      * right. rewrite (truediv_thousand_errors _ _ Hd). reflexivity.
    + destruct (execute_press_disciplined b kb (set_last_trigger_time (ms now) s) Hb)
        as [(Hc & Ht & Hk & Hr) _].
      split; [|split; [|split]]; [| exact Ht | exact Hk | exact Hr].
      destruct Hc as (? & ? & ?). repeat split; assumption.
Qed.

(** The statistics update touches neither the controls nor the debounce
    state, and raises nothing but [OverflowError]. *)
Lemma update_fps_cases (current_time : f64) (s : monitor) :
  exists r s1,
    update_fps current_time s = (r, s1, [])
    /\ same_controls s s1
    /\ trigger_count s1 = trigger_count s
    /\ last_trigger_time s1 = last_trigger_time s
    /\ (r = Return tt \/ r = Raise OverflowError).
Proof.
  unfold update_fps. run. cbn [detection_count set_detection_count last_fps_check_time].
  destruct (F64.leb one (F64.sub current_time (last_fps_check_time s))) eqn:E.
  - apply leb_one_not_zero in E. unfold truediv_int, float_of_int.
    destruct (is_finite (of_int (detection_count s + 1))).
    + rewrite outcome_bind_return.
      destruct (F64.sub current_time (last_fps_check_time s)); try contradiction;
        run; do 2 eexists; (split; [reflexivity|]); repeat split; auto.
    + rewrite outcome_bind_raise. run. do 2 eexists. split; [reflexivity|].
      repeat split; auto.
  - run. do 2 eexists. split; [reflexivity|]. repeat split; auto.
Qed.

Ltac run_end := run; unfold emit; cbv beta iota.

(** The guarded part of a pass. *)
Lemma sample_and_decide_disciplined (b : bool) (io : pass_io) (s : monitor) :
  (b = false -> never_raises (kb io)) ->
  disciplined b 1 s (sample_and_decide io s)
  /\ result_of (sample_and_decide io s) = Return tt
  /\ (below_threshold (config s) io -> quiet s (sample_and_decide io s)).
Proof.
  intros Hb. unfold sample_and_decide, try_except, below_threshold.
  rewrite run_bind, capture_screen_region_run.
  destruct (grabbed io) as [img | e].
  2: { run_end. unfold disciplined, quiet, state_of, trace_of, result_of.
       cbn [fst snd app key_discipline].
       split; [|split; [reflexivity|]].
       - split; [apply same_controls_refl|]. split; [lia|]. split; [reflexivity|]. left. reflexivity.
       - intros _. split; [reflexivity|]. split; [reflexivity|]. repeat constructor. }
  destruct (update_fps_cases (fps_clock io) s) as (r & s1 & Hu & Hc & Ht & Hl & Hr).
  rewrite run_bind, Hu. destruct r as [[] | e].
  2: { run_end. unfold disciplined, quiet, state_of, trace_of, result_of.
       cbn [fst snd app key_discipline].
       split; [|split; [reflexivity|]].
       - split; [exact Hc|]. split; [lia|]. split; [reflexivity|]. left. reflexivity.
       - intros _. split; [exact Ht|]. split; [exact Hl|]. repeat constructor. }
  run. destruct Hc as (Hcfg & Hrun & Hpau). rewrite Hcfg.
  destruct (check_color_match (config s) img) as [percentage mask]. cbn [fst].
  destruct (F64.leb _ percentage).
  - run. destruct (press_key_disciplined b (kb io) (press_clock io) s1 Hb)
      as (Hc2 & Ht2 & Hk2 & Hr2).
    rewrite Hcfg in Hk2.
    destruct (press_key (kb io) (press_clock io) s1) as [[[[] | e] s2] t];
      unfold disciplined, quiet, state_of, trace_of, result_of in *;
      cbn [fst snd app key_discipline] in *; run_end; cbn [fst snd app key_discipline].
    + split; [|split; [reflexivity | discriminate]].
      split; [eapply same_controls_trans; [|exact Hc2]; repeat split; assumption|].
      split; [lia|]. split; [exact Hk2 | left; reflexivity].
    + split; [|split; [reflexivity | discriminate]].
      split; [eapply same_controls_trans; [|exact Hc2]; repeat split; assumption|].
      split; [lia|]. split; [|left; reflexivity].
      apply key_discipline_app; [exact Hk2 | reflexivity].
  - run. unfold disciplined, quiet, state_of, trace_of, result_of.
    cbn [fst snd app key_discipline].
    split; [|split; [reflexivity|]].
    + split; [repeat split; assumption|]. split; [lia|]. split; [reflexivity|]. left. reflexivity.
    + intros _. split; [exact Ht|]. split; [exact Hl|]. repeat constructor.
Qed.

Lemma truediv_thousand (n : Z) :
  truediv_int n thousand =
  match float_of_int n with
  | Return x => Return (F64.div x thousand)
  | Raise e => Raise e
  end.
Proof. unfold truediv_int. destruct (float_of_int n); reflexivity. Qed.

(** The cadence step. *)
Lemma cadence_run (io : pass_io) (s : monitor) :
  cadence io s =
  match float_of_int (Config.check_interval_ms (config s)) with
  | Raise e => (Raise e, s, [])
  | Return x =>
      let target_interval := F64.div x thousand in
      let time_to_wait :=
        F64.sub target_interval (F64.sub (perf_end io) (perf_start io)) in
      if gtb_int target_interval 0 && gtb_int time_to_wait 0 then
        if F64.ltb (nanoseconds time_to_wait) two63
        then (Return tt, s, [Sleep time_to_wait])
        else (Raise OverflowError, s, [])
      else (Return tt, s, [])
  end.
Proof.
  unfold cadence. run. rewrite truediv_thousand.
  destruct (float_of_int _) as [x | e]; [|reflexivity].
  run. cbv zeta. destruct (gtb_int (F64.div x thousand) 0); [|reflexivity].
  cbn [andb]. destruct (gtb_int _ 0) eqn:G; [|reflexivity].
  apply sleep_positive, G.
Qed.

Lemma float_of_int_errors (n : Z) :
  match float_of_int n with
  | Return _ => True
  | Raise e => e = OverflowError
  end.
Proof. unfold float_of_int. destruct (is_finite _); auto. Qed.

Lemma cadence_disciplined (b : bool) (io : pass_io) (s : monitor) :
  disciplined b 0 s (cadence io s) /\ quiet s (cadence io s).
Proof.
  rewrite cadence_run.
  pose proof (float_of_int_errors (Config.check_interval_ms (config s))) as H.
  unfold disciplined, quiet, state_of, trace_of, result_of.
  destruct (float_of_int _) as [x | e]; cbv zeta.
  - destruct (_ && _); [destruct (F64.ltb _ two63)|]; cbn [fst snd key_discipline];
      (split; [|repeat split; repeat constructor]);
      (split; [apply same_controls_refl|]); (split; [lia|]); (split; [reflexivity|]);
      auto.
  - subst e. cbn [fst snd key_discipline].
    split; [|repeat split; repeat constructor].
    split; [apply same_controls_refl|]. split; [lia|]. split; [reflexivity|]. auto.
Qed.

(** One pass. *)
Lemma loop_pass_disciplined (b : bool) (io : pass_io) (s : monitor) :
  (b = false -> never_raises (kb io)) ->
  disciplined b 1 s (loop_pass io s)
  /\ (is_paused s = true \/ below_threshold (config s) io -> quiet s (loop_pass io s)).
Proof.
  intros Hb. destruct (is_paused s) eqn:Hp.
  - unfold loop_pass. run. rewrite Hp. unfold emit, disciplined, quiet, state_of, trace_of, result_of.
    cbn [fst snd key_discipline]. split.
    + split; [apply same_controls_refl|]. split; [lia|]. split; [reflexivity | left; reflexivity].
    + intros _. repeat split. repeat constructor.
  - rewrite (loop_pass_running _ _ Hp). split.
    + change 1 with (1 + 0).
      apply disciplined_seq; [lia | apply sample_and_decide_disciplined, Hb|].
      intros s' _. apply cadence_disciplined.
    + intros [H | H]; [discriminate|]. apply quiet_seq.
      * apply (sample_and_decide_disciplined true); [discriminate | exact H].
      * intros s'. apply (cadence_disciplined true).
Qed.

Lemma disciplined_weaken (b : bool) (n n' : Z) (s : monitor) res :
  n <= n' -> disciplined b n s res -> disciplined b n' s res.
Proof.
  intros Hn (Hc & Ht & Hk & Hr). split; [exact Hc|]. split; [lia|]. split; assumption.
Qed.

Lemma disciplined_ret (b : bool) (s : monitor) : disciplined b 0 s ((mret tt : M unit) s).
Proof.
  rewrite run_ret. unfold disciplined, state_of, trace_of, result_of. cbn [fst snd key_discipline].
  split; [apply same_controls_refl|]. split; [lia|]. split; [reflexivity | left; reflexivity].
Qed.

Lemma quiet_ret (s : monitor) : quiet s ((mret tt : M unit) s).
Proof. rewrite run_ret. repeat split. constructor. Qed.

(** Any number of passes. *)
Lemma passes_disciplined (b : bool) (ios : list pass_io) :
  (b = false -> Forall (fun io => never_raises (kb io)) ios) ->
  forall s,
    disciplined b (Z.of_nat (length ios)) s (passes ios s)
    /\ (is_paused s = true \/ Forall (below_threshold (config s)) ios ->
        quiet s (passes ios s)).
Proof.
  induction ios as [|io ios IH]; intros Hb s.
  - cbn [passes length]. split; [apply disciplined_ret | intros _; apply quiet_ret].
  - cbn [passes]. rewrite run_get. destruct (is_running s).
    2: { split; [|intros _; apply quiet_ret].
         eapply disciplined_weaken; [|apply disciplined_ret]. lia. }
    assert (Hb1 : b = false -> never_raises (kb io)).
    { intros E. specialize (Hb E). apply Forall_cons in Hb. apply Hb. }
    assert (Hb2 : b = false -> Forall (fun io => never_raises (kb io)) ios).
    { intros E. specialize (Hb E). apply Forall_cons in Hb. apply Hb. }
    specialize (IH Hb2).
    destruct (loop_pass_disciplined b io s Hb1) as [Hd Hq]. split.
    + replace (Z.of_nat (length (io :: ios))) with (1 + Z.of_nat (length ios))
        by (cbn [length]; lia).
      apply disciplined_seq; [lia | exact Hd|]. intros s' _. apply IH.
    + intros H.
      assert (Hq' : quiet s (loop_pass io s)).
      { apply Hq. destruct H as [H | H]; [left; exact H | right].
        apply Forall_cons in H. apply H. }
      destruct Hd as ((Hcfg & _ & Hpau) & _).
      rewrite run_bind. destruct (loop_pass io s) as [[[[] | e] s1] t1] eqn:E;
        unfold quiet, state_of, trace_of in *; cbn [fst snd] in *; [|exact Hq'].
      destruct (IH s1) as [_ Hq2].
      assert (Hq3 : quiet s1 (passes ios s1)).
      { apply Hq2. destruct H as [H | H]; [left; congruence | right].
        apply Forall_cons in H. rewrite Hcfg. apply H. }
      destruct (passes ios s1) as [[r2 s2] t2].
      unfold quiet, state_of, trace_of in *; cbn [fst snd] in *.
      destruct Hq' as (? & ? & ?), Hq3 as (? & ? & ?).
      split; [congruence|]. split; [congruence|]. apply Forall_app. split; assumption.
Qed.

(** [monitor_loop], around its passes. *)
Lemma monitor_loop_run (now : f64) (sct : outcome unit) (ios : list pass_io) (s : monitor) :
  monitor_loop now sct ios s =
  let s0 := set_last_fps_check_time now (set_detection_count 0 s) in
  match sct with
  | Raise e => (Raise e, s0, [Print Monitor_started])
  | Return _ =>
      match passes ios s0 with
      | (Return _, s', t) =>
          (Return tt, s',
           Print Monitor_started
             :: t ++ (if is_running s' then [] else [Print Monitor_stopped]))
      | (Raise e, s', t) => (Raise e, s', Print Monitor_started :: t)
      end
  end.
Proof.
  unfold monitor_loop. run. destruct sct as [[] | e]; [|reflexivity].
  rewrite run_bind.
  destruct (passes ios _) as [[[[] | e] s'] t]; [|reflexivity].
  run. destruct (is_running s'); reflexivity.
Qed.

(** What a run of [monitor_loop] keeps: as for its passes, but for the
    exception the creation of the screen capture may raise. *)
Lemma monitor_loop_disciplined (b : bool) (now : f64) (sct : outcome unit)
    (ios : list pass_io) (s : monitor) :
  (b = false -> Forall (fun io => never_raises (kb io)) ios) ->
  let res := monitor_loop now sct ios s in
  same_controls s (state_of res)
  /\ trigger_count s <= trigger_count (state_of res)
       <= trigger_count s + Z.of_nat (length ios)
  /\ key_discipline b (key_of (lower (Config.press_key (config s)))) Idle
       (trace_of res) = true
  /\ (result_of res = Return tt \/ result_of res = Raise OverflowError
      \/ exists e, sct = Raise e /\ result_of res = Raise e)
  /\ (is_paused s = true \/ Forall (below_threshold (config s)) ios -> quiet s res).
Proof.
  intros Hb. cbv zeta. rewrite monitor_loop_run. cbv zeta.
  set (s0 := set_last_fps_check_time now (set_detection_count 0 s)).
  destruct sct as [[] | e0].
  2: { unfold quiet, state_of, trace_of, result_of. cbn [fst snd key_discipline].
       split; [repeat split|]. split; [cbn; lia|]. split; [reflexivity|].
       split; [right; right; eauto|]. intros _. repeat split. repeat constructor. }
  destruct (passes_disciplined b ios Hb s0) as [(Hc & Ht & Hk & Hr) Hq].
  change (config s0) with (config s) in *. change (is_paused s0) with (is_paused s) in *.
  change (trigger_count s0) with (trigger_count s) in *.
  change (last_trigger_time s0) with (last_trigger_time s) in *.
  assert (Hc' : forall s', same_controls s0 s' -> same_controls s s')
    by (intros s' H; exact H).
  destruct (passes ios s0) as [[[[] | e] s'] t];
    unfold quiet, state_of, trace_of, result_of in *; cbn [fst snd] in *.
  - split; [apply Hc', Hc|]. split; [exact Ht|]. split; [|split; [left; reflexivity|]].
    + cbn [key_discipline]. apply key_discipline_app; [exact Hk|].
      destruct (is_running s'); reflexivity.
    + intros H. destruct (Hq H) as (Hqt & Hql & Hqf).
      split; [exact Hqt|]. split; [exact Hql|]. constructor; [reflexivity|].
      apply Forall_app. split; [exact Hqf|].
      destruct (is_running s'); repeat constructor.
  - split; [apply Hc', Hc|]. split; [exact Ht|]. split; [exact Hk|].
    split; [destruct Hr as [Hr | Hr]; [discriminate Hr | right; left; exact Hr]|].
    intros H. destruct (Hq H) as (Hqt & Hql & Hqf).
    split; [exact Hqt|]. split; [exact Hql|]. constructor; [reflexivity | exact Hqf].
Qed.



(** ** The frame counter *)

Lemma seq_counter (m f : M unit) (n1 n2 : Z) (s : monitor) :
  0 <= n2 ->
  (0 <= detection_count s ->
   0 <= detection_count (state_of (m s)) <= detection_count s + n1) ->
  (forall s', 0 <= detection_count s' ->
              0 <= detection_count (state_of (f s')) <= detection_count s' + n2) ->
  0 <= detection_count s ->
  0 <= detection_count (state_of ((m ;; f) s)) <= detection_count s + (n1 + n2).
Proof.
  intros Hn Hm Hf H0. specialize (Hm H0). rewrite run_bind.
  destruct (m s) as [[[[] | e] s1] t1]; unfold state_of in *; cbn [fst snd] in *; [|lia].
  specialize (Hf s1 ltac:(lia)). destruct (f s1) as [[r2 s2] t2]. cbn [fst snd] in *. lia.
Qed.

Lemma execute_press_counter (kb : keyboard) (s : monitor) :
  detection_count (state_of (_execute_press kb s)) = detection_count s.
Proof.
  pose proof (execute_press_cases kb s) as H. cbv zeta in H. rewrite H.
  destruct (press_raises kb _); [|destruct (release_raises kb _)]; reflexivity.
Qed.

Lemma press_key_counter (kb : keyboard) (now : f64) (s : monitor) :
  detection_count (state_of (press_key kb now s)) = detection_count s.
Proof.
  destruct (ltb_int (F64.sub (ms now) (last_trigger_time s)) (Config.cooldown_ms (config s)))
    eqn:E.
  - rewrite (press_key_dropped _ _ _ E). reflexivity.
  - rewrite (press_key_accepted _ _ _ E).
    destruct (0 <? Config.press_delay_ms (config s)).
    + destruct (truediv_int _ thousand); reflexivity.
    + rewrite execute_press_counter. reflexivity.
Qed.

Lemma update_fps_counter (current_time : f64) (s : monitor) :
  detection_count (state_of (update_fps current_time s)) = 0
  \/ detection_count (state_of (update_fps current_time s)) = detection_count s + 1.
Proof.
  unfold update_fps. run. cbn [detection_count set_detection_count last_fps_check_time].
  destruct (F64.leb one _).
  - destruct (truediv_int _ _) as [rate | e]; run; [left | right]; reflexivity.
  - run. right. reflexivity.
Qed.

Lemma sample_and_decide_counter (io : pass_io) (s : monitor) :
  0 <= detection_count s ->
  0 <= detection_count (state_of (sample_and_decide io s)) <= detection_count s + 1.
Proof.
  intros H0. unfold sample_and_decide, try_except.
  rewrite run_bind, capture_screen_region_run.
  destruct (grabbed io) as [img | e]; [|run_end; unfold state_of; cbn [fst snd]; lia].
  pose proof (update_fps_counter (fps_clock io) s) as Hu.
  destruct (update_fps_cases (fps_clock io) s) as (r & s1 & Eu & _).
  rewrite Eu in Hu. unfold state_of in Hu. cbn [fst snd] in Hu.
  rewrite run_bind, Eu. destruct r as [[] | e]; [|run_end; unfold state_of; cbn [fst snd]; lia].
  run. destruct (check_color_match (config s1) img) as [percentage mask].
  destruct (F64.leb _ percentage).
  - run. pose proof (press_key_counter (kb io) (press_clock io) s1) as Hk.
    destruct (press_key (kb io) (press_clock io) s1) as [[[[] | e] s2] t];
      unfold state_of in *; cbn [fst snd] in *; run_end; cbn [fst snd]; lia.
  - run. unfold state_of. cbn [fst snd]. lia.
Qed.

Lemma loop_pass_counter (io : pass_io) (s : monitor) :
  0 <= detection_count s ->
  0 <= detection_count (state_of (loop_pass io s)) <= detection_count s + 1.
Proof.
  intros H0. destruct (is_paused s) eqn:Hp.
  - unfold loop_pass. run. rewrite Hp. unfold emit, state_of. cbn [fst snd]. lia.
  - rewrite (loop_pass_running _ _ Hp). change 1 with (1 + 0).
    apply seq_counter; [lia | apply sample_and_decide_counter | | exact H0].
    intros s' H'.
    destruct (cadence_cases io s') as [[r ->] | [d ->]]; unfold state_of; cbn [fst snd]; lia.
Qed.

Lemma passes_counter (ios : list pass_io) :
  forall s,
    0 <= detection_count s ->
    0 <= detection_count (state_of (passes ios s))
      <= detection_count s + Z.of_nat (length ios).
Proof.
  induction ios as [|io ios IH]; intros s H0.
  - cbn [passes length]. rewrite run_ret. unfold state_of. cbn [fst snd]. lia.
  - cbn [passes]. rewrite run_get. destruct (is_running s).
    2: { rewrite run_ret. unfold state_of. cbn [fst snd length]. lia. }
    replace (Z.of_nat (length (io :: ios))) with (1 + Z.of_nat (length ios))
      by (cbn [length]; lia).
    apply seq_counter; [lia | apply loop_pass_counter | apply IH | exact H0].
Qed.

(** * Properties of runs of monitor_loop *)

(** X10: Whatever the passes read from the screen, the clocks and the
    keyboard, and whether or not the screen capture can be created, a run
    of [monitor_loop] never writes the configuration nor the flags
    [is_running] and [is_paused], and the trigger counter never goes down:
    it grows by at most one per pass, and is not reset when the loop
    starts. *)
Theorem monitor_loop_keeps_controls
    (now : f64) (sct : outcome unit) (ios : list pass_io) (s : monitor) :
  let s' := state_of (monitor_loop now sct ios s) in
  config s' = config s
  /\ is_running s' = is_running s
  /\ is_paused s' = is_paused s
  /\ trigger_count s <= trigger_count s' <= trigger_count s + Z.of_nat (length ios).
Proof.
  destruct (monitor_loop_disciplined true now sct ios s ltac:(discriminate))
    as ((Hc & Hr & Hp) & Ht & _).
  cbv zeta. auto.
Qed.

(** X11: The key events of a run of the loop come in three shapes only:
    the press of the configured key (after the mapping of
    [_execute_press]), directly followed by its release and the message of
    the trigger for that key; the press and the message of the error it
    raised; the press, the release and the message of the error the
    release raised. So the loop presses no other key, every release is of
    that key and comes directly after its press, every press that did not
    raise is directly followed by its release, and no run ends between a
    press and its release. With a keyboard whose calls never raise, only
    the first shape occurs. *)
Theorem monitor_loop_presses_only_the_configured_key
    (now : f64) (sct : outcome unit) (ios : list pass_io) (s : monitor) :
  let k := key_of (lower (Config.press_key (config s))) in
  let trace := trace_of (monitor_loop now sct ios s) in
  key_discipline true k Idle trace = true
  /\ (Forall (fun io => never_raises (kb io)) ios ->
      key_discipline false k Idle trace = true).
Proof.
  cbv zeta. split.
  - apply (monitor_loop_disciplined true now sct ios s). discriminate.
  - intros H. apply (monitor_loop_disciplined false now sct ios s). intros _. exact H.
Qed.

Lemma good_keyboard_never_raises : never_raises good_keyboard.
Proof. intros k. split; reflexivity. Defined.

Lemma monitor_loop_presses_only_the_configured_key_witness :
  key_discipline false (key_of (lower (Config.press_key (config scenario_monitor)))) Idle
    (trace_of (monitor_loop example_clock (Return tt)
                 [scenario_io frame_60; scenario_io frame_40] scenario_monitor)) = true.
Proof.
  apply (monitor_loop_presses_only_the_configured_key example_clock (Return tt)
           [scenario_io frame_60; scenario_io frame_40] scenario_monitor).
  constructor; [exact good_keyboard_never_raises|].
  constructor; [exact good_keyboard_never_raises|]. constructor.
Defined.

(** X12: While the monitor is paused, or as long as every frame grabbed is
    below the threshold, a run of the loop performs no key action at all:
    no call of [press_key], no press, no release, no timer; the trigger
    counter and the time of the last trigger are as before. Errors of the
    capture and of the statistics do not change this. *)
Theorem no_key_action_below_threshold
    (now : f64) (sct : outcome unit) (ios : list pass_io) (s : monitor) :
  is_paused s = true \/ Forall (below_threshold (config s)) ios ->
  let res := monitor_loop now sct ios s in
  trigger_count (state_of res) = trigger_count s
  /\ last_trigger_time (state_of res) = last_trigger_time s
  /\ Forall (fun e => is_key_action e = false) (trace_of res).
Proof.
  intros H.
  apply (monitor_loop_disciplined true now sct ios s ltac:(discriminate)), H.
Qed.

Lemma no_key_action_below_threshold_witness :
  Forall (below_threshold (config scenario_monitor)) [scenario_io frame_40; scenario_io frame_29]
  /\ trigger_count
       (state_of (monitor_loop example_clock (Return tt)
                    [scenario_io frame_40; scenario_io frame_29]
                    scenario_monitor)) = 0.
Proof.
  assert (H : Forall (below_threshold (config scenario_monitor))
                [scenario_io frame_40; scenario_io frame_29]).
  { repeat constructor; vm_compute; reflexivity. }
  split; [exact H|].
  apply (no_key_action_below_threshold example_clock (Return tt)
           [scenario_io frame_40; scenario_io frame_29] scenario_monitor).
  right. exact H.
Defined.


(** X16: The frame counter of the statistics is a count: [monitor_loop]
    restarts it at zero, and after any number of passes it lies between
    zero and the number of passes, whatever these read. *)
Theorem detection_count_is_a_count
    (now : f64) (sct : outcome unit) (ios : list pass_io) (s : monitor) :
  0 <= detection_count (state_of (monitor_loop now sct ios s)) <= Z.of_nat (length ios).
Proof.
  rewrite monitor_loop_run. cbv zeta.
  destruct sct as [[] | e0]; [|unfold state_of; cbn; lia].
  pose proof (passes_counter ios (set_last_fps_check_time now (set_detection_count 0 s))
                ltac:(cbn; lia)) as H.
  cbn [detection_count set_detection_count set_last_fps_check_time] in H.
  destruct (passes ios _) as [[[[] | e] s'] t]; unfold state_of in *; cbn [fst snd] in *; lia.
Qed.

(** * Comparisons at the edges *)

(** A float that is positive is not below an integer that is not. *)
Lemma positive_not_below (x : f64) (C : Z) :
  gtb_int x 0 = true -> C <= 0 -> ltb_int x C = false.
Proof.
  intros Hx HC. pose proof (gtb_int_positive x) as P.
  destruct x as [s | [] | | [] m e]; try congruence; try reflexivity.
  unfold ltb_int, compare_int.
  assert (0 < 2 ^ e \/ e < 0) as [He | He].
  { destruct (Z_lt_le_dec e 0); [right; lia | left; apply Z.pow_pos_nonneg; lia]. }
  - destruct (0 <=? e).
    + destruct (Z.compare_spec (Z.pos m * 2 ^ e) C); try reflexivity. nia.
    + destruct (Z.compare_spec (Z.pos m) (C * 2 ^ (- e))); try reflexivity.
      assert (0 <= 2 ^ (- e)) by (apply Z.pow_nonneg; lia). nia.
  - destruct (0 <=? e) eqn:E; [apply Z.leb_le in E; lia|].
    destruct (Z.compare_spec (Z.pos m) (C * 2 ^ (- e))); try reflexivity.
    assert (0 <= 2 ^ (- e)) by (apply Z.pow_nonneg; lia). nia.
Qed.

(** A finite float of at least one is a normal number. *)
Lemma valid_above_one (x : f64) :
  valid x = true -> is_finite x = true -> F64.leb one x = true ->
  exists M E, normal x M E /\ SpecFloat.emin prec emax <= E.
Proof.
  intros Hv Hf H1. destruct x as [s | s | | s m e]; try discriminate.
  destruct s; [vm_compute in H1; discriminate|].
  destruct (valid_finite false m e Hv) as (He & Um & Lm).
  apply leb_finite in H1. exists m, e.
  assert (- 52 <= e) by lia.
  split; [|exact He]. split; [reflexivity|]. split; [|exact Um].
  apply Lm. unfold SpecFloat.emin, emax, prec. lia.
Qed.

(** The difference of a normal number with itself is zero. *)
Lemma sub_diag (M : positive) (E : Z) :
  F64.sub (S754_finite false M E) (S754_finite false M E) = zero.
Proof.
  unfold F64.sub, SFsub. cbn [cond_Zopp]. rewrite Z.sub_diag. reflexivity.
Qed.

(** Two floats of which neither is below the other, the second a positive
    finite one. *)
Lemma leb_not_ltb (e : f64) (M : positive) (E : Z) :
  F64.leb e (S754_finite false M E) = true ->
  F64.ltb e (S754_finite false M E) = false ->
  e = S754_finite false M E.
Proof.
  unfold F64.leb, F64.ltb, SFleb, SFltb, SFcompare.
  destruct e as [[] | [] | | [] m' e']; try discriminate.
  change (Pos.compare_cont Eq m' M) with (Pos.compare m' M).
  destruct (Z.compare_spec e' E) as [C | C | C]; try discriminate.
  destruct (Pos.compare_spec m' M) as [D | D | D]; try discriminate.
  intros _ _. subst. reflexivity.
Qed.

(** With a cooldown that is not positive, a timestamp that is not before
    the last trigger is not dropped. *)
Lemma not_below_cooldown (t last : f64) (C : Z) :
  C <= 0 ->
  valid t = true -> is_finite t = true -> F64.leb one t = true ->
  valid last = true -> is_finite last = true -> F64.leb last t = true ->
  ltb_int (F64.sub t last) C = false.
Proof.
  intros HC Vt Ft H1 Vl Fl Hle.
  destruct (valid_above_one t Vt Ft H1) as (M & E & N & HE).
  pose proof (sub_positive_iff_less t last M E N HE Vl Fl) as S.
  destruct (F64.ltb last t) eqn:L.
  - apply positive_not_below; assumption.
  - destruct N as [-> _]. rewrite (leb_not_ltb _ _ _ Hle L), sub_diag.
    unfold ltb_int, compare_int, zero.
    destruct (Z.compare_spec 0 C); try reflexivity. lia.
Qed.

(** The order of the percentage and a threshold outside [0, 100]. *)
Lemma leb_zero_cases (x : f64) :
  F64.leb zero x = true -> is_finite x = true ->
  (exists s, x = S754_zero s) \/ (exists m e, x = S754_finite false m e).
Proof.
  destruct x as [s | s | | [] m e]; try discriminate; eauto.
Qed.

Lemma below_zero_below_all (thr x : f64) :
  F64.leb thr zero = true -> F64.leb zero x = true -> is_finite x = true ->
  F64.leb thr x = true.
Proof.
  intros Ht Hx Hf.
  destruct (leb_zero_cases x Hx Hf) as [[s ->] | (m & e & ->)];
    destruct thr as [[] | [] | | [] m' e']; try discriminate; reflexivity.
Qed.

Lemma ltb_finite (M M' : positive) (E E' : Z) :
  F64.ltb (S754_finite false M E) (S754_finite false M' E') = true
  <-> E < E' \/ (E = E' /\ Z.pos M < Z.pos M').
Proof.
  unfold F64.ltb, SFltb, SFcompare.
  change (Pos.compare_cont Eq M M') with (Pos.compare M M').
  destruct (Z.compare_spec E E') as [C | C | C].
  - destruct (Pos.compare_spec M M') as [D | D | D]; split; intros H;
      try discriminate; try reflexivity; try lia.
  - split; [intros _; lia | reflexivity].
  - split; [discriminate | lia].
Qed.

Lemma above_hundred_above_all (thr x : f64) :
  F64.ltb hundred thr = true ->
  F64.leb zero x = true -> is_finite x = true -> F64.leb x hundred = true ->
  F64.leb thr x = false.
Proof.
  intros Ht Hx Hf Hh.
  destruct (leb_zero_cases x Hx Hf) as [[s ->] | (m & e & ->)];
    destruct thr as [[] | [] | | [] m' e']; try discriminate; try reflexivity.
  unfold hundred in *. apply ltb_finite in Ht. apply leb_finite in Hh.
  destruct (F64.leb (S754_finite false m' e') (S754_finite false m e)) eqn:L; [|reflexivity].
  apply leb_finite in L. lia.
Qed.

Lemma nan_above_all (x : f64) : F64.leb S754_nan x = false.
Proof. reflexivity. Qed.

(** ** The rate of the statistics *)

(** A count divided by a time of at least one second is positive and at
    most the count. *)
Lemma rate_bounds (n : Z) (elapsed : f64) :
  0 < n < 2 ^ 63 ->
  valid elapsed = true -> is_finite elapsed = true ->
  F64.leb one elapsed = true -> F64.leb elapsed (of_int (2 ^ 62)) = true ->
  F64.ltb zero (F64.div (of_int n) elapsed) = true
  /\ F64.leb (F64.div (of_int n) elapsed) (of_int n) = true.
Proof.
  intros Hn Hv Hf H1 Hb.
  destruct (valid_above_one elapsed Hv Hf H1) as (M2 & E2 & N2 & HE2).
  destruct (of_int_count n Hn) as (M1 & E1 & N1 & HE1 & R1 & L1 & U1).
  assert (HE : E2 <= 10).
  { destruct N2 as [-> HM2]. change (of_int (2 ^ 62)) with (S754_finite false 4503599627370496 10) in Hb.
    apply leb_finite in Hb. lia. }
  assert (L2 : (1 <= Fval M2 E2)%Q).
  { rewrite <- Fval_one. apply (leb_normal_values _ _ _ _ _ _ normal_one N2 H1). }
  destruct (div_rounded _ _ _ _ _ _ N1 N2) as [g R].
  { unfold SpecFloat.emin, emax, prec. lia. }
  { unfold emax. destruct N2 as [-> HM2]. apply leb_finite in H1. lia. }
  split.
  - destruct (rounded_normal _ _ _ R) as (M & E & [-> _] & _). reflexivity.
  - apply (rounded_mono _ _ _ _ _ _ R (normal_rounded _ _ _ N1)).
    pose proof (Fval_pos M1 E1) as P1.
    apply Qle_shift_div_r; [lra|].
    rewrite <- (Qmult_1_r (Fval M1 E1)) at 1.
    apply Qmult_le_l; [exact P1 | exact L2].
Qed.

(** * Properties at the edges of the configuration *)

(** X9: A cooldown of zero, or a negative one, switches the debounce off:
    as long as the clock does not go back, every invocation of [press_key]
    is accepted, from any state whose last trigger time is not after the
    first timestamp. *)
Theorem no_cooldown_accepts_every_invocation (kb : keyboard) (nows : list f64) :
  forall s : monitor,
    Config.cooldown_ms (config s) <= 0 ->
    valid (last_trigger_time s) = true ->
    is_finite (last_trigger_time s) = true ->
    non_decreasing (last_trigger_time s) (map ms nows) ->
    press_key_run kb nows s = repeat true (length nows).
Proof.
  induction nows as [|now nows IH]; intros s HC Vl Fl Hn; [reflexivity|].
  cbn [map non_decreasing] in Hn. destruct Hn as (Vt & Ft & H1 & Hle & Hn).
  cbn [press_key_run length repeat].
  pose proof (press_key_state kb now s) as P. cbv zeta in P. destruct P as (Pc & Pd & Pt).
  rewrite (not_below_cooldown _ _ _ HC Vt Ft H1 Vl Fl Hle) in Pd.
  rewrite Pd in *. cbn [negb]. f_equal.
  apply IH; rewrite ?Pc, ?Pt; assumption.
Qed.

Lemma no_cooldown_accepts_every_invocation_witness :
  press_key_run good_keyboard [example_clock; example_clock; example_clock_50ms_later]
    (init (with_cooldown 0 example_config) example_clock)
  = [true; true; true].
Proof.
  apply (no_cooldown_accepts_every_invocation good_keyboard
           [example_clock; example_clock; example_clock_50ms_later]
           (init (with_cooldown 0 example_config) example_clock)).
  - cbn. lia.
  - reflexivity.
  - reflexivity.
  - vm_compute. repeat split.
Defined.

Lemma empty_frame_percentage (c : Config.t) (img : image) :
  (shape0 img = 0 \/ shape1 img = 0)%nat ->
  fst (check_color_match c img) = S754_nan.
Proof.
  intros H. rewrite check_color_match_percentage.
  assert (L : length (data img) = 0%nat).
  { rewrite (shape_ok img). destruct H as [-> | ->]; lia. }
  destruct (data img); [|discriminate L]. apply percentage_empty.
Qed.

(** X8: A region of width or height zero never triggers: the frame has no
    pixel, the percentage is NaN, the comparison with the threshold fails
    whatever the threshold is, and the pass performs no key action. *)
Theorem empty_frame_never_triggers (io : pass_io) (s : monitor) (img : image) :
  grabbed io = Return img ->
  (shape0 img = 0 \/ shape1 img = 0)%nat ->
  let res := loop_pass io s in
  fst (check_color_match (config s) img) = S754_nan
  /\ trigger_count (state_of res) = trigger_count s
  /\ last_trigger_time (state_of res) = last_trigger_time s
  /\ Forall (fun e => is_key_action e = false) (trace_of res).
Proof.
  intros Hg He. split; [apply empty_frame_percentage, He|].
  apply (loop_pass_disciplined true io s ltac:(discriminate)). right.
  unfold below_threshold. rewrite Hg.
  rewrite (empty_frame_percentage _ _ He).
  destruct (Config.threshold_percentage (config s)) as [[]|[]| |[]]; reflexivity.
Qed.

Lemma empty_frame_never_triggers_witness :
  Forall (fun e => is_key_action e = false)
    (trace_of (loop_pass (scenario_io empty_image)
                 (set_is_running true (init (with_threshold zero scenario_config) example_clock)))).
Proof.
  apply (empty_frame_never_triggers (scenario_io empty_image)
           (set_is_running true (init (with_threshold zero scenario_config) example_clock))
           empty_image).
  - reflexivity.
  - left. reflexivity.
Defined.

(** X7: Thresholds outside the range of the slider, on a frame with at
    least one pixel: with a threshold of zero or below every frame reaches
    the threshold; with a threshold above 100, or one that is NaN, no frame
    does. *)
Theorem threshold_out_of_range (c : Config.t) (img : image) :
  (0 < length (data img))%nat ->
  let threshold := Config.threshold_percentage c in
  let percentage := fst (check_color_match c img) in
  (F64.leb threshold zero = true -> F64.leb threshold percentage = true)
  /\ (F64.ltb hundred threshold = true -> F64.leb threshold percentage = false)
  /\ (is_nan threshold = true -> F64.leb threshold percentage = false).
Proof.
  intros Hn. cbv zeta. rewrite check_color_match_ratio.
  pose proof (matched_count_bounds (Config.target_color c) (Config.color_tolerance c) img) as Hm.
  pose proof (image_size img Hn) as Hs.
  destruct (percentage_bounds _ _ Hm Hs) as (H0 & H100 & Hf).
  split; [|split].
  - intros H. apply below_zero_below_all; assumption.
  - intros H. apply above_hundred_above_all; assumption.
  - destruct (Config.threshold_percentage c); try discriminate. reflexivity.
Qed.

Lemma threshold_out_of_range_witness :
  F64.leb zero (fst (check_color_match (with_threshold zero example_config) example_image))
  = true.
Proof.
  apply (threshold_out_of_range (with_threshold zero example_config) example_image).
  - cbn. lia.
  - reflexivity.
Defined.

(** X15: The statistics of the loop, for a counter that is a count of
    frames. The update never raises; in particular it never divides by
    zero, because the rate is computed only when at least one second has
    passed. It then stores the rate, count / elapsed, restarts the counter
    at 0 and the period at the current time; otherwise it only counts the
    frame. For an elapsed time that is a finite number of at most 2^62
    seconds the rate is positive and at most the number of frames. *)
Theorem fps_reading_is_bounded (current_time : f64) (s : monitor) :
  0 <= detection_count s < 2 ^ 62 ->
  let elapsed := F64.sub current_time (last_fps_check_time s) in
  let count := detection_count s + 1 in
  let s' := state_of (update_fps current_time s) in
  result_of (update_fps current_time s) = Return tt
  /\ if F64.leb one elapsed
     then fps s' = F64.div (of_int count) elapsed
          /\ detection_count s' = 0
          /\ last_fps_check_time s' = current_time
          /\ (valid elapsed = true -> is_finite elapsed = true ->
              F64.leb elapsed (of_int (2 ^ 62)) = true ->
              F64.ltb zero (fps s') = true /\ F64.leb (fps s') (of_int count) = true)
     else fps s' = fps s
          /\ detection_count s' = count
          /\ last_fps_check_time s' = last_fps_check_time s.
Proof.
  intros Hc. cbv zeta. unfold update_fps. run.
  cbn [detection_count set_detection_count last_fps_check_time].
  destruct (F64.leb one (F64.sub current_time (last_fps_check_time s))) eqn:E.
  - unfold truediv_int. rewrite float_of_int_count by lia.
    rewrite outcome_bind_return.
    pose proof (leb_one_not_zero _ E) as Z.
    assert (R : (match F64.sub current_time (last_fps_check_time s) with
                 | S754_zero _ => Raise ZeroDivisionError
                 | _ => Return (F64.div (of_int (detection_count s + 1))
                                  (F64.sub current_time (last_fps_check_time s)))
                 end : outcome f64)
                = Return (F64.div (of_int (detection_count s + 1))
                            (F64.sub current_time (last_fps_check_time s)))).
    { destruct (F64.sub current_time (last_fps_check_time s)); try contradiction; reflexivity. }
    rewrite R. run. unfold modify, state_of, result_of. cbn [fst snd].
    split; [reflexivity|]. repeat split.
    + apply rate_bounds; try assumption; lia.
    + apply rate_bounds; try assumption; lia.
  - run. unfold state_of, result_of. cbn [fst snd]. repeat split.
Qed.

Lemma fps_reading_is_bounded_witness :
  result_of (update_fps (of_int 1793700002) example_monitor) = Return tt
  /\ fps (state_of (update_fps (of_int 1793700002) example_monitor))
     = F64.div (of_int 1) (of_int 2).
Proof.
  pose proof (fps_reading_is_bounded (of_int 1793700002) example_monitor) as H.
  cbv zeta in H. destruct H as [H1 H2]; [cbn; lia|].
  split; [exact H1|].
  change (F64.leb one (F64.sub (of_int 1793700002) (last_fps_check_time example_monitor)))
    with true in H2.
  destruct H2 as (H2 & _). rewrite H2. vm_compute. reflexivity.
Defined.

(** X6: The percentage depends on which pixels the frame holds and not on
    where they are: two frames whose pixels are the same up to their order
    give the same percentage. *)
Theorem percentage_ignores_pixel_positions (c : Config.t) (img img' : image) :
  Permutation (data img) (data img') ->
  fst (check_color_match c img) = fst (check_color_match c img').
Proof.
  intros H. rewrite !check_color_match_ratio. unfold matched_count.
  rewrite (Permutation_length H).
  assert (F : Permutation
                (filter (color_matches (Config.target_color c) (Config.color_tolerance c)) (data img))
                (filter (color_matches (Config.target_color c) (Config.color_tolerance c)) (data img')))
    by (apply filter_Permutation, H).
  rewrite (Permutation_length F). reflexivity.
Qed.

Lemma percentage_ignores_pixel_positions_witness :
  fst (check_color_match example_config example_image)
  = fst (check_color_match example_config
           {| shape0 := 1; shape1 := 4;
              data := [black_pixel; red_pixel; black_pixel; black_pixel];
              shape_ok := eq_refl; size_ok := eq_refl |}).
Proof.
  apply (percentage_ignores_pixel_positions example_config example_image).
  cbn [data example_image]. apply perm_swap.
Defined.

(** * The window *)

(** ** Strings *)

Lemma lower_cons (c : ascii) (s : string) :
  lower (String c s) = String (lower_ascii c) (lower s).
Proof. reflexivity. Qed.

Lemma append_cons (c : ascii) (a b : string) : String c a +:+ b = String c (a +:+ b).
Proof. reflexivity. Qed.

(** Lower case around a plus sign, which has no case and does not join
    the letters on its two sides: each side is lowered on its own. *)
Lemma lower_around_plus (a b : string) :
  lower (a +:+ String "+" b) = lower a +:+ String "+" (lower b).
Proof.
  induction a as [|c a IH]; [reflexivity|].
  rewrite append_cons, !lower_cons, IH. reflexivity.
Qed.

Lemma split_nonempty (sep : ascii) (s : string) : Str.split sep s <> [].
Proof.
  destruct s as [|c s]; cbn [Str.split]; [discriminate|].
  destruct (Ascii.eqb c sep); [discriminate|].
  destruct (Str.split sep s); discriminate.
Qed.

(** Splitting at a separator that is written out. *)
Lemma split_app (sep : ascii) (a b : string) :
  Str.split sep (a +:+ String sep b) = Str.split sep a ++ Str.split sep b.
Proof.
  induction a as [|c a IH].
  - change ("" +:+ String sep b) with (String sep b).
    cbn [Str.split app]. rewrite Ascii.eqb_refl. reflexivity.
  - rewrite append_cons. cbn [Str.split].
    destruct (Ascii.eqb c sep); rewrite IH; [reflexivity|].
    pose proof (split_nonempty sep a) as H.
    destruct (Str.split sep a); [contradiction | reflexivity].
Qed.

(** ** The controls *)

Lemma start_monitoring_consistent (g : GUI.t) :
  consistent g -> consistent (fst (GUI.start_monitoring g)).
Proof.
  destruct g as [[m th] cd sb pb pt stb pk]. unfold consistent, GUI.start_monitoring, start_monitoring.
  cbn [GUI.monitor self monitor_thread GUI.start_btn GUI.pause_btn GUI.stop_btn GUI.pause_btn_text].
  destruct (is_running m) eqn:R; cbn [negb fst GUI.set_buttons GUI.set_monitor GUI.monitor self
    monitor_thread GUI.start_btn GUI.pause_btn GUI.stop_btn GUI.pause_btn_text
    is_running is_paused set_is_running set_is_paused].
  - rewrite R. intros (_ & _ & _ & H & T). auto.
  - intros (_ & _ & _ & H). auto.
Qed.

Lemma stop_monitoring_consistent (g : GUI.t) :
  consistent (fst (GUI.stop_monitoring g)).
Proof.
  destruct g as [[m th] cd sb pb pt stb pk]. unfold consistent, GUI.stop_monitoring, stop_monitoring.
  cbn. auto.
Qed.

Lemma pause_monitoring_consistent (g : GUI.t) :
  consistent g -> is_running (self (GUI.monitor g)) = true ->
  consistent (fst (GUI.pause_monitoring g)).
Proof.
  destruct g as [[m th] cd sb pb pt stb pk]. unfold consistent, GUI.pause_monitoring.
  cbn [GUI.monitor self monitor_thread GUI.start_btn GUI.pause_btn GUI.stop_btn GUI.pause_btn_text].
  intros H R. rewrite R in H. destruct H as (H1 & H2 & H3 & H4 & H5).
  destruct (is_paused m) eqn:P; cbn; rewrite R; auto.
Qed.

Lemma set_pressed_keys_consistent (keys : gset string) (g : GUI.t) :
  consistent g -> consistent (GUI.set_pressed_keys keys g).
Proof. destruct g. exact (fun H => H). Qed.

Lemma click_consistent (b : GUI.button) (g : GUI.t) :
  consistent g -> consistent (fst (GUI.click b g)).
Proof.
  intros H. destruct b; unfold GUI.click.
  - destruct (GUI.start_btn g); [apply start_monitoring_consistent, H | exact H].
  - destruct (GUI.pause_btn g) eqn:E; [|exact H].
    apply pause_monitoring_consistent; [exact H|].
    unfold consistent in H. destruct (is_running _); [reflexivity|].
    destruct H as (_ & H & _). congruence.
  - destruct (GUI.stop_btn g); [apply stop_monitoring_consistent | exact H].
Qed.

(** What [on_press] does: it may add the key, and schedules at most one
    callback, chosen by [check_and_trigger_hotkeys] on the keys then held. *)
Lemma on_press_cases (key : GUI.pynput_key) (g : GUI.t) :
  GUI.on_press key g = (g, [])
  \/ exists key_str,
       GUI.get_key_str key = Some key_str
       /\ Str.truthy key_str = true
       /\ (key_str ∉ GUI.pressed_keys g)
       /\ (let g' := GUI.set_pressed_keys ({[ key_str ]} ∪ GUI.pressed_keys g) g in
           GUI.on_press key g =
           (g', match GUI.check_and_trigger_hotkeys g' with
                | Return (Some cb) => [GUI.After cb]
                | Return None => []
                | Raise e => [GUI.Log_message (GUI.Hotkey_press_error e)]
                end)).
Proof.
  unfold GUI.on_press. destruct (GUI.get_key_str key) as [key_str|]; [|left; reflexivity].
  destruct (Str.truthy key_str) eqn:T; [|left; reflexivity].
  destruct (bool_decide (key_str ∈ GUI.pressed_keys g)) eqn:E; [left; reflexivity|].
  apply bool_decide_eq_false_1 in E.
  right. exists key_str. split; [reflexivity|]. split; [exact T|]. split; [exact E|].
  cbv zeta. cbn [andb negb].
  destruct (GUI.check_and_trigger_hotkeys _) as [[cb|] | e]; reflexivity.
Qed.

Lemma hotkey_object (m : gmap string json) (k d : string) :
  GUI.hotkey (JObj m) k d =
  match default (JStr d) (m !! k) with
  | JStr s => Return (list_to_set (Str.split "+" (lower s)))
  | _ => Raise AttributeError
  end.
Proof. reflexivity. Qed.

(** The callback scheduled and the keys held. *)
Lemma check_and_trigger_sound (g : GUI.t) (cb : GUI.callback) :
  GUI.check_and_trigger_hotkeys g = Return (Some cb) ->
  GUI.hotkey (GUI.config_dict g) (fst (hotkey_of cb)) (snd (hotkey_of cb))
    = Return (GUI.pressed_keys g)
  /\ match cb with
     | GUI.Stop_monitoring | GUI.Pause_monitoring =>
         is_running (self (GUI.monitor g)) = true
     | GUI.Start_monitoring => is_running (self (GUI.monitor g)) = false
     | GUI.Start_screenshot => True
     end.
Proof.
  unfold GUI.check_and_trigger_hotkeys.
  destruct (GUI.hotkey _ "hotkey_start_stop" _) as [h1|] eqn:H1; [|discriminate].
  destruct (GUI.hotkey _ "hotkey_pause_resume" _) as [h2|] eqn:H2; [|discriminate].
  destruct (GUI.hotkey _ "hotkey_screenshot" _) as [h3|] eqn:H3; [|discriminate].
  cbn [mbind outcome_bind].
  destruct (bool_decide (GUI.pressed_keys g = h1)) eqn:E1.
  { apply bool_decide_eq_true_1 in E1. subst h1.
    destruct (is_running _) eqn:R; intros [= <-]; cbn [hotkey_of fst snd]; auto. }
  destruct (bool_decide (GUI.pressed_keys g = h2)) eqn:E2.
  { apply bool_decide_eq_true_1 in E2. subst h2.
    destruct (is_running _) eqn:R; intros [= <-]; cbn [hotkey_of fst snd]; auto. }
  destruct (bool_decide (GUI.pressed_keys g = h3)) eqn:E3; [|discriminate].
  apply bool_decide_eq_true_1 in E3. subst h3.
  intros [= <-]. cbn [hotkey_of fst snd]. auto.
Qed.

Lemma run_callback_consistent (cb : GUI.callback) (g : GUI.t) :
  consistent g ->
  GUI.check_and_trigger_hotkeys g = Return (Some cb) ->
  consistent (fst (GUI.run_callback cb g)).
Proof.
  intros H Hc. apply check_and_trigger_sound in Hc. destruct Hc as [_ Hr].
  destruct cb; cbn [GUI.run_callback fst].
  - apply stop_monitoring_consistent.
  - apply start_monitoring_consistent, H.
  - apply pause_monitoring_consistent; assumption.
  - exact H.
Qed.

Lemma on_release_consistent (key : GUI.pynput_key) (g : GUI.t) :
  consistent g -> consistent (fst (GUI.on_release key g)).
Proof.
  intros H. unfold GUI.on_release. destruct (GUI.get_key_str key); [|exact H].
  destruct (bool_decide _); [apply set_pressed_keys_consistent, H | exact H].
Qed.

Lemma react_consistent (i : input) (g : GUI.t) :
  consistent g -> consistent (fst (react i g)).
Proof.
  intros H. destruct i as [b | key | key]; cbn [react].
  - apply click_consistent, H.
  - destruct (on_press_cases key g) as [-> | (ks & _ & _ & _ & E)]; [exact H|].
    cbv zeta in E. rewrite E.
    set (g' := GUI.set_pressed_keys _ g) in *.
    assert (H' : consistent g') by apply set_pressed_keys_consistent, H.
    destruct (GUI.check_and_trigger_hotkeys g') as [[cb|] | e] eqn:Hc; try exact H'.
    pose proof (run_callback_consistent cb g' H' Hc) as H''.
    destruct (GUI.run_callback cb g'). exact H''.
  - apply on_release_consistent, H.
Qed.

Lemma session_consistent (inputs : list input) :
  forall g, consistent g -> consistent (fst (session inputs g)).
Proof.
  induction inputs as [|i inputs IH]; intros g H; [exact H|].
  cbn [session]. pose proof (react_consistent i g H) as H1.
  destruct (react i g) as [g1 e1]. specialize (IH g1 H1).
  destruct (session inputs g1). exact IH.
Qed.

(** ** The colour of the preview *)

(** Two digits for every value of a channel, and the value is read back
    from them. *)
Lemma format_02x_channel (n : Z) :
  0 <= n <= 255 ->
  String.length (Str.format_02x n) = 2%nat /\ hex_value (Str.format_02x n) = Some n.
Proof.
  intros Hn.
  assert (H : Forall (fun k : nat =>
                        String.length (Str.format_02x (Z.of_nat k)) = 2%nat
                        /\ hex_value (Str.format_02x (Z.of_nat k)) = Some (Z.of_nat k))
                (seq 0 256)).
  { refine (bool_decide_eq_true_1 _ _). vm_compute. reflexivity. }
  rewrite Forall_forall in H. specialize (H (Z.to_nat n)).
  rewrite Z2Nat.id in H by lia. apply H. apply elem_of_seq. lia.
Qed.

Lemma length_two (s : string) :
  String.length s = 2%nat -> exists a b, s = String a (String b EmptyString).
Proof.
  destruct s as [|a [|b [|c s]]]; try discriminate. intros _. eauto.
Qed.

(** * Properties of the window *)

Set Warnings "-clear-no-such-hyp".

(** X18: Through every sequence of clicks and key events, from the window
    as it is created, the three buttons and the text of the pause button
    tell the state of the monitor: while it runs, start is disabled, pause
    and stop are enabled and the pause button reads "resume" exactly when
    the monitor is paused; while it does not run, only start is enabled and
    the pause button reads "pause". *)
Theorem window_stays_consistent (inputs : list input)
    (dict : json) (view : Config.t) (now : f64) :
  consistent (fst (session inputs (GUI.init dict view now))).
Proof. apply session_consistent. cbn. auto. Qed.

(** X19: A key that is held fires its hot key once: a second press event
    for the same key, as the keyboard repeats it, changes nothing and
    schedules nothing. After the release the key is no longer held and the
    other held keys are as before. *)
Theorem held_key_fires_once (key : GUI.pynput_key) (g : GUI.t) :
  GUI.on_press key (fst (GUI.on_press key g)) = (fst (GUI.on_press key g), [])
  /\ GUI.pressed_keys (fst (GUI.on_release key (fst (GUI.on_press key g)))) =
       match GUI.get_key_str key with
       | Some key_str => GUI.pressed_keys g ∖ {[ key_str ]}
       | None => GUI.pressed_keys g
       end.
Proof.
  destruct (on_press_cases key g) as [E | (ks & K & T & Hn & E)].
  - rewrite E. cbn [fst]. split; [exact E|].
    unfold GUI.on_release. destruct (GUI.get_key_str key) as [ks|]; [|reflexivity].
    destruct (bool_decide (ks ∈ GUI.pressed_keys g)) eqn:D; [reflexivity|].
    apply bool_decide_eq_false_1 in D. cbn [fst]. set_solver.
  - cbv zeta in E. rewrite E. cbn [fst].
    set (g' := GUI.set_pressed_keys _ g).
    assert (Hin : bool_decide (ks ∈ GUI.pressed_keys g') = true)
      by (apply bool_decide_eq_true_2; cbn; set_solver).
    unfold GUI.on_press, GUI.on_release. rewrite K, T, Hin. cbn [andb negb fst].
    split; [reflexivity|]. cbn. set_solver.
Qed.

Lemma hotkey_of_string (m : gmap string json) (k d s : string) :
  GUI.hotkey (JObj (<[k := JStr s]> m)) k d
  = Return (list_to_set (Str.split "+" (lower s))).
Proof. rewrite hotkey_object, lookup_insert_eq. reflexivity. Qed.

(** X20: A hot key is the set of its parts: the order in which the parts
    are written and their repetition make no difference to
    [check_and_trigger_hotkeys]. *)
Theorem hotkey_is_a_set_of_names (m : gmap string json) (k d a b : string) :
  GUI.hotkey (JObj (<[k := JStr (a +:+ "+" +:+ b)]> m)) k d
    = GUI.hotkey (JObj (<[k := JStr (b +:+ "+" +:+ a)]> m)) k d
  /\ GUI.hotkey (JObj (<[k := JStr (a +:+ "+" +:+ a)]> m)) k d
    = GUI.hotkey (JObj (<[k := JStr a]> m)) k d.
Proof.
  rewrite !hotkey_of_string.
  change ("+" +:+ ?x)%string with (String "+" x).
  rewrite !lower_around_plus, !split_app, !list_to_set_app_L.
  split; f_equal; set_solver.
Qed.

(** X21: A callback is scheduled only when the keys held are exactly the
    parts of its hot key, read from the configuration at that moment; and
    the name of a held key is never empty. So a hot key with an empty part,
    as the empty string or one that ends with a plus sign, never fires. *)
Theorem scheduled_callback_matches_held_keys (key : GUI.pynput_key) (g : GUI.t) :
  "" ∉ GUI.pressed_keys g ->
  ("" ∉ GUI.pressed_keys (fst (GUI.on_press key g)))
  /\ ("" ∉ GUI.pressed_keys (fst (GUI.on_release key g)))
  /\ forall cb,
       In (GUI.After cb) (snd (GUI.on_press key g)) ->
       GUI.hotkey (GUI.config_dict g) (fst (hotkey_of cb)) (snd (hotkey_of cb))
         = Return (GUI.pressed_keys (fst (GUI.on_press key g))).
Proof.
  intros H. split; [|split].
  - destruct (on_press_cases key g) as [-> | (ks & _ & T & _ & E)]; [exact H|].
    cbv zeta in E. rewrite E. cbn [fst GUI.pressed_keys GUI.set_pressed_keys].
    destruct ks; [discriminate T|]. set_solver.
  - unfold GUI.on_release. destruct (GUI.get_key_str key); [|exact H].
    destruct (bool_decide _); [|exact H].
    cbn [fst GUI.pressed_keys GUI.set_pressed_keys]. set_solver.
  - intros cb Hin.
    destruct (on_press_cases key g) as [E | (ks & _ & _ & _ & E)].
    + rewrite E in Hin. destruct Hin.
    + cbv zeta in E. rewrite E in *. cbn [fst snd] in *.
      set (g' := GUI.set_pressed_keys _ g) in *.
      destruct (GUI.check_and_trigger_hotkeys g') as [[cb'|] | e] eqn:Hc;
        cbn [In] in Hin; try tauto.
      * destruct Hin as [[= <-] | []].
        apply check_and_trigger_sound in Hc. apply Hc.
      * destruct Hin as [Hin | []]. discriminate Hin.
Qed.

Lemma scheduled_callback_matches_held_keys_witness :
  "" ∉ GUI.pressed_keys
         (fst (GUI.on_press (GUI.Key "F9") (GUI.init default_config example_config example_clock))).
Proof.
  apply (scheduled_callback_matches_held_keys (GUI.Key "F9")
           (GUI.init default_config example_config example_clock)).
  cbn. set_solver.
Defined.

(** X22: Hot keys shadow each other in the order start/stop, pause/resume,
    screenshot: a hot key with the same parts as an earlier one never
    fires. The pause hot key does nothing while the monitor is stopped,
    and then hides a screenshot hot key with the same parts. *)
Theorem shadowed_hotkeys_never_fire (g : GUI.t) :
  let c := GUI.config_dict g in
  let start_stop := GUI.hotkey c "hotkey_start_stop" "f9" in
  let pause_resume := GUI.hotkey c "hotkey_pause_resume" "f10" in
  let screenshot := GUI.hotkey c "hotkey_screenshot" "f8" in
  let scheduled := GUI.check_and_trigger_hotkeys g in
  (pause_resume = start_stop -> scheduled <> Return (Some GUI.Pause_monitoring))
  /\ (screenshot = start_stop \/ screenshot = pause_resume ->
      scheduled <> Return (Some GUI.Start_screenshot))
  /\ (is_running (self (GUI.monitor g)) = false ->
      scheduled <> Return (Some GUI.Pause_monitoring)
      /\ scheduled <> Return (Some GUI.Stop_monitoring)).
Proof.
  cbv zeta. unfold GUI.check_and_trigger_hotkeys.
  destruct (GUI.hotkey _ "hotkey_start_stop" _) as [h1|];
    [|repeat split; discriminate].
  destruct (GUI.hotkey _ "hotkey_pause_resume" _) as [h2|];
    [|repeat split; discriminate].
  destruct (GUI.hotkey _ "hotkey_screenshot" _) as [h3|];
    [|repeat split; discriminate].
  cbn [mbind outcome_bind].
  destruct (bool_decide (GUI.pressed_keys g = h1)) eqn:E1;
    [apply bool_decide_eq_true_1 in E1 | apply bool_decide_eq_false_1 in E1];
  (destruct (bool_decide (GUI.pressed_keys g = h2)) eqn:E2;
    [apply bool_decide_eq_true_1 in E2 | apply bool_decide_eq_false_1 in E2]);
  (destruct (bool_decide (GUI.pressed_keys g = h3)) eqn:E3;
    [apply bool_decide_eq_true_1 in E3 | apply bool_decide_eq_false_1 in E3]);
  destruct (is_running _); repeat split; intros; try discriminate; try congruence;
    intuition congruence.
Qed.

(** X23: The three hot keys are read before any of them is compared: when
    the configuration holds, for one of them, a value that is not a string,
    no key press schedules a callback, for any of the three. *)
Theorem hotkeys_fail_together (key : GUI.pynput_key) (g : GUI.t)
    (m : gmap string json) (broken : GUI.callback) (v : json) :
  GUI.config_dict g = JObj m ->
  m !! fst (hotkey_of broken) = Some v ->
  (forall s, v <> JStr s) ->
  forall cb, ~ In (GUI.After cb) (snd (GUI.on_press key g)).
Proof.
  intros Hm Hv Hs cb Hin.
  assert (Hb : GUI.hotkey (GUI.config_dict g) (fst (hotkey_of broken)) (snd (hotkey_of broken))
               = Raise AttributeError).
  { rewrite Hm, hotkey_object, Hv. cbn [default from_option]. unfold id.
    destruct v; try reflexivity. exfalso. eapply Hs. reflexivity. }
  destruct (on_press_cases key g) as [E | (ks & _ & _ & _ & E)].
  - rewrite E in Hin. destruct Hin.
  - cbv zeta in E. rewrite E in Hin. cbn [snd] in Hin.
    set (g' := GUI.set_pressed_keys _ g) in *.
    assert (Hr : exists e', GUI.check_and_trigger_hotkeys g' = Raise e').
    { unfold GUI.check_and_trigger_hotkeys.
      change (GUI.config_dict g') with (GUI.config_dict g).
      destruct broken; cbn [hotkey_of fst snd] in Hb;
        repeat match goal with
               | |- context [GUI.hotkey ?c ?k ?d] =>
                   destruct (GUI.hotkey c k d) eqn:?; [|eexists; reflexivity];
                   try congruence; cbn [mbind outcome_bind]
               end. }
    destruct Hr as [e' Hr]. rewrite Hr in Hin.
    destruct Hin as [Hin | []]. discriminate Hin.
Qed.

Lemma hotkeys_fail_together_witness :
  ~ In (GUI.After GUI.Start_monitoring)
       (snd (GUI.on_press (GUI.Key "f9")
               (GUI.init (JObj {[ "hotkey_screenshot"%string := JInt 8 ]})
                  example_config example_clock))).
Proof.
  apply (hotkeys_fail_together (GUI.Key "f9")
           (GUI.init (JObj {[ "hotkey_screenshot"%string := JInt 8 ]})
              example_config example_clock)
           {[ "hotkey_screenshot"%string := JInt 8 ]}
           GUI.Start_screenshot (JInt 8)).
  - reflexivity.
  - reflexivity.
  - discriminate.
Defined.

(** X24: The region chosen with the mouse does not depend on the direction
    of the drag. When it is taken, it is the rectangle between the two
    corners and is more than ten pixels wide and high, so that a frame
    grabbed from it has pixels; a smaller drag leaves the entries alone. *)
Theorem selection_region (start_x start_y x y : Z) :
  GUI.on_mouse_up start_x start_y x y = GUI.on_mouse_up x y start_x start_y
  /\ match GUI.on_mouse_up start_x start_y x y with
     | Some r =>
         Config.left r = Z.min start_x x /\ Config.top r = Z.min start_y y
         /\ Config.left r + Config.width r = Z.max start_x x
         /\ Config.top r + Config.height r = Z.max start_y y
         /\ 10 < Config.width r /\ 10 < Config.height r
     | None => Z.abs (x - start_x) <= 10 \/ Z.abs (y - start_y) <= 10
     end.
Proof.
  unfold GUI.on_mouse_up. split.
  - rewrite (Z.min_comm start_x), (Z.min_comm start_y),
      (Z.max_comm start_x), (Z.max_comm start_y). reflexivity.
  - destruct (10 <? Z.max start_x x - Z.min start_x x) eqn:W;
      destruct (10 <? Z.max start_y y - Z.min start_y y) eqn:H; cbn [andb];
      rewrite ?Z.ltb_lt, ?Z.ltb_ge in *; cbn [Config.left Config.top Config.width Config.height];
      lia.
Qed.

(** X25: The colour [update_color_preview] gives to the preview is always
    a number sign and six hexadecimal digits, whatever integers the three
    entries hold: each channel is clamped to 0..255 before it is written
    with two digits, and is read back from them. An empty entry counts as
    0, and an entry that is no integer leaves the preview as it is. *)
Theorem color_preview_is_well_formed (int_ : string -> option Z)
    (f : GUI.form) (bg : string) :
  let color := GUI.update_color_preview int_ f bg in
  match GUI.int_or_0 int_ (GUI.r_entry f), GUI.int_or_0 int_ (GUI.g_entry f),
        GUI.int_or_0 int_ (GUI.b_entry f) with
  | Some r, Some g, Some b =>
      String.length color = 7%nat
      /\ String.get 0 color = Some "#"%char
      /\ hex_value (String.substring 1 2 color) = Some (Z.max 0 (Z.min 255 r))
      /\ hex_value (String.substring 3 2 color) = Some (Z.max 0 (Z.min 255 g))
      /\ hex_value (String.substring 5 2 color) = Some (Z.max 0 (Z.min 255 b))
  | _, _, _ => color = bg
  end
  /\ GUI.int_or_0 int_ "" = Some 0.
Proof.
  cbv zeta. split; [|reflexivity]. unfold GUI.update_color_preview.
  destruct (GUI.int_or_0 int_ (GUI.r_entry f)) as [r|]; [|reflexivity].
  destruct (GUI.int_or_0 int_ (GUI.g_entry f)) as [g|]; [|reflexivity].
  destruct (GUI.int_or_0 int_ (GUI.b_entry f)) as [b|]; [|reflexivity].
  destruct (format_02x_channel (Z.max 0 (Z.min 255 r)) ltac:(lia)) as [Lr Hr].
  destruct (format_02x_channel (Z.max 0 (Z.min 255 g)) ltac:(lia)) as [Lg Hg].
  destruct (format_02x_channel (Z.max 0 (Z.min 255 b)) ltac:(lia)) as [Lb Hb].
  destruct (length_two _ Lr) as (r1 & r2 & Er).
  destruct (length_two _ Lg) as (g1 & g2 & Eg).
  destruct (length_two _ Lb) as (b1 & b2 & Eb).
  rewrite Er, Eg, Eb in *. cbn. auto.
Qed.

(** X17: [start_monitoring] of the monitor starts a thread only when the
    monitor is not running, so that a second call changes nothing; after
    [stop_monitoring] it starts one and clears the pause, whatever the
    pause state was. Neither of the two touches the configuration, the
    trigger counter or the time of the last trigger. *)
Theorem restart_resumes_unpaused (c : controlled) :
  let started := fst (start_monitoring c) in
  let restarted := start_monitoring (fst (stop_monitoring c)) in
  is_running (self started) = true
  /\ start_monitoring started = (started, [])
  /\ is_running (self (fst (stop_monitoring c))) = false
  /\ is_running (self (fst restarted)) = true
  /\ is_paused (self (fst restarted)) = false
  /\ snd restarted = [Thread_start]
  /\ Forall (fun c' => config (self c') = config (self c)
                       /\ trigger_count (self c') = trigger_count (self c)
                       /\ last_trigger_time (self c') = last_trigger_time (self c))
       [started; fst (stop_monitoring c); fst restarted].
Proof.
  destruct c as [m th]. cbv zeta. unfold start_monitoring, stop_monitoring.
  cbn [self monitor_thread fst snd is_running set_is_running set_is_paused negb].
  destruct (is_running m) eqn:R;
    cbn [self monitor_thread fst snd is_running is_paused set_is_running set_is_paused negb
         config trigger_count last_trigger_time];
    rewrite ?R; cbn [negb]; repeat split; repeat constructor.
Qed.
